(** * Update calculator: RPM version model, comparison and update matching

    A shallow embedding of [update_calculator/rpm_utils.py] and
    [update_calculator/calculator.py].

    Python values are modelled as follows.
    - [str] is [string]: each [ascii] is one code point in the range
      0..255 (Latin-1); the character classes below are Python's on that
      range.
    - [int] is [Z]; a [float] is the number it stands for, with the text
      that [str()] writes for it.
    - a raised exception is the [Raise] outcome of the [res] monad; a
      returned [None] is an [option].
    - a [dict] with string keys is a [gmap string _].
    - objects whose identity is observable live in a heap and are named by
      their location. *)

From Stdlib Require Import ZArith NArith Ascii String List Bool Lia.
From stdpp Require Import base option list strings gmap.

Local Open Scope string_scope.
Local Open Scope list_scope.
Local Open Scope Z_scope.

(** ** Python builtins used by the two modules *)

Module Py.

Inductive exn := TypeError | ValueError | AttributeError.

(** The outcome of evaluating an expression: a value or a raised exception. *)
Inductive res (A : Type) : Type :=
  | Ok (a : A)
  | Raise (e : exn).
Arguments Ok {A} a.
Arguments Raise {A} e.

#[export] Instance res_ret : MRet res := fun A a => Ok a.
#[export] Instance res_bind : MBind res := fun A B f m =>
  match m with
  | Ok a => f a
  | Raise e => Raise e
  end.
#[export] Instance res_fmap : FMap res := fun A B f m =>
  match m with
  | Ok a => Ok (f a)
  | Raise e => Raise e
  end.

(** The number that a [float] stands for: not a number, an infinity, or
    the finite value [m * 2 ^ e], which every finite [float] has. *)
Inductive fvalue :=
  | FNan
  | FInf (negative : bool)
  | FFin (m e : Z).

(** A [float]: its value, which decides comparisons and truth, and the
    text that [str()] writes for it. The text is carried along, not
    computed from the value. *)
Record pyfloat := {
  f_value : fvalue;
  f_repr : string;
}.

(** The scalar values a decoded JSON document carries: [None], a [bool],
    an [int], a [float] or a [str]. *)
Inductive pyval :=
  | PNone
  | PBool (b : bool)
  | PInt (z : Z)
  | PFloat (f : pyfloat)
  | PStr (s : string).

#[export] Instance fvalue_eq_dec : EqDecision fvalue.
Proof. solve_decision. Defined.
#[export] Instance pyfloat_eq_dec : EqDecision pyfloat.
Proof. solve_decision. Defined.
#[export] Instance pyval_eq_dec : EqDecision pyval.
Proof. solve_decision. Defined.

Definition ord (c : ascii) : N := N_of_ascii c.

Definition between (lo hi : N) (c : ascii) : bool :=
  ((lo <=? ord c) && (ord c <=? hi))%N.

Definition is_ascii_digit (c : ascii) : bool := between 48 57 c.

(** [str.isdigit] on one character: the ASCII digits and the superscripts
    U+00B2, U+00B3, U+00B9. *)
Definition char_isdigit (c : ascii) : bool :=
  is_ascii_digit c || (ord c =? 178)%N || (ord c =? 179)%N || (ord c =? 185)%N.

(** [str.isalpha] on one character: the letters of Latin-1. *)
Definition char_isalpha (c : ascii) : bool :=
  between 65 90 c || between 97 122 c
  || (ord c =? 170)%N || (ord c =? 181)%N || (ord c =? 186)%N
  || between 192 214 c || between 216 246 c || between 248 255 c.

(** [str.isspace] on one character, which is what [str.strip()] drops. *)
Definition char_isspace (c : ascii) : bool :=
  between 9 13 c || between 28 32 c || (ord c =? 133)%N || (ord c =? 160)%N.

(** The whitespace that [int()] drops around a literal: the ASCII
    whitespace and the two spaces above U+007F. The separators U+001C to
    U+001F are not part of it. *)
Definition int_isspace (c : ascii) : bool :=
  between 9 13 c || (ord c =? 32)%N || (ord c =? 133)%N || (ord c =? 160)%N.

Fixpoint all_chars (p : ascii -> bool) (s : string) : bool :=
  match s with
  | EmptyString => true
  | String c s' => p c && all_chars p s'
  end.

Definition nonempty (s : string) : bool :=
  match s with
  | EmptyString => false
  | String _ _ => true
  end.

(** [len(s)] *)
Fixpoint strlen (s : string) : N :=
  match s with
  | EmptyString => 0
  | String _ s' => N.succ (strlen s')
  end.

(** [s.isdigit()] and [s.isalpha()]: every character in the class, and at
    least one character. *)
Definition isdigit (s : string) : bool :=
  nonempty s && all_chars char_isdigit s.
Definition isalpha (s : string) : bool :=
  nonempty s && all_chars char_isalpha s.

(** *** [int(s)] *)

(** [sys.get_int_max_str_digits()], at its default. *)
Definition int_max_str_digits : N := 4300.

Definition digit_value (c : ascii) : Z := Z.of_N (ord c) - 48.

(** The digits of a decimal literal: groups of ASCII digits separated by
    single underscores. [prev] tells whether the previous character was a
    digit. *)
Fixpoint parse_digits (acc : Z) (prev : bool) (s : string) : option Z :=
  match s with
  | EmptyString => if prev then Some acc else None
  | String c s' =>
      if is_ascii_digit c then parse_digits (10 * acc + digit_value c) true s'
      else if (ord c =? 95)%N && prev then parse_digits acc false s'
      else None
  end.

(** The number of digit characters of a literal; underscores do not
    count. *)
Fixpoint count_digits (s : string) : N :=
  match s with
  | EmptyString => 0
  | String c s' =>
      if is_ascii_digit c then N.succ (count_digits s') else count_digits s'
  end.

Fixpoint lstrip_by (space : ascii -> bool) (s : string) : string :=
  match s with
  | EmptyString => EmptyString
  | String c s' => if space c then lstrip_by space s' else s
  end.

Fixpoint rstrip_by (space : ascii -> bool) (s : string) : string :=
  match s with
  | EmptyString => EmptyString
  | String c s' =>
      match rstrip_by space s' with
      | EmptyString => if space c then EmptyString else String c EmptyString
      | r => String c r
      end
  end.

(** [s.strip()] *)
Definition strip (s : string) : string :=
  rstrip_by char_isspace (lstrip_by char_isspace s).

(** The sign of a literal and what follows the sign. *)
Definition split_sign (literal : string) : bool * string :=
  match literal with
  | String "+" r => (false, r)
  | String "-" r => (true, r)
  | r => (false, r)
  end.

(** [int(s)] for a [str]: surrounding whitespace is dropped, a sign is
    allowed, anything else that is not a decimal literal raises
    [ValueError], and so does a literal of more than
    [int_max_str_digits] digits. *)
Definition int (s : string) : res Z :=
  let literal := rstrip_by int_isspace (lstrip_by int_isspace s) in
  let '(negative, digits) := split_sign literal in
  match parse_digits 0 false digits with
  | Some z =>
      if (count_digits digits <=? int_max_str_digits)%N
      then Ok (if negative : bool then - z else z)
      else Raise ValueError
  | None => Raise ValueError
  end.

(** *** [str(n)] *)

Definition digit_char (d : N) : ascii := ascii_of_N (48 + d).

(** The decimal digits of [n], most significant first, put before [acc]. *)
Fixpoint digits_of (fuel : nat) (n : N) (acc : string) : string :=
  match fuel with
  | O => acc
  | S fuel' =>
      let acc' := String (digit_char (n mod 10)) acc in
      if (n / 10 =? 0)%N then acc' else digits_of fuel' (n / 10) acc'
  end.

(** A number has no more decimal digits than binary ones. *)
Definition str_of_N (n : N) : string :=
  digits_of (S (N.to_nat (N.log2 n))) n "".

(** [str(z)] for an [int], also what an f-string writes for it: a number
    of more than [int_max_str_digits] digits raises [ValueError]. *)
Definition str_of_Z (z : Z) : res string :=
  let digits := str_of_N (Z.to_N (Z.abs z)) in
  if (strlen digits <=? int_max_str_digits)%N
  then Ok (if z <? 0 then String "-" digits else digits)
  else Raise ValueError.

(** [str(v)], also what an f-string writes for [{v}]. *)
Definition str (v : pyval) : res string :=
  match v with
  | PNone => Ok "None"
  | PBool b => Ok (if b then "True" else "False")
  | PInt z => str_of_Z z
  | PFloat f => Ok (f_repr f)
  | PStr s => Ok s
  end.

(** Truth value of a scalar: [None], [False], zero and the empty string
    are false. *)
Definition truthy (v : pyval) : bool :=
  match v with
  | PNone => false
  | PBool b => b
  | PInt z => negb (z =? 0)
  | PFloat f =>
      match f_value f with
      | FFin m _ => negb (m =? 0)
      | _ => true
      end
  | PStr s => nonempty s
  end.

(** The number that a [bool], an [int] or a [float] stands for. *)
Definition number_of (v : pyval) : option fvalue :=
  match v with
  | PBool b => Some (FFin (if b then 1 else 0) 0)
  | PInt z => Some (FFin z 0)
  | PFloat f => Some (f_value f)
  | _ => None
  end.

(** [x < y] on numbers, exact also between an [int] and a [float]; every
    comparison with not-a-number is false. *)
Definition number_lt (x y : fvalue) : bool :=
  match x with
  | FNan => false
  | FInf true =>
      match y with
      | FNan | FInf true => false
      | _ => true
      end
  | FInf false => false
  | FFin m1 e1 =>
      match y with
      | FNan | FInf true => false
      | FInf false => true
      | FFin m2 e2 =>
          let e := Z.min e1 e2 in
          m1 * 2 ^ (e1 - e) <? m2 * 2 ^ (e2 - e)
      end
  end.

(** [a < b] on scalars: defined between two strings (code-point order)
    and between two numbers; anything else raises [TypeError]. *)
Definition lt (a b : pyval) : res bool :=
  match a, b with
  | PInt x, PInt y => Ok (x <? y)
  | PStr x, PStr y => Ok (String.ltb x y)
  | _, _ =>
      match number_of a, number_of b with
      | Some x, Some y => Ok (number_lt x y)
      | _, _ => Raise TypeError
      end
  end.

Definition gt (a b : pyval) : res bool := lt b a.

End Py.

(** ** [rpm_utils.py] *)

Module RpmUtils.
Import Py.

(** *** [RPMVersion] *)

Record RPMVersion := {
  name : string;
  epoch : Z;
  version : string;
  release : string;
  arch : string;
}.

#[export] Instance RPMVersion_eq_dec : EqDecision RPMVersion.
Proof. solve_decision. Defined.

(** Normalisation of an epoch given as a string, shared by
    [__post_init__], [compare_versions] and [format_evr]:
    [0 if epoch in ("(none)", "", "0") else int(epoch)]. *)
Definition epoch_of_str (s : string) : res Z :=
  if bool_decide (s = "(none)") || bool_decide (s = "") || bool_decide (s = "0")
  then Ok 0
  else int s.

(** The constructor followed by [__post_init__]: the [epoch] argument is
    an [int] or a [str]; a string is normalised, an integer is stored as it
    is. *)
Definition new_RPMVersion (name : string) (epoch : Z + string)
    (version release arch : string) : res RPMVersion :=
  e ← match epoch with
      | inr s => epoch_of_str s
      | inl z => Ok z
      end;
  Ok {| name := name; epoch := e; version := version;
        release := release; arch := arch |}.

(** The f-string writes [self.epoch] with [str()], which raises for an
    integer of too many digits. *)
Definition nevra (self : RPMVersion) : res string :=
  e ← str_of_Z (epoch self);
  Ok (name self +:+ "-" +:+ e +:+ ":" +:+ version self
        +:+ "-" +:+ release self +:+ "." +:+ arch self).

Definition nvra (self : RPMVersion) : string :=
  name self +:+ "-" +:+ version self +:+ "-" +:+ release self
    +:+ "." +:+ arch self.

Definition evr (self : RPMVersion) : res string :=
  e ← str_of_Z (epoch self);
  Ok (e +:+ ":" +:+ version self +:+ "-" +:+ release self).

Definition __eq__ (self other : RPMVersion) : bool :=
  bool_decide (name self = name other)
  && bool_decide (arch self = arch other)
  && bool_decide (epoch self = epoch other)
  && bool_decide (version self = version other)
  && bool_decide (release self = release other).

(** *** [_split_version_string] *)

(** The three variables of the loop. *)
Record split_state := {
  segments : list string;
  current : string;
  current_is_digit : option bool;
}.

Definition split_init : split_state :=
  {| segments := []; current := ""; current_is_digit := None |}.

(** [segments.append(current); current = ""] when [cond and current]. *)
Definition flush_if (cond : bool) (st : split_state) : list string * string :=
  if cond && nonempty (current st)
  then (segments st ++ [current st], "")
  else (segments st, current st).

(** One iteration of [for char in version]. *)
Definition split_step (st : split_state) (char : ascii) : split_state :=
  if char_isdigit char then
    let '(segs, cur) :=
      flush_if (bool_decide (current_is_digit st = Some false)) st in
    {| segments := segs; current := cur +:+ String char "";
       current_is_digit := Some true |}
  else if char_isalpha char then
    let '(segs, cur) :=
      flush_if (bool_decide (current_is_digit st = Some true)) st in
    {| segments := segs; current := cur +:+ String char "";
       current_is_digit := Some false |}
  else
    let '(segs, cur) := flush_if true st in
    {| segments := segs; current := cur; current_is_digit := None |}.

Definition split_finish (st : split_state) : list string :=
  if nonempty (current st) then segments st ++ [current st]
  else segments st.

Definition _split_version_string (version : string) : list string :=
  split_finish (fold_left split_step (list_ascii_of_string version) split_init).

(** *** [_compare_version_strings] *)

(** What the body of the [for] loop does with one pair of segments. *)
Inductive step_outcome :=
  | Return (r : Z)
  | Continue.

Definition compare_pair (s1 s2 : string) : res step_outcome :=
  if isdigit s1 && isdigit s2 then
    n1 ← int s1;
    n2 ← int s2;
    if n1 <? n2 then Ok (Return (-1))
    else if n1 >? n2 then Ok (Return 1)
    else Ok Continue
  else if isalpha s1 && isalpha s2 then
    if String.ltb s1 s2 then Ok (Return (-1))
    else if String.ltb s2 s1 then Ok (Return 1)
    else Ok Continue
  else if isdigit s1 then Ok (Return 1)
  else Ok (Return (-1)).

(** [for s1, s2 in zip(segments1, segments2)]: the loop stops at the end of
    the shorter list. *)
Fixpoint walk (segments1 segments2 : list string) : res step_outcome :=
  match segments1, segments2 with
  | s1 :: rest1, s2 :: rest2 =>
      o ← compare_pair s1 s2;
      match o with
      | Return r => Ok (Return r)
      | Continue => walk rest1 rest2
      end
  | _, _ => Ok Continue
  end.

Definition compare_segments (segments1 segments2 : list string) : res Z :=
  o ← walk segments1 segments2;
  match o with
  | Return r => Ok r
  | Continue =>
      if (length segments1 <? length segments2)%nat then Ok (-1)
      else if (length segments2 <? length segments1)%nat then Ok 1
      else Ok 0
  end.

Definition _compare_version_strings (v1 v2 : string) : res Z :=
  compare_segments (_split_version_string v1) (_split_version_string v2).

(** *** [RPMVersion.__lt__] and the [<] operator *)

(** A rich comparison method returns a [bool] or [NotImplemented]. *)
Inductive rich_result :=
  | Bool (b : bool)
  | NotImplemented.

Definition __lt__ (self other : RPMVersion) : res rich_result :=
  if negb (bool_decide (name self = name other))
     || negb (bool_decide (arch self = arch other))
  then Ok NotImplemented
  else if negb (bool_decide (epoch self = epoch other))
  then Ok (Bool (epoch self <? epoch other))
  else
    version_cmp ← _compare_version_strings (version self) (version other);
    if negb (version_cmp =? 0) then Ok (Bool (version_cmp <? 0))
    else
      release_cmp ← _compare_version_strings (release self) (release other);
      Ok (Bool (release_cmp <? 0)).

(** [__gt__] as [functools.total_ordering] derives it from [__lt__]:
    [NotImplemented] is passed on, otherwise
    [not op_result and self != other]. *)
Definition __gt__ (self other : RPMVersion) : res rich_result :=
  op_result ← __lt__ self other;
  match op_result with
  | NotImplemented => Ok NotImplemented
  | Bool b => Ok (Bool (negb b && negb (__eq__ self other)))
  end.

(** The expression [a < b] on two [RPMVersion] objects: [a.__lt__(b)],
    then the reflected [b.__gt__(a)]; when both give [NotImplemented] the
    interpreter raises [TypeError]. *)
Definition lt_op (a b : RPMVersion) : res bool :=
  r ← __lt__ a b;
  match r with
  | Bool x => Ok x
  | NotImplemented =>
      r' ← __gt__ b a;
      match r' with
      | Bool x => Ok x
      | NotImplemented => Raise TypeError
      end
  end.

(** *** [compare_versions] *)

(** [d.get(key, default)] *)
Definition get (d : gmap string pyval) (key : string) (default : pyval)
    : pyval :=
  match d !! key with
  | Some v => v
  | None => default
  end.

(** [if isinstance(e, str): e = 0 if e in (...) else int(e)] *)
Definition normalize_epoch (e : pyval) : res pyval :=
  match e with
  | PStr s => PInt <$> epoch_of_str s
  | _ => Ok e
  end.

(** Iterating over a version raises [TypeError] unless it is a [str]. *)
Definition as_str (v : pyval) : res string :=
  match v with
  | PStr s => Ok s
  | _ => Raise TypeError
  end.

Definition compare_versions (installed available : gmap string pyval) : res Z :=
  let i_epoch := get installed "epoch" (PInt 0) in
  let a_epoch := get available "epoch" (PInt 0) in
  i_epoch ← normalize_epoch i_epoch;
  a_epoch ← normalize_epoch a_epoch;
  less ← lt i_epoch a_epoch;
  if less : bool then Ok (-1) else
  more ← gt i_epoch a_epoch;
  if more : bool then Ok 1 else
  let i_version := get installed "version" (PStr "0") in
  let a_version := get available "version" (PStr "0") in
  version_cmp ← (v1 ← as_str i_version; v2 ← as_str a_version;
                 _compare_version_strings v1 v2);
  if negb (version_cmp =? 0) then Ok version_cmp else
  let i_release := get installed "release" (PStr "0") in
  let a_release := get available "release" (PStr "0") in
  v1 ← as_str i_release; v2 ← as_str a_release;
  _compare_version_strings v1 v2.

Definition is_update_available (installed available : gmap string pyval)
    : res bool :=
  c ← compare_versions installed available;
  Ok (c <? 0).

(** *** [format_evr] *)

Definition format_evr (epoch version release : pyval) : res string :=
  epoch ← normalize_epoch epoch;
  positive ← gt epoch (PInt 0);
  if positive : bool
  then e ← str epoch; v ← str version; r ← str release;
       Ok (e +:+ ":" +:+ v +:+ "-" +:+ r)
  else v ← str version; r ← str release;
       Ok (v +:+ "-" +:+ r).

(** *** The regular expressions of [parse_nevra]

    Both patterns are a sequence of capturing groups [(X+)], with [X] a
    character class, and literal characters, between [^] and [$].
    [re.match] tries the longest repetition first and gives back one
    character at a time. *)

Inductive item :=
  | Lit (c : ascii)
  | Group (class : ascii -> bool).

Definition newline : ascii := ascii_of_N 10.

(** [.] : any character but a newline. *)
Definition dot (c : ascii) : bool := negb (bool_decide (c = newline)).
(** [\d] : a decimal digit. *)
Definition digit (c : ascii) : bool := is_ascii_digit c.
(** [[^-]] and [[^.]] *)
Definition not_char (x c : ascii) : bool := negb (bool_decide (c = x)).

(** [$] matches at the end of the string and just before a newline that
    ends the string. *)
Definition at_end (s : string) : bool :=
  bool_decide (s = "") || bool_decide (s = String newline "").

(** [(X+)] followed by the continuation [k]: [cap] is what the group has
    taken so far, [s] what is left. *)
Fixpoint greedy {R : Type} (class : ascii -> bool)
    (k : string -> string -> option R) (cap s : string) : option R :=
  let here := if nonempty cap then k cap s else None in
  match s with
  | String c s' =>
      if class c then
        match greedy class k (cap +:+ String c "") s' with
        | Some r => Some r
        | None => here
        end
      else here
  | EmptyString => here
  end.

(** The groups of the first match of the items followed by [$], in the
    order the matcher tries them. *)
Fixpoint match_items (items : list item) : string -> option (list string) :=
  match items with
  | [] => fun s => if at_end s then Some [] else None
  | Lit c :: rest => fun s =>
      match s with
      | String c' s' =>
          if bool_decide (c' = c) then match_items rest s' else None
      | EmptyString => None
      end
  | Group class :: rest => fun s =>
      greedy class (fun cap s' => cons cap <$> match_items rest s') "" s
  end.

(** [^(.+)-(\d+):([^-]+)-([^.]+)\.(.+)$] *)
Definition pattern_with_epoch : list item :=
  [Group dot; Lit "-"; Group digit; Lit ":"; Group (not_char "-"); Lit "-";
   Group (not_char "."); Lit "."; Group dot].

(** [^(.+)-([^-]+)-([^.]+)\.(.+)$] *)
Definition pattern_without_epoch : list item :=
  [Group dot; Lit "-"; Group (not_char "-"); Lit "-";
   Group (not_char "."); Lit "."; Group dot].

(** *** [parse_nevra] *)

Definition parse_nevra (nevra_string : string) : res (option RPMVersion) :=
  match match_items pattern_with_epoch nevra_string with
  | Some [name; epoch; version; release; arch] =>
      e ← int epoch;
      Some <$> new_RPMVersion name (inl e) version release arch
  | _ =>
      match match_items pattern_without_epoch nevra_string with
      | Some [name; version; release; arch] =>
          Some <$> new_RPMVersion name (inl 0) version release arch
      | _ => Ok None
      end
  end.

End RpmUtils.


(** ** [calculator.py] *)

Module Calculator.
Import Py.

(** *** [PackageUpdate] *)

Record PackageUpdate := {
  name : pyval;
  arch : pyval;
  channel : string;
  installed_epoch : string;
  installed_version : pyval;
  installed_release : pyval;
  available_epoch : string;
  available_version : pyval;
  available_release : pyval;
}.

Definition installed_evr (self : PackageUpdate) : res string :=
  RpmUtils.format_evr (PStr (installed_epoch self))
    (installed_version self) (installed_release self).

Definition available_evr (self : PackageUpdate) : res string :=
  RpmUtils.format_evr (PStr (available_epoch self))
    (available_version self) (available_release self).

(** The epoch/version/release dictionary that the code builds for a
    comparison and that [to_dict] writes under ["installed"] and
    ["available"]. *)
Definition evr_dict (epoch version release : pyval) : gmap string pyval :=
  <["epoch" := epoch]>
    (<["version" := version]> (<["release" := release]> ∅)).

Definition to_dict_installed (self : PackageUpdate) : gmap string pyval :=
  evr_dict (PStr (installed_epoch self)) (installed_version self)
    (installed_release self).

Definition to_dict_available (self : PackageUpdate) : gmap string pyval :=
  evr_dict (PStr (available_epoch self)) (available_version self)
    (available_release self).

(** *** [UpdateResult] *)

Record UpdateResult := {
  host_id : string;
  profile : string;
  os_id : pyval;
  os_version : pyval;
  computed_at : string;
  updates : list PackageUpdate;
  errors : list string;
}.

Definition update_count (self : UpdateResult) : nat := length (updates self).

(** *** Documents read from storage *)

(** A value stored under a key of a manifest: a scalar, an object of
    scalars (as [os_release]) or a list of objects of scalars (as
    [packages]). *)
Inductive jval :=
  | JScalar (v : pyval)
  | JObj (d : gmap string pyval)
  | JList (l : list (gmap string pyval)).

(** Locations of the dictionaries created by [load_repo_packages]. *)
Definition loc := nat.

(** The files under the two directories, already decoded, and the heap of
    package dictionaries. *)
Record world := {
  manifest_files : gmap string (gmap string jval);
  cache_files : gmap string (gmap string (gmap string pyval));
  heap : list (gmap string (gmap string pyval));
}.

(** *** [UpdateCalculator] *)

Record UpdateCalculator := {
  mirror_dir : string;
  manifests_dir : string;
  _repo_cache : gmap string loc;
}.

Definition __init__ (mirror_dir manifests_dir : string) : UpdateCalculator :=
  {| mirror_dir := mirror_dir; manifests_dir := manifests_dir;
     _repo_cache := ∅ |}.

(** [Path / segment], for a segment that is a plain file name: not empty,
    not [.], without a slash. For other segments [pathlib] rewrites the
    path (an absolute segment replaces it, an empty one leaves it as it
    is), which is not modelled; the listing of [compute_all_updates] gives
    plain names only. *)
Definition joinpath (p segment : string) : string := p +:+ "/" +:+ segment.

(** [s.split(sep)] for a one-character separator. *)
Fixpoint split (sep : ascii) (s : string) : list string :=
  match s with
  | EmptyString => [""]
  | String c s' =>
      if bool_decide (c = sep) then "" :: split sep s'
      else match split sep s' with
           | h :: t => String c h :: t
           | [] => [String c ""]
           end
  end.

Definition get_profile_for_os (os_id os_version : pyval) : res string :=
  match os_version with
  | PStr v =>
      let major_version := default "" (head (split "." v)) in
      if bool_decide (os_id ∈ [PStr "rhel"; PStr "centos"; PStr "rocky";
                               PStr "almalinux"])
      then Ok ("rhel" +:+ major_version)
      else Ok ("rhel" +:+ major_version)
  | _ => Raise AttributeError
  end.

Definition load_manifest (self : UpdateCalculator) (w : world)
    (host_id : string) : option (gmap string jval) :=
  let manifest_dir :=
    joinpath (joinpath (joinpath (manifests_dir self) "processed") host_id)
      "latest" in
  let manifest_file := joinpath manifest_dir "manifest.json" in
  manifest_files w !! manifest_file.

(** A new dictionary object on the heap. *)
Definition alloc (d : gmap string (gmap string pyval)) (w : world)
    : loc * world :=
  (length (heap w),
   {| manifest_files := manifest_files w; cache_files := cache_files w;
      heap := heap w ++ [d] |}).

(** The dictionary at a location. *)
Definition deref (w : world) (l : loc) : gmap string (gmap string pyval) :=
  default ∅ (heap w !! l).

(** [cache_key = f"{profile}/{arch}/{channel}"] *)
Definition cache_key (profile arch channel : string) : string :=
  profile +:+ "/" +:+ arch +:+ "/" +:+ channel.

(** [cache_file = self.mirror_dir / profile / arch / channel /
    ".package_cache.json"] *)
Definition cache_file (self : UpdateCalculator)
    (profile arch channel : string) : string :=
  let repo_path :=
    joinpath (joinpath (joinpath (mirror_dir self) profile) arch) channel in
  joinpath repo_path ".package_cache.json".

(** [load_repo_packages] returns a reference to a dictionary; it may
    create the dictionary and may record it in [self._repo_cache]. *)
Definition load_repo_packages (self : UpdateCalculator) (w : world)
    (profile arch channel : string) : loc * UpdateCalculator * world :=
  match _repo_cache self !! cache_key profile arch channel with
  | Some packages => (packages, self, w)
  | None =>
      match cache_files w !! cache_file self profile arch channel with
      | Some content =>
          (* packages = json.load(f); self._repo_cache[cache_key] = packages *)
          let '(packages, w') := alloc content w in
          (packages,
           {| mirror_dir := mirror_dir self;
              manifests_dir := manifests_dir self;
              _repo_cache :=
                <[cache_key profile arch channel := packages]>
                  (_repo_cache self) |},
           w')
      | None =>
          (* return {} *)
          let '(packages, w') := alloc ∅ w in
          (packages, self, w')
      end
  end.

(** [d.get(key)] *)
Definition get_or_none (d : gmap string pyval) (key : string) : pyval :=
  RpmUtils.get d key PNone.

(** [{"epoch": d.get("epoch", "0"), "version": d.get("version", "0"),
      "release": d.get("release", "0")}] *)
Definition evr_info (d : gmap string pyval) : gmap string pyval :=
  evr_dict (RpmUtils.get d "epoch" (PStr "0"))
    (RpmUtils.get d "version" (PStr "0"))
    (RpmUtils.get d "release" (PStr "0")).

(** [d[key]], used on the three keys of an [evr_info] only, which are
    present. *)
Definition getitem (d : gmap string pyval) (key : string) : pyval :=
  default PNone (d !! key).

(** The body of [for pkg in installed_packages]. *)
Definition check_package (repo_packages : gmap string (gmap string pyval))
    (channel : string) (updates : list PackageUpdate)
    (pkg : gmap string pyval) : res (list PackageUpdate) :=
  let name := get_or_none pkg "name" in
  let arch := get_or_none pkg "arch" in
  if negb (truthy name) || negb (truthy arch) then Ok updates else
  name_text ← str name;
  arch_text ← str arch;
  let key := name_text +:+ "." +:+ arch_text in
  match repo_packages !! key with
  | None => Ok updates
  | Some available =>
      if bool_decide (available = ∅) then Ok updates else
      let installed_info := evr_info pkg in
      let available_info := evr_info available in
      newer ← RpmUtils.is_update_available installed_info available_info;
      if newer : bool then
        installed_epoch ← str (getitem installed_info "epoch");
        available_epoch ← str (getitem available_info "epoch");
        let update :=
          {| name := name; arch := arch; channel := channel;
             installed_epoch := installed_epoch;
             installed_version := getitem installed_info "version";
             installed_release := getitem installed_info "release";
             available_epoch := available_epoch;
             available_version := getitem available_info "version";
             available_release := getitem available_info "release" |} in
        Ok (updates ++ [update])
      else Ok updates
  end.

Fixpoint check_packages (repo_packages : gmap string (gmap string pyval))
    (channel : string) (updates : list PackageUpdate)
    (pkgs : list (gmap string pyval)) : res (list PackageUpdate) :=
  match pkgs with
  | [] => Ok updates
  | pkg :: rest =>
      updates' ← check_package repo_packages channel updates pkg;
      check_packages repo_packages channel updates' rest
  end.

(** Truth value of what [manifest.get("packages", [])] returned. *)
Definition jtruthy (v : jval) : bool :=
  match v with
  | JScalar s => truthy s
  | JObj d => negb (bool_decide (d = ∅))
  | JList l => negb (bool_decide (l = []))
  end.

(** [for pkg in installed_packages] with [pkg.get] in its body: reached
    with a true value only. A list gives its objects; a number is not
    iterable; the characters of a [str] and the keys of an object have no
    [get]. *)
Definition iter_packages (v : jval) : res (list (gmap string pyval)) :=
  match v with
  | JList l => Ok l
  | JScalar (PStr _) | JObj _ => Raise AttributeError
  | JScalar _ => Raise TypeError
  end.

(** [for channel in channels]: the state of the loop is the calculator,
    the heap and the updates found so far. *)
Fixpoint check_channels (channels : list string) (profile : string)
    (installed_packages : jval) (self : UpdateCalculator) (w : world)
    (updates : list PackageUpdate)
    : res (list PackageUpdate * UpdateCalculator * world) :=
  match channels with
  | [] => Ok (updates, self, w)
  | channel :: rest =>
      let '(ref, self', w') :=
        load_repo_packages self w profile "x86_64" channel in
      let repo_packages := deref w' ref in
      if bool_decide (repo_packages = ∅)
      then check_channels rest profile installed_packages self' w' updates
      else
        pkgs ← iter_packages installed_packages;
        updates' ← check_packages repo_packages channel updates pkgs;
        check_channels rest profile installed_packages self' w' updates'
  end.

(** [x.get(key, default)] on a value that should be an object. *)
Definition jget (v : jval) (key : string) (default : pyval) : res pyval :=
  match v with
  | JObj d => Ok (RpmUtils.get d key default)
  | _ => Raise AttributeError
  end.

(** [now] is the reading of the clock at the start of the call. *)
Definition compute_updates_for_host (self : UpdateCalculator) (w : world)
    (now : string) (host_id : string)
    : res (UpdateResult * UpdateCalculator * world) :=
  match load_manifest self w host_id with
  | None =>
      Ok ({| host_id := host_id; profile := "unknown";
             os_id := PStr "unknown"; os_version := PStr "unknown";
             computed_at := now; updates := [];
             errors := ["Manifest not found for host: " +:+ host_id] |},
          self, w)
  | Some manifest =>
      if bool_decide (manifest = ∅) then
        Ok ({| host_id := host_id; profile := "unknown";
               os_id := PStr "unknown"; os_version := PStr "unknown";
               computed_at := now; updates := [];
               errors := ["Manifest not found for host: " +:+ host_id] |},
            self, w)
      else
        let os_release := default (JObj ∅) (manifest !! "os_release") in
        os_id ← jget os_release "id" (PStr "unknown");
        os_version ← jget os_release "version" (PStr "unknown");
        profile ← get_profile_for_os os_id os_version;
        let installed_packages := default (JList []) (manifest !! "packages") in
        if negb (jtruthy installed_packages) then
          Ok ({| host_id := host_id; profile := profile; os_id := os_id;
                 os_version := os_version; computed_at := now; updates := [];
                 errors := ["No packages found in manifest"] |},
              self, w)
        else
          '(updates, self', w') ←
            check_channels ["baseos"; "appstream"] profile installed_packages
              self w [];
          Ok ({| host_id := host_id; profile := profile; os_id := os_id;
                 os_version := os_version; computed_at := now;
                 updates := updates; errors := [] |},
              self', w')
  end.

(** *** [compute_all_updates] *)

(** The generator, run to its end. [listing] is what
    [processed_dir.iterdir()] gives, each entry with its name and whether it
    is a directory, or [None] when the directory does not exist; [now n] is
    the reading of the clock in the call for the [n]-th host. The result is
    the list of the values yielded, and how the generator ended: with the
    calculator and the world it left, or with the exception that a call
    raised. *)
Fixpoint compute_all_loop (now : nat -> string) (n : nat)
    (entries : list (string * bool)) (self : UpdateCalculator) (w : world)
    : list UpdateResult * res (UpdateCalculator * world) :=
  match entries with
  | [] => ([], Ok (self, w))
  | (host_dir_name, is_dir) :: rest =>
      if is_dir : bool then
        match compute_updates_for_host self w (now n) host_dir_name with
        | Ok (r, self', w') =>
            let '(yielded, ending) :=
              compute_all_loop now (S n) rest self' w' in
            (r :: yielded, ending)
        | Raise e => ([], Raise e)
        end
      else compute_all_loop now n rest self w
  end.

Definition compute_all_updates (self : UpdateCalculator) (w : world)
    (now : nat -> string) (listing : option (list (string * bool)))
    : list UpdateResult * res (UpdateCalculator * world) :=
  match listing with
  | None => ([], Ok (self, w))
  | Some entries => compute_all_loop now 0 entries self w
  end.

(** *** [generate_summary] *)

(** One element of the ["hosts"] list. *)
Record host_entry := {
  entry_host_id : string;
  entry_profile : string;
  entry_update_count : nat;
}.

Record summary := {
  generated_at : string;
  total_hosts : nat;
  hosts_with_updates : nat;
  total_updates : nat;
  hosts : list host_entry;
}.

(** [sum(f(r) for r in results)] *)
Definition sum_over (f : UpdateResult -> nat) (results : list UpdateResult) : nat :=
  fold_left (fun acc r => (acc + f r)%nat) results 0%nat.

Definition generate_summary (now : string) (results : list UpdateResult)
    : summary :=
  let total_updates := sum_over update_count results in
  let hosts_with_updates :=
    sum_over (fun r => if (0 <? update_count r)%nat then 1%nat else 0%nat)
      results in
  {| generated_at := now;
     total_hosts := length results;
     hosts_with_updates := hosts_with_updates;
     total_updates := total_updates;
     hosts :=
       map (fun r => {| entry_host_id := host_id r;
                        entry_profile := profile r;
                        entry_update_count := update_count r |}) results |}.

End Calculator.

(** ** [rpm_utils.py]: [parse_rpm_qa_line] *)

Module RpmQa.
Import Py.

(** [parts[5] if len(parts) > 5 else None] *)
Definition installtime_of (rest : list string) : pyval :=
  match rest with
  | t :: _ => PStr t
  | [] => PNone
  end.

Definition parse_rpm_qa_line (line : string) : option (gmap string pyval) :=
  let parts := Calculator.split "|" (strip line) in
  if (length parts <? 5)%nat then None else
  match parts with
  | name :: epoch :: version :: release :: arch :: rest =>
      let installtime := installtime_of rest in
      let epoch :=
        if bool_decide (epoch = "(none)") || bool_decide (epoch = "")
           || bool_decide (epoch = "None")
        then "0" else epoch in
      Some (<["name" := PStr name]>
            (<["epoch" := PStr epoch]>
             (<["version" := PStr version]>
              (<["release" := PStr release]>
               (<["arch" := PStr arch]>
                (<["installtime" := installtime]> ∅))))))
  | _ => None
  end.

End RpmQa.

(** ** Notions used in the statements and proofs *)

Module Notions.
Import Py RpmUtils.

Definition not_space (c : ascii) : bool := negb (char_isspace c).

(** A separator is a character that is neither a digit nor a letter. *)
Definition is_separator (c : ascii) : bool :=
  negb (char_isdigit c) && negb (char_isalpha c).

(** Something has been collected: a finished segment or a character of the
    segment in progress. *)
Definition live (st : split_state) : Prop :=
  segments st <> [] \/ current st <> "".

(** Every segment is a run of digits or a run of letters. *)
Definition pure (seg : string) : Prop :=
  isdigit seg = true \/ isalpha seg = true.

Definition well_formed (st : split_state) : Prop :=
  Forall pure (segments st)
  /\ (current st = ""
      \/ (current_is_digit st = Some true /\ isdigit (current st) = true)
      \/ (current_is_digit st = Some false /\ isalpha (current st) = true)).

Definition flip (o : step_outcome) : step_outcome :=
  match o with
  | Return r => Return (- r)
  | Continue => Continue
  end.

Fixpoint count (c : ascii) (s : string) : nat :=
  match s with
  | EmptyString => 0
  | String c' s' => (if bool_decide (c' = c) then 1 else 0) + count c s'
  end.

(** How many times the literal [c] stands in a pattern. *)
Fixpoint literals (c : ascii) (items : list item) : nat :=
  match items with
  | [] => 0
  | Lit c' :: rest => (if bool_decide (c' = c) then 1 else 0) + literals c rest
  | Group _ :: rest => literals c rest
  end.

(** [t] does not start with a character of the class. *)
Definition stops (class : ascii -> bool) (t : string) : Prop :=
  match t with
  | EmptyString => True
  | String c _ => class c = false
  end.

(** The character [c] does not occur in [s]. *)
Definition free_of (c : ascii) (s : string) : Prop :=
  all_chars (not_char c) s = true.

(** What follows the name in both patterns with an epoch. *)
Definition after_name : list item :=
  [Lit "-"; Group digit; Lit ":"; Group (not_char "-"); Lit "-";
   Group (not_char "."); Lit "."; Group dot].

(** A [nevra] string after its name. *)
Definition nevra_tail (E V R A : string) : string :=
  String "-" (E +:+ String ":" (V +:+ String "-" (R +:+ String "." A))).

(** A calculator, a host with two packages and a mirror with one channel,
    as in the tests of the repository. *)
Definition sample_calculator : Calculator.UpdateCalculator :=
  Calculator.__init__ "/mirror" "/manifests".

Definition sample_baseos : gmap string (gmap string pyval) :=
  {[ "bash.x86_64" :=
       Calculator.evr_dict (PStr "0") (PStr "5.1.8") (PStr "9.el9");
     "kernel.x86_64" :=
       Calculator.evr_dict (PStr "0") (PStr "5.14.0")
         (PStr "427.13.1.el9_4") ]}.

Definition sample_package (n e v r a : string) : gmap string pyval :=
  <["name" := PStr n]>
    (<["arch" := PStr a]> (Calculator.evr_dict (PStr e) (PStr v) (PStr r))).

Definition sample_kernel : gmap string pyval :=
  sample_package "kernel" "0" "5.14.0" "427.13.1.el9_4" "x86_64".

Definition sample_bash : gmap string pyval :=
  sample_package "bash" "0" "5.1.8" "6.el9" "x86_64".

Definition sample_manifest : gmap string Calculator.jval :=
  {[ "host_id" := Calculator.JScalar (PStr "web01");
     "os_release" :=
       Calculator.JObj {[ "id" := PStr "rhel"; "version" := PStr "9.6" ]};
     "packages" := Calculator.JList [sample_bash; sample_kernel] ]}.

Definition sample_world : Calculator.world :=
  {| Calculator.manifest_files :=
       {[ "/manifests/processed/web01/latest/manifest.json" := sample_manifest ]};
     Calculator.cache_files :=
       {[ "/mirror/rhel9/x86_64/baseos/.package_cache.json" := sample_baseos ]};
     Calculator.heap := [] |}.

Definition empty_world : Calculator.world :=
  {| Calculator.manifest_files := ∅; Calculator.cache_files := ∅;
     Calculator.heap := [] |}.

(** The calculator and the world after one call for the sample host. *)
Definition sample_calculator_after : Calculator.UpdateCalculator :=
  {| Calculator.mirror_dir := "/mirror";
     Calculator.manifests_dir := "/manifests";
     Calculator._repo_cache := {[ "rhel9/x86_64/baseos" := 0%nat ]} |}.

Definition sample_world_after : Calculator.world :=
  {| Calculator.manifest_files := Calculator.manifest_files sample_world;
     Calculator.cache_files := Calculator.cache_files sample_world;
     Calculator.heap := [sample_baseos; ∅] |}.

(** The update of [bash] that the call finds. *)
Definition sample_update : Calculator.PackageUpdate :=
  {| Calculator.name := PStr "bash";
     Calculator.arch := PStr "x86_64";
     Calculator.channel := "baseos";
     Calculator.installed_epoch := "0";
     Calculator.installed_version := PStr "5.1.8";
     Calculator.installed_release := PStr "6.el9";
     Calculator.available_epoch := "0";
     Calculator.available_version := PStr "5.1.8";
     Calculator.available_release := PStr "9.el9" |}.

Definition sample_result : Calculator.UpdateResult :=
  {| Calculator.host_id := "web01";
     Calculator.profile := "rhel9";
     Calculator.os_id := PStr "rhel";
     Calculator.os_version := PStr "9.6";
     Calculator.computed_at := "2024-01-15T10:00:00Z";
     Calculator.updates := [sample_update];
     Calculator.errors := [] |}.

(** A character that is not one of the superscript digits, for which
    [isdigit] holds and [int] raises. *)
Definition plain_char (c : ascii) : bool :=
  negb (char_isdigit c) || is_ascii_digit c.

Definition plain (v : string) : Prop := all_chars plain_char v = true.

(** One of the three results of a comparison. *)
Definition tri_state (c : Z) : Prop := c = -1 \/ c = 0 \/ c = 1.

(** The values that [compare_versions], [format_evr] and [__post_init__]
    read as epoch 0. *)
Definition zero_epoch (s : string) : Prop := s = "(none)" \/ s = "" \/ s = "0".

(** The epoch, version and release of a version, as a record for
    [compare_versions]. *)
Definition evr_record (x : RPMVersion) : gmap string pyval :=
  Calculator.evr_dict (PInt (epoch x)) (PStr (version x)) (PStr (release x)).

(** What follows the name in the pattern without an epoch. *)
Definition after_name_plain : list item :=
  [Lit "-"; Group (not_char "-"); Lit "-"; Group (not_char "."); Lit ".";
   Group dot].

(** An [nvra] string after its name. *)
Definition nvra_tail (V R A : string) : string :=
  String "-" (V +:+ String "-" (R +:+ String "." A)).

(** The fields of a line joined with the delimiter. *)
Fixpoint join (sep : ascii) (fields : list string) : string :=
  match fields with
  | [] => ""
  | [f] => f
  | f :: rest => f +:+ String sep (join sep rest)
  end.

(** The names of the directories of a listing, in its order. *)
Definition directories (entries : list (string * bool)) : list string :=
  map fst (filter (fun e => snd e = true) entries).

Definition chars_ok (p : ascii -> bool) (st : split_state) : Prop :=
  Forall (fun seg => all_chars p seg = true) (segments st)
  /\ all_chars p (current st) = true.

(** A segment of a plain string: a run of ASCII digits or a run of
    letters. *)
Definition plain_segment (seg : string) : Prop :=
  (nonempty seg = true /\ all_chars is_ascii_digit seg = true)
  \/ isalpha seg = true.

(** The state of the split with the finished segments [done] put before
    its own. *)
Definition prepend (done : list string) (st : split_state) : split_state :=
  {| segments := done ++ segments st; current := current st;
     current_is_digit := current_is_digit st |}.

(** What two outcomes of [compare_pair], neither of them [Return 1], give
    for the outer pair. *)
Definition then_outcome (o1 o2 : step_outcome) : step_outcome :=
  match o1 with
  | Continue => o2
  | Return r => Return r
  end.

(** The cache file of a memoization key. *)
Definition repo_file (self : Calculator.UpdateCalculator) (key : string)
    : string :=
  Calculator.mirror_dir self +:+ "/" +:+ key +:+ "/.package_cache.json".

(** Every memoized reference names a dictionary of the heap, and this
    dictionary is the content of the cache file of its key. *)
Definition faithful (self : Calculator.UpdateCalculator)
    (w : Calculator.world) : Prop :=
  forall key l,
    Calculator._repo_cache self !! key = Some l ->
    exists content,
      Calculator.heap w !! l = Some content
      /\ Calculator.cache_files w !! repo_file self key = Some content.

(** Two calculators over the same directories holding the same files. *)
Definition same_storage (self1 : Calculator.UpdateCalculator)
    (w1 : Calculator.world) (self2 : Calculator.UpdateCalculator)
    (w2 : Calculator.world) : Prop :=
  Calculator.mirror_dir self1 = Calculator.mirror_dir self2
  /\ Calculator.manifests_dir self1 = Calculator.manifests_dir self2
  /\ Calculator.manifest_files w1 = Calculator.manifest_files w2
  /\ Calculator.cache_files w1 = Calculator.cache_files w2.

(** The [UpdateResult] of a call, without the state that the call left. *)
Definition result_of
    (o : res (Calculator.UpdateResult * Calculator.UpdateCalculator
              * Calculator.world)) : res Calculator.UpdateResult :=
  (fun x => x.1.1) <$> o.

(** Both EVR strings of an update can be formatted. *)
Definition evr_defined (u : Calculator.PackageUpdate) : Prop :=
  exists s t, Calculator.installed_evr u = Ok s
              /\ Calculator.available_evr u = Ok t.

(** The packages of a manifest, when it lists some. *)
Definition package_count (manifest : gmap string Calculator.jval) : nat :=
  match manifest !! "packages" with
  | Some (Calculator.JList l) => length l
  | _ => 0
  end.

(** An update found in the channel [ch], for a package with a name and an
    arch. *)
Definition from_channel (ch : string) (u : Calculator.PackageUpdate) : Prop :=
  Calculator.channel u = ch
  /\ truthy (Calculator.name u) = true
  /\ truthy (Calculator.arch u) = true.

(** A string that [int] can read when it is a run of digits: it has no
    more characters than [int] accepts digits. *)
Definition short (s : string) : Prop := (strlen s <= int_max_str_digits)%N.

(** No string collected so far has more than [k] characters. *)
Definition within (k : N) (st : split_state) : Prop :=
  Forall (fun seg => (strlen seg <= k)%N) (segments st)
  /\ (strlen (current st) <= k)%N.

(** The dictionary [repo] has the package [available] under the key
    [name.arch] of the installed package [pkg]. *)
Definition available_for (repo : gmap string (gmap string pyval))
    (pkg available : gmap string pyval) : Prop :=
  exists name arch,
    str (Calculator.get_or_none pkg "name") = Ok name
    /\ str (Calculator.get_or_none pkg "arch") = Ok arch
    /\ repo !! (name +:+ "." +:+ arch) = Some available.

(** The update that the loop body builds in the channel [ch] for the
    installed package [pkg] and the available package [available]: it
    carries the name, the arch, the channel and both triples, the epochs as
    [str()] writes them. *)
Definition update_of (ch : string) (pkg available : gmap string pyval)
    (u : Calculator.PackageUpdate) : Prop :=
  Calculator.name u = Calculator.get_or_none pkg "name"
  /\ Calculator.arch u = Calculator.get_or_none pkg "arch"
  /\ Calculator.channel u = ch
  /\ str (get pkg "epoch" (PStr "0")) = Ok (Calculator.installed_epoch u)
  /\ Calculator.installed_version u = get pkg "version" (PStr "0")
  /\ Calculator.installed_release u = get pkg "release" (PStr "0")
  /\ str (get available "epoch" (PStr "0"))
     = Ok (Calculator.available_epoch u)
  /\ Calculator.available_version u = get available "version" (PStr "0")
  /\ Calculator.available_release u = get available "release" (PStr "0").

(** The update [u] stands for a comparison that [compare_versions] decided
    strictly negative: between the triple of a package of [pkgs] and the
    triple of the package that a dictionary loaded in [w] has for it. *)
Definition justified (w : Calculator.world) (pkgs : list (gmap string pyval))
    (u : Calculator.PackageUpdate) : Prop :=
  exists ch pkg l repo available c,
    pkg ∈ pkgs
    /\ Calculator.heap w !! l = Some repo
    /\ available_for repo pkg available
    /\ update_of ch pkg available u
    /\ compare_versions (Calculator.evr_info pkg)
         (Calculator.evr_info available) = Ok c
    /\ c < 0.

(** A field that is absent or a string. *)
Definition text (o : option pyval) : bool :=
  match o with
  | None | Some (PStr _) => true
  | _ => false
  end.

(** A field that is absent, a string or an integer. *)
Definition text_or_int (o : option pyval) : bool :=
  match o with
  | None | Some (PStr _) | Some (PInt _) => true
  | _ => false
  end.

(** A package record whose version and release are strings and whose epoch
    is a string or an integer. *)
Definition typed_package (d : gmap string pyval) : Prop :=
  text_or_int (d !! "epoch") = true
  /\ text (d !! "version") = true
  /\ text (d !! "release") = true.

Definition typed_repo (repo : gmap string (gmap string pyval)) : Prop :=
  map_Forall (fun _ d => typed_package d) repo.

(** Every package of every cache file and of every loaded dictionary is
    typed. *)
Definition typed_world (w : Calculator.world) : Prop :=
  map_Forall (fun _ content => typed_repo content) (Calculator.cache_files w)
  /\ Forall typed_repo (Calculator.heap w).

(** Every package that the manifest lists is typed. *)
Definition typed_manifest (manifest : gmap string Calculator.jval) : Prop :=
  match manifest !! "packages" with
  | Some (Calculator.JList pkgs) => Forall typed_package pkgs
  | _ => True
  end.

(** The number of packages that [installed_packages] lists. *)
Definition listed (installed_packages : Calculator.jval) : nat :=
  match installed_packages with
  | Calculator.JList l => length l
  | _ => 0
  end.

End Notions.

(** * Properties *)

(** ** Facts about the builtins *)

Module PyFacts.
Import Py Notions.

Lemma bind_Ok {A B} (m : res A) (f : A -> res B) b :
  m ≫= f = Ok b -> exists a, m = Ok a /\ f a = Ok b.
Proof. destruct m as [a|e]; [by exists a | done]. Qed.

Lemma alpha_not_digit c : char_isalpha c = true -> char_isdigit c = false.
Proof. destruct c as [[] [] [] [] [] [] [] []]; vm_compute; congruence. Qed.

Lemma ascii_digit_isdigit c : is_ascii_digit c = true -> char_isdigit c = true.
Proof. unfold char_isdigit. intros ->. reflexivity. Qed.

Lemma ascii_digit_not_space c : is_ascii_digit c = true -> char_isspace c = false.
Proof. destruct c as [[] [] [] [] [] [] [] []]; vm_compute; congruence. Qed.

Lemma isalpha_not_isdigit s : isalpha s = true -> isdigit s = false.
Proof.
  unfold isalpha, isdigit. destruct s as [|c s]; simpl; [done|].
  intros H. apply andb_true_iff in H as [H _].
  by rewrite (alpha_not_digit c H).
Qed.

Lemma isdigit_not_isalpha s : isdigit s = true -> isalpha s = false.
Proof.
  intros H. destruct (isalpha s) eqn:E; [|done].
  apply isalpha_not_isdigit in E. congruence.
Qed.

Lemma all_chars_app p s t :
  all_chars p (s +:+ t) = all_chars p s && all_chars p t.
Proof. induction s as [|c s IH]; simpl; [done|]. by rewrite IH, andb_assoc. Qed.

Lemma all_chars_impl (p q : ascii -> bool) s :
  (forall c, p c = true -> q c = true) ->
  all_chars p s = true -> all_chars q s = true.
Proof.
  intros Hpq. induction s as [|c s IH]; simpl; [done|].
  intros H. apply andb_true_iff in H as [Hc Hs].
  by rewrite (Hpq c Hc), IH.
Qed.

Lemma nonempty_app_l s t : nonempty s = true -> nonempty (s +:+ t) = true.
Proof. by destruct s. Qed.

Lemma nonempty_app_r s t : nonempty t = true -> nonempty (s +:+ t) = true.
Proof. destruct s; [done|]. by intros _. Qed.

(** *** Decimal digits *)

Lemma digit_char_ok d :
  (d < 10)%N ->
  is_ascii_digit (digit_char d) = true /\ digit_value (digit_char d) = Z.of_N d.
Proof.
  intros Hd.
  assert (d = 0 \/ d = 1 \/ d = 2 \/ d = 3 \/ d = 4 \/ d = 5 \/ d = 6
          \/ d = 7 \/ d = 8 \/ d = 9)%N as Hcases by lia.
  repeat (destruct Hcases as [-> | Hcases]; [by vm_compute|]).
  subst d. by vm_compute.
Qed.

Lemma digits_of_all fuel n acc :
  all_chars is_ascii_digit acc = true ->
  all_chars is_ascii_digit (digits_of fuel n acc) = true.
Proof.
  revert n acc. induction fuel as [|fuel IH]; intros n acc Hacc; simpl; [done|].
  assert (all_chars is_ascii_digit (String (digit_char (n mod 10)) acc) = true) as H.
  { simpl. rewrite Hacc, andb_true_r.
    apply digit_char_ok. apply N.mod_lt. lia. }
  destruct (n / 10 =? 0)%N; [done|]. by apply IH.
Qed.

Lemma digits_of_nonempty fuel n acc :
  nonempty (digits_of (S fuel) n acc) = true.
Proof.
  revert n acc. induction fuel as [|fuel IH]; intros n acc.
  - simpl. by destruct (n / 10 =? 0)%N.
  - change (digits_of (S (S fuel)) n acc) with
      (let acc' := String (digit_char (n mod 10)) acc in
       if (n / 10 =? 0)%N then acc' else digits_of (S fuel) (n / 10) acc').
    simpl. destruct (n / 10 =? 0)%N; [done|]. apply IH.
Qed.

Lemma log2_div10 n : (n / 10 <> 0 -> N.log2 (n / 10) < N.log2 n)%N.
Proof.
  intros Hq.
  assert (10 <= n)%N as Hn.
  { destruct (N.lt_ge_cases n 10) as [Hlt|]; [|done].
    by rewrite (N.div_small n 10 Hlt) in Hq. }
  assert (n / 10 <= n / 2)%N as Hle by (apply N.div_le_compat_l; lia).
  apply N.log2_le_mono in Hle.
  assert (N.log2 (n / 2) = N.log2 n - 1)%N as Hhalf.
  { change 2%N with (2 ^ 1)%N. rewrite <- N.shiftr_div_pow2.
    apply N.log2_shiftr. }
  assert (1 <= N.log2 n)%N.
  { change 1%N with (N.log2 2). apply N.log2_le_mono. lia. }
  lia.
Qed.

(** Reading back the digits written by [digits_of]. *)
Lemma parse_digits_of fuel n :
  (N.to_nat (N.log2 n) < fuel)%nat ->
  exists k : Z, 0 <= k /\ forall a p acc,
    parse_digits a p (digits_of fuel n acc)
    = parse_digits (a * 10 ^ k + Z.of_N n) true acc.
Proof.
  revert n. induction fuel as [|fuel IH]; intros n Hn; [lia|].
  simpl. destruct (N.eqb_spec (n / 10) 0) as [Hq | Hq].
  - exists 1. split; [lia|]. intros a p acc. simpl.
    destruct (digit_char_ok (n mod 10)) as [-> ->]; [apply N.mod_lt; lia|].
    f_equal. rewrite Z.pow_1_r.
    pose proof (N.div_mod n 10 ltac:(lia)) as Hdm. rewrite Hq in Hdm. lia.
  - destruct (IH (n / 10)%N) as (k & Hk & Hparse).
    { pose proof (log2_div10 n Hq). lia. }
    exists (k + 1). split; [lia|]. intros a p acc.
    rewrite Hparse. simpl.
    destruct (digit_char_ok (n mod 10)) as [-> ->]; [apply N.mod_lt; lia|].
    f_equal. rewrite Z.pow_add_r by lia. rewrite Z.pow_1_r.
    pose proof (N.div_mod n 10 ltac:(lia)) as Hdm.
    rewrite N2Z.inj_div, N2Z.inj_mod. 
    pose proof (Z.div_mod (Z.of_N n) 10 ltac:(lia)). change (Z.of_N 10) with 10. lia.
Qed.

Lemma parse_str_of_N n : parse_digits 0 false (str_of_N n) = Some (Z.of_N n).
Proof.
  unfold str_of_N.
  destruct (parse_digits_of (S (N.to_nat (N.log2 n))) n) as (k & _ & H); [lia|].
  rewrite (H 0 false ""). simpl. f_equal; lia.
Qed.

(** *** [int] after [str] *)

Lemma rstrip_by_id space s :
  all_chars (fun c => negb (space c)) s = true -> rstrip_by space s = s.
Proof.
  induction s as [|c s IH]; simpl; [done|].
  intros H. apply andb_true_iff in H as [Hc Hs]. rewrite (IH Hs).
  destruct s; [|done].
  apply negb_true_iff in Hc. by rewrite Hc.
Qed.

Lemma lstrip_by_id space s :
  all_chars (fun c => negb (space c)) s = true -> lstrip_by space s = s.
Proof.
  destruct s as [|c s]; simpl; [done|].
  intros H. apply andb_true_iff in H as [Hc _].
  apply negb_true_iff in Hc. by rewrite Hc.
Qed.

Lemma strip_id s : all_chars not_space s = true -> strip s = s.
Proof.
  intros H. unfold strip.
  by rewrite (lstrip_by_id char_isspace s H), (rstrip_by_id char_isspace s H).
Qed.

Lemma ascii_digit_not_int_space c :
  is_ascii_digit c = true -> int_isspace c = false.
Proof. destruct c as [[] [] [] [] [] [] [] []]; vm_compute; congruence. Qed.

Lemma digits_not_space s :
  all_chars is_ascii_digit s = true -> all_chars not_space s = true.
Proof.
  apply all_chars_impl. intros c Hc. unfold not_space.
  by rewrite (ascii_digit_not_space c Hc).
Qed.

Lemma digits_not_int_space s :
  all_chars is_ascii_digit s = true ->
  all_chars (fun c => negb (int_isspace c)) s = true.
Proof.
  apply all_chars_impl. intros c Hc.
  by rewrite (ascii_digit_not_int_space c Hc).
Qed.

(** A run of digits has as many digits as characters. *)
Lemma count_digits_all s :
  all_chars is_ascii_digit s = true -> count_digits s = strlen s.
Proof.
  induction s as [|c s IH]; simpl; [done|].
  intros H. apply andb_true_iff in H as [-> Hs]. by rewrite (IH Hs).
Qed.

(** What [int] does with a run of digits: the literal is the whole run. *)
Lemma int_digits_unfold s :
  all_chars is_ascii_digit s = true ->
  int s = match parse_digits 0 false s with
          | Some z => if (strlen s <=? int_max_str_digits)%N then Ok z
                      else Raise ValueError
          | None => Raise ValueError
          end.
Proof.
  intros Hall. unfold int.
  rewrite (lstrip_by_id _ s (digits_not_int_space s Hall)).
  rewrite (rstrip_by_id _ s (digits_not_int_space s Hall)).
  assert (split_sign s = (false, s)) as ->.
  { destruct s as [|c s]; [done|].
    assert (is_ascii_digit c = true) as Hc.
    { simpl in Hall. by apply andb_true_iff in Hall as [? _]. }
    destruct c as [[] [] [] [] [] [] [] []]; try (by vm_compute in Hc); done. }
  by rewrite (count_digits_all s Hall).
Qed.

Lemma int_of_digits s z :
  all_chars is_ascii_digit s = true ->
  parse_digits 0 false s = Some z ->
  (strlen s <= int_max_str_digits)%N ->
  int s = Ok z.
Proof.
  intros Hall Hparse Hlen. rewrite (int_digits_unfold s Hall), Hparse.
  by apply N.leb_le in Hlen as ->.
Qed.

Lemma int_of_minus_digits s z :
  all_chars is_ascii_digit s = true ->
  parse_digits 0 false s = Some z ->
  (strlen s <= int_max_str_digits)%N ->
  int (String "-" s) = Ok (- z).
Proof.
  intros Hall Hparse Hlen. unfold int.
  rewrite lstrip_by_id, rstrip_by_id.
  - simpl. rewrite Hparse, (count_digits_all s Hall).
    by apply N.leb_le in Hlen as ->.
  - simpl. apply (digits_not_int_space s Hall).
  - simpl. apply (digits_not_int_space s Hall).
Qed.

Lemma str_of_N_digits n : all_chars is_ascii_digit (str_of_N n) = true.
Proof. unfold str_of_N. by apply digits_of_all. Qed.

Lemma str_of_N_nonempty n : nonempty (str_of_N n) = true.
Proof. unfold str_of_N. apply digits_of_nonempty. Qed.

(** What [str] wrote for an integer, [int] reads back. *)
Lemma int_str_of_Z z s : str_of_Z z = Ok s -> int s = Ok z.
Proof.
  unfold str_of_Z.
  destruct (N.leb_spec (strlen (str_of_N (Z.to_N (Z.abs z))))
              int_max_str_digits) as [Hlen|]; [|done].
  intros [= <-]. destruct (Z.ltb_spec z 0).
  - rewrite (int_of_minus_digits _ (Z.of_N (Z.to_N (Z.abs z)))).
    + f_equal. lia.
    + apply str_of_N_digits.
    + apply parse_str_of_N.
    + done.
  - rewrite (int_of_digits _ (Z.of_N (Z.to_N (Z.abs z)))).
    + f_equal. lia.
    + apply str_of_N_digits.
    + apply parse_str_of_N.
    + done.
Qed.

(** [int] raises nothing but [ValueError]. *)
Lemma int_cases s : (exists z, int s = Ok z) \/ int s = Raise ValueError.
Proof.
  unfold int. destruct (split_sign _) as [negative digits].
  destruct (parse_digits 0 false digits); [|by right].
  destruct (count_digits digits <=? int_max_str_digits)%N; by eauto.
Qed.

(** [str] raises nothing but [ValueError]. *)
Lemma str_cases v : (exists s, str v = Ok s) \/ str v = Raise ValueError.
Proof.
  destruct v; simpl; eauto. unfold str_of_Z.
  destruct (_ <=? _)%N; eauto.
Qed.

Lemma str_of_Z_nonneg z s :
  0 <= z -> str_of_Z z = Ok s -> s = str_of_N (Z.to_N z).
Proof.
  intros H. unfold str_of_Z. destruct (_ <=? _)%N; [|done].
  intros [= <-]. destruct (Z.ltb_spec z 0); [lia|]. f_equal. f_equal. lia.
Qed.

(** *** [str] after [int] *)

Lemma digit_value_range c : is_ascii_digit c = true -> 0 <= digit_value c <= 9.
Proof.
  unfold is_ascii_digit, between, digit_value. intros H.
  apply andb_true_iff in H as [H1 H2]. apply N.leb_le in H1, H2. lia.
Qed.

(** The value of a literal is below the power of ten of its number of
    digits. *)
Lemma parse_digits_bound s acc prev z :
  0 <= acc -> parse_digits acc prev s = Some z ->
  acc * 10 ^ Z.of_N (count_digits s) <= z
  < (acc + 1) * 10 ^ Z.of_N (count_digits s).
Proof.
  revert acc prev. induction s as [|c s IH]; intros acc prev Hacc; simpl.
  - destruct prev; [|done]. intros [= <-]. lia.
  - destruct (is_ascii_digit c) eqn:Hc.
    + intros H. pose proof (digit_value_range c Hc) as Hd.
      apply IH in H; [|lia].
      rewrite N2Z.inj_succ, Z.pow_succ_r by lia.
      assert (0 < 10 ^ Z.of_N (count_digits s)) as Hp
        by (apply Z.pow_pos_nonneg; lia).
      nia.
    + destruct ((ord c =? 95)%N && prev); [|done]. by apply IH.
Qed.

Lemma int_bound s z :
  int s = Ok z -> Z.abs z < 10 ^ Z.of_N int_max_str_digits.
Proof.
  unfold int. destruct (split_sign _) as [negative digits].
  destruct (parse_digits 0 false digits) as [z0|] eqn:E; [|done].
  destruct (N.leb_spec (count_digits digits) int_max_str_digits) as [Hle|];
    [|done].
  intros [= <-]. apply parse_digits_bound in E; [|lia].
  assert (10 ^ Z.of_N (count_digits digits)
          <= 10 ^ Z.of_N int_max_str_digits) as Hpow
    by (apply Z.pow_le_mono_r; lia).
  destruct negative; lia.
Qed.

Lemma digits_of_length fuel n acc k :
  (n < 10 ^ k)%N -> (1 <= k)%N ->
  (strlen (digits_of fuel n acc) <= strlen acc + k)%N.
Proof.
  revert n acc k. induction fuel as [|fuel IH]; intros n acc k Hn Hk; simpl;
    [lia|].
  destruct (N.eqb_spec (n / 10) 0) as [Hq | Hq]; simpl; [lia|].
  assert (10 <= n)%N as Hten.
  { destruct (N.lt_ge_cases n 10) as [Hlt|]; [|done].
    by rewrite (N.div_small n 10 Hlt) in Hq. }
  assert (k <> 1)%N as Hk1.
  { intros ->. rewrite N.pow_1_r in Hn. lia. }
  assert (n / 10 < 10 ^ (k - 1))%N as Hdiv.
  { apply N.Div0.div_lt_upper_bound.
    rewrite <- N.pow_succ_r'. by replace (N.succ (k - 1)) with k by lia. }
  specialize (IH (n / 10)%N (String (digit_char (n mod 10)) acc) (k - 1)%N
                Hdiv ltac:(lia)).
  simpl in IH. lia.
Qed.

(** An integer below ten to the power [int_max_str_digits] can be
    written. *)
Lemma str_of_Z_bound z :
  Z.abs z < 10 ^ Z.of_N int_max_str_digits -> exists s, str_of_Z z = Ok s.
Proof.
  intros Hz. unfold str_of_Z.
  assert (strlen (str_of_N (Z.to_N (Z.abs z))) <= int_max_str_digits)%N
    as Hlen.
  { unfold str_of_N.
    pose proof (digits_of_length (S (N.to_nat (N.log2 (Z.to_N (Z.abs z)))))
                  (Z.to_N (Z.abs z)) "" int_max_str_digits) as H.
    simpl strlen in H. rewrite N.add_0_l in H. apply H; [|done].
    apply N2Z.inj_lt. rewrite N2Z.inj_pow, Z2N.id by lia. done. }
  apply N.leb_le in Hlen. rewrite Hlen. by eauto.
Qed.

(** What [int] has read, [str] can write. *)
Lemma int_then_str s z : int s = Ok z -> exists t, str_of_Z z = Ok t.
Proof. intros H. apply str_of_Z_bound. by apply (int_bound s). Qed.

End PyFacts.

(** ** Version segments *)

Module SplitFacts.
Import Py RpmUtils Notions PyFacts.

Lemma split_step_separator st c :
  is_separator c = true ->
  split_step st c
  = {| segments := fst (flush_if true st); current := snd (flush_if true st);
       current_is_digit := None |}.
Proof.
  unfold is_separator, split_step. intros H.
  apply andb_true_iff in H as [Hd Ha].
  apply negb_true_iff in Hd, Ha. rewrite Hd, Ha.
  by destruct (flush_if true st).
Qed.

Lemma fold_separators s :
  all_chars is_separator s = true ->
  fold_left split_step (list_ascii_of_string s) split_init = split_init.
Proof.
  induction s as [|c s IH]; simpl; [done|].
  intros H. apply andb_true_iff in H as [Hc Hs].
  rewrite (split_step_separator _ c Hc). simpl. by apply IH.
Qed.

Lemma split_separators s :
  all_chars is_separator s = true -> _split_version_string s = [].
Proof. intros H. unfold _split_version_string. by rewrite fold_separators. Qed.

Lemma app_singleton_not_nil (l : list string) x : l ++ [x] <> [].
Proof. by destruct l. Qed.

Lemma append_char_not_empty s c : s +:+ String c "" <> "".
Proof. by destruct s. Qed.

Lemma flush_if_live cond st :
  live st ->
  fst (flush_if cond st) <> [] \/ snd (flush_if cond st) <> "".
Proof.
  unfold live, flush_if. intros [H | H].
  - destruct (cond && nonempty (current st)); simpl; [|by left].
    left. apply app_singleton_not_nil.
  - destruct (cond && nonempty (current st)); simpl; [|by right].
    left. apply app_singleton_not_nil.
Qed.

Lemma split_step_live st c : live st -> live (split_step st c).
Proof.
  intros H. unfold split_step.
  destruct (char_isdigit c); [|destruct (char_isalpha c)].
  - destruct (flush_if _ st). right. apply append_char_not_empty.
  - destruct (flush_if _ st). right. apply append_char_not_empty.
  - pose proof (flush_if_live true st H) as H'.
    by destruct (flush_if true st).
Qed.

Lemma split_step_alnum_live st c :
  is_separator c = false -> live (split_step st c).
Proof.
  unfold is_separator, split_step. intros H.
  destruct (char_isdigit c); [|destruct (char_isalpha c); [|done]].
  - destruct (flush_if _ st). right. apply append_char_not_empty.
  - destruct (flush_if _ st). right. apply append_char_not_empty.
Qed.

Lemma fold_live l st : live st -> live (fold_left split_step l st).
Proof.
  revert st. induction l as [|c l IH]; intros st H; simpl; [done|].
  apply IH. by apply split_step_live.
Qed.

Lemma fold_alnum_live s st :
  all_chars is_separator s = false ->
  live (fold_left split_step (list_ascii_of_string s) st).
Proof.
  revert st. induction s as [|c s IH]; intros st; simpl; [done|].
  intros H. apply andb_false_iff in H as [Hc | Hs].
  - apply fold_live. by apply split_step_alnum_live.
  - by apply IH.
Qed.

Lemma split_finish_live st : live st -> split_finish st <> [].
Proof.
  unfold live, split_finish. intros [H | H].
  - destruct (nonempty (current st)); [apply app_singleton_not_nil | done].
  - destruct (current st); [done|]. apply app_singleton_not_nil.
Qed.

Lemma split_alnum s :
  all_chars is_separator s = false -> _split_version_string s <> [].
Proof.
  intros H. unfold _split_version_string.
  apply split_finish_live. by apply fold_alnum_live.
Qed.

Lemma isdigit_snoc s c :
  (s = "" \/ isdigit s = true) -> char_isdigit c = true ->
  isdigit (s +:+ String c "") = true.
Proof.
  unfold isdigit. intros Hs Hc.
  rewrite nonempty_app_r by done. rewrite all_chars_app. simpl.
  rewrite Hc. simpl. rewrite andb_true_r.
  destruct Hs as [-> | Hs]; [done|]. by apply andb_true_iff in Hs as [_ ?].
Qed.

Lemma isalpha_snoc s c :
  (s = "" \/ isalpha s = true) -> char_isalpha c = true ->
  isalpha (s +:+ String c "") = true.
Proof.
  unfold isalpha. intros Hs Hc.
  rewrite nonempty_app_r by done. rewrite all_chars_app. simpl.
  rewrite Hc. simpl. rewrite andb_true_r.
  destruct Hs as [-> | Hs]; [done|]. by apply andb_true_iff in Hs as [_ ?].
Qed.

Lemma nonempty_false s : nonempty s = false -> s = "".
Proof. by destruct s. Qed.

Lemma split_step_well_formed st c :
  well_formed st -> well_formed (split_step st c).
Proof.
  intros [Hsegs Hcur]. unfold split_step, flush_if, well_formed.
  assert (current st <> "" -> pure (current st)) as Hpure.
  { intros Hne. destruct Hcur as [? | [[_ ?] | [_ ?]]];
      [done | by left | by right]. }
  assert (nonempty (current st) = true -> Forall pure (segments st ++ [current st]))
    as Hflush.
  { intros Hne. apply Forall_app. split; [done|].
    apply Forall_cons. split; [|done]. apply Hpure. by destruct (current st). }
  destruct (char_isdigit c) eqn:Hd; [|destruct (char_isalpha c) eqn:Ha].
  - destruct (bool_decide (current_is_digit st = Some false)) eqn:Hcid;
      destruct (nonempty (current st)) eqn:Hne; simpl.
    + split; [by apply Hflush|]. right; left. split; [done|].
      apply (isdigit_snoc ""); by auto.
    + split; [done|]. right; left. split; [done|].
      apply isdigit_snoc; [|done]. left. by apply nonempty_false.
    + split; [done|]. right; left. split; [done|].
      apply isdigit_snoc; [|done].
      apply bool_decide_eq_false in Hcid.
      destruct Hcur as [? | [[_ ?] | [? _]]]; [by left | by right | done].
    + split; [done|]. right; left. split; [done|].
      apply isdigit_snoc; [|done]. left. by apply nonempty_false.
  - destruct (bool_decide (current_is_digit st = Some true)) eqn:Hcid;
      destruct (nonempty (current st)) eqn:Hne; simpl.
    + split; [by apply Hflush|]. right; right. split; [done|].
      apply (isalpha_snoc ""); by auto.
    + split; [done|]. right; right. split; [done|].
      apply isalpha_snoc; [|done]. left. by apply nonempty_false.
    + split; [done|]. right; right. split; [done|].
      apply isalpha_snoc; [|done].
      apply bool_decide_eq_false in Hcid.
      destruct Hcur as [? | [[? _] | [_ ?]]]; [by left | done | by right].
    + split; [done|]. right; right. split; [done|].
      apply isalpha_snoc; [|done]. left. by apply nonempty_false.
  - destruct (nonempty (current st)) eqn:Hne; simpl.
    + split; [by apply Hflush | by left].
    + split; [done | left; by apply nonempty_false].
Qed.

Lemma fold_well_formed l st :
  well_formed st -> well_formed (fold_left split_step l st).
Proof.
  revert st. induction l as [|c l IH]; intros st H; simpl; [done|].
  apply IH. by apply split_step_well_formed.
Qed.

Lemma split_pure v : Forall pure (_split_version_string v).
Proof.
  unfold _split_version_string, split_finish.
  destruct (fold_well_formed (list_ascii_of_string v) split_init) as [Hsegs Hcur].
  { split; [by constructor | by left]. }
  destruct (nonempty (current _)) eqn:Hne; [|done].
  apply Forall_app. split; [done|]. apply Forall_cons. split; [|done].
  destruct Hcur as [Hcur | [[_ ?] | [_ ?]]]; [|by left | by right].
  rewrite Hcur in Hne. done.
Qed.

End SplitFacts.

(** ** The version comparator *)

Module CompareFacts.
Import Py RpmUtils Notions PyFacts SplitFacts.

Lemma walk_nil_l l : walk [] l = Ok Continue.
Proof. done. Qed.

(** After a prefix of pairs that all compared equal, the walk goes on with
    what follows. *)
Lemma walk_app pre1 pre2 l1 l2 :
  length pre1 = length pre2 ->
  walk pre1 pre2 = Ok Continue ->
  walk (pre1 ++ l1) (pre2 ++ l2) = walk l1 l2.
Proof.
  revert pre2. induction pre1 as [|a pre1 IH]; intros [|b pre2] Hlen Hwalk;
    simpl in *; try done.
  destruct (compare_pair a b) as [[r|]|e]; simpl in *; try done.
  apply IH; [lia | done].
Qed.

Lemma compare_pair_digit_alpha s1 s2 :
  isdigit s1 = true -> isalpha s2 = true -> compare_pair s1 s2 = Ok (Return 1).
Proof.
  intros H1 H2. unfold compare_pair.
  by rewrite H1, (isalpha_not_isdigit s2 H2), (isdigit_not_isalpha s1 H1).
Qed.

Lemma compare_pair_alpha_digit s1 s2 :
  isalpha s1 = true -> isdigit s2 = true -> compare_pair s1 s2 = Ok (Return (-1)).
Proof.
  intros H1 H2. unfold compare_pair.
  rewrite (isalpha_not_isdigit s1 H1), (isdigit_not_isalpha s2 H2). simpl.
  by rewrite andb_false_r.
Qed.

(** C2. When the pairwise walk of [_compare_version_strings] reaches a
    position where one segment is numeric and the other alphabetic, the
    string with the numeric segment is the greater, whatever the values and
    the position; and ["1.a"] is less than ["1.1"]. *)
Theorem numeric_segment_outranks_alphabetic :
  (forall v1 v2 pre1 pre2 s1 s2 rest1 rest2,
      _split_version_string v1 = pre1 ++ s1 :: rest1 ->
      _split_version_string v2 = pre2 ++ s2 :: rest2 ->
      length pre1 = length pre2 ->
      walk pre1 pre2 = Ok Continue ->
      (isdigit s1 = true -> isalpha s2 = true ->
       _compare_version_strings v1 v2 = Ok 1)
      /\ (isalpha s1 = true -> isdigit s2 = true ->
          _compare_version_strings v1 v2 = Ok (-1)))
  /\ _compare_version_strings "1.a" "1.1" = Ok (-1).
Proof.
  split; [|by vm_compute].
  intros v1 v2 pre1 pre2 s1 s2 rest1 rest2 E1 E2 Hlen Hwalk.
  unfold _compare_version_strings, compare_segments. rewrite E1, E2.
  rewrite (walk_app _ _ _ _ Hlen Hwalk). simpl.
  split; intros H1 H2.
  - by rewrite (compare_pair_digit_alpha s1 s2 H1 H2).
  - by rewrite (compare_pair_alpha_digit s1 s2 H1 H2).
Qed.

Lemma numeric_segment_outranks_alphabetic_witness :
  _compare_version_strings "7.10.rc" "7.10.2" = Ok (-1)
  /\ _compare_version_strings "7.10.2" "7.10.rc" = Ok 1.
Proof.
  destruct numeric_segment_outranks_alphabetic as [H _].
  split.
  - apply (H "7.10.rc" "7.10.2" ["7"; "10"] ["7"; "10"] "rc" "2" [] []);
      reflexivity.
  - apply (H "7.10.2" "7.10.rc" ["7"; "10"] ["7"; "10"] "2" "rc" [] []);
      reflexivity.
Defined.

(** C10. A string made of separators only has no segment; it compares
    equal to every other such string and less than every string with a
    digit or a letter. *)
Theorem separator_only_version s :
  all_chars is_separator s = true ->
  _split_version_string s = []
  /\ (forall t, all_chars is_separator t = true ->
        _compare_version_strings s t = Ok 0)
  /\ (forall u, all_chars is_separator u = false ->
        _compare_version_strings s u = Ok (-1)).
Proof.
  intros Hs. pose proof (split_separators s Hs) as Es.
  split; [done|]. unfold _compare_version_strings. rewrite Es. split.
  - intros t Ht. by rewrite (split_separators t Ht).
  - intros u Hu. pose proof (split_alnum u Hu) as Hne.
    unfold compare_segments. rewrite walk_nil_l. simpl.
    by destruct (_split_version_string u).
Qed.

Lemma separator_only_version_witness :
  _split_version_string ".-_" = []
  /\ (forall t, all_chars is_separator t = true ->
        _compare_version_strings ".-_" t = Ok 0)
  /\ (forall u, all_chars is_separator u = false ->
        _compare_version_strings ".-_" u = Ok (-1)).
Proof. apply (separator_only_version ".-_"). reflexivity. Defined.

(** *** Antisymmetry *)

Lemma ltb_antisym_cases (s1 s2 : string) :
  (String.ltb s1 s2 = true /\ String.ltb s2 s1 = false)
  \/ (String.ltb s1 s2 = false /\ String.ltb s2 s1 = true)
  \/ (String.ltb s1 s2 = false /\ String.ltb s2 s1 = false).
Proof.
  unfold String.ltb. rewrite (String.compare_antisym s1 s2).
  destruct (String.compare s2 s1); simpl; auto.
Qed.

Lemma compare_pair_antisym s1 s2 :
  pure s1 -> pure s2 ->
  compare_pair s2 s1 = flip <$> compare_pair s1 s2.
Proof.
  intros [D1 | A1] [D2 | A2].
  - unfold compare_pair. rewrite D1, D2. simpl.
    destruct (int_cases s1) as [[n1 ->] | ->],
      (int_cases s2) as [[n2 ->] | ->]; simpl; try done.
    destruct (Z.ltb_spec n1 n2), (Z.ltb_spec n2 n1); try lia; simpl.
    + by destruct (Z.gtb_spec n2 n1); [|lia].
    + by destruct (Z.gtb_spec n1 n2); [|lia].
    + destruct (Z.gtb_spec n1 n2), (Z.gtb_spec n2 n1); try lia. done.
  - by rewrite (compare_pair_digit_alpha s1 s2 D1 A2),
      (compare_pair_alpha_digit s2 s1 A2 D1).
  - by rewrite (compare_pair_alpha_digit s1 s2 A1 D2),
      (compare_pair_digit_alpha s2 s1 D2 A1).
  - unfold compare_pair.
    rewrite (isalpha_not_isdigit s1 A1), (isalpha_not_isdigit s2 A2), A1, A2.
    simpl.
    destruct (ltb_antisym_cases s1 s2) as [[-> ->] | [[-> ->] | [-> ->]]]; done.
Qed.

Lemma walk_antisym l1 l2 :
  Forall pure l1 -> Forall pure l2 ->
  walk l2 l1 = flip <$> walk l1 l2.
Proof.
  intros H1. revert l2. induction H1 as [|a l1 Ha H1 IH]; intros l2 H2.
  - by destruct l2.
  - destruct H2 as [|b l2 Hb H2]; [done|]. simpl.
    rewrite (compare_pair_antisym a b Ha Hb).
    destruct (compare_pair a b) as [[r|]|e]; simpl; try done.
    by apply IH.
Qed.

Lemma compare_segments_antisym l1 l2 :
  Forall pure l1 -> Forall pure l2 ->
  compare_segments l2 l1 = Z.opp <$> compare_segments l1 l2.
Proof.
  intros H1 H2. unfold compare_segments.
  rewrite (walk_antisym l1 l2 H1 H2).
  destruct (walk l1 l2) as [[r|]|e]; simpl; try done.
  destruct (Nat.ltb_spec (length l1) (length l2)),
    (Nat.ltb_spec (length l2) (length l1)); try lia; done.
Qed.

Lemma compare_version_strings_antisym v1 v2 :
  _compare_version_strings v2 v1 = Z.opp <$> _compare_version_strings v1 v2.
Proof. apply compare_segments_antisym; apply split_pure. Qed.

Lemma compare_pyval_antisym (x y : pyval) :
  (v1 ← as_str y; v2 ← as_str x; _compare_version_strings v1 v2)
  = Z.opp <$> (v1 ← as_str x; v2 ← as_str y; _compare_version_strings v1 v2).
Proof.
  destruct x, y; try done.
  apply compare_version_strings_antisym.
Qed.

Lemma number_lt_asym x y : number_lt x y && number_lt y x = false.
Proof.
  destruct x as [|[]|m1 e1], y as [|[]|m2 e2]; try done. simpl.
  rewrite (Z.min_comm e2 e1).
  destruct (Z.ltb_spec (m1 * 2 ^ (e1 - Z.min e1 e2))
              (m2 * 2 ^ (e2 - Z.min e1 e2))),
    (Z.ltb_spec (m2 * 2 ^ (e2 - Z.min e1 e2))
       (m1 * 2 ^ (e1 - Z.min e1 e2))); try done; lia.
Qed.

(** [x < y] and [y < x] raise together, and are not both true. *)
Lemma lt_swap (x y : pyval) :
  (lt x y = Raise TypeError /\ lt y x = Raise TypeError)
  \/ (exists b c, lt x y = Ok b /\ lt y x = Ok c /\ b && c = false).
Proof.
  assert (forall m n, (m <? n) && (n <? m) = false) as Hint.
  { intros m n. destruct (Z.ltb_spec m n), (Z.ltb_spec n m); try done; lia. }
  assert (forall a b, exists p q,
             Ok (number_lt a b) = Ok p /\ Ok (number_lt b a) = Ok q
             /\ p && q = false) as Hnum.
  { intros a b. eexists _, _. split; [done|]. split; [done|].
    apply number_lt_asym. }
  destruct x as [|b1|z1|f1|s1], y as [|b2|z2|f2|s2]; cbn [lt number_of];
    try (by left); right; try apply Hnum.
  - eexists _, _. split; [done|]. split; [done|]. apply Hint.
  - eexists _, _. split; [done|]. split; [done|].
    destruct (ltb_antisym_cases s1 s2) as [[-> ->] | [[-> ->] | [-> ->]]]; done.
Qed.

Lemma epoch_of_str_cases s :
  (exists z, epoch_of_str s = Ok z) \/ epoch_of_str s = Raise ValueError.
Proof.
  unfold epoch_of_str. destruct (_ || _); [by eauto | apply int_cases].
Qed.

Lemma normalize_epoch_cases e :
  (exists v, normalize_epoch e = Ok v)
  \/ normalize_epoch e = Raise ValueError.
Proof.
  destruct e as [|b|z|f|s]; simpl; try (by eauto).
  destruct (epoch_of_str_cases s) as [[z ->] | ->]; simpl; by eauto.
Qed.

(** C5. [compare_versions] is antisymmetric: exchanging the two records
    negates the result, and raises when the other order raises. *)
Theorem compare_versions_antisym (a b : gmap string pyval) :
  compare_versions b a = Z.opp <$> compare_versions a b.
Proof.
  unfold compare_versions.
  destruct (normalize_epoch_cases (get a "epoch" (PInt 0))) as [[x ->] | ->];
    destruct (normalize_epoch_cases (get b "epoch" (PInt 0)))
      as [[y ->] | ->]; simpl; try done.
  unfold gt.
  destruct (lt_swap x y) as [[-> ->] | (p & q & -> & -> & Hpq)]; simpl;
    [done|].
  destruct p, q; simpl; try done.
  rewrite (compare_pyval_antisym (get a "version" (PStr "0"))
             (get b "version" (PStr "0"))).
  destruct (v1 ← as_str (get a "version" (PStr "0")); _) as [c|e]; simpl;
    [|done].
  destruct (Z.eqb_spec c 0) as [-> | Hc]; simpl.
  - apply compare_pyval_antisym.
  - destruct (Z.eqb_spec (- c) 0); [lia | done].
Qed.

End CompareFacts.

(** ** The package version model *)

Module VersionFacts.
Import Py RpmUtils PyFacts.

Lemma lt_different_packages a b :
  name a <> name b \/ arch a <> arch b -> __lt__ a b = Ok NotImplemented.
Proof.
  intros H. unfold __lt__.
  destruct (decide (name a = name b)) as [En | Nn].
  - destruct H as [H | H]; [done|].
    rewrite (bool_decide_eq_true_2 _ En), (bool_decide_eq_false_2 _ H). done.
  - by rewrite (bool_decide_eq_false_2 _ Nn).
Qed.

(** C7. Ordering two versions whose name or arch differ gives no boolean:
    [__lt__] answers [NotImplemented], and the expression [a < b] raises
    [TypeError]. *)
Theorem lt_rejects_different_packages a b :
  name a <> name b \/ arch a <> arch b ->
  __lt__ a b = Ok NotImplemented
  /\ lt_op a b = Raise TypeError
  /\ forall x : bool, lt_op a b <> Ok x.
Proof.
  intros H.
  assert (name b <> name a \/ arch b <> arch a) as H'
    by (destruct H; [left | right]; congruence).
  assert (lt_op a b = Raise TypeError) as E.
  { unfold lt_op, __gt__.
    by rewrite (lt_different_packages a b H), (lt_different_packages b a H'). }
  split; [by apply lt_different_packages|]. split; [done|].
  intros x. by rewrite E.
Qed.

Lemma lt_rejects_different_packages_witness :
  let a := {| name := "bash"; epoch := 0; version := "5.1.8";
              release := "6.el9"; arch := "x86_64" |} in
  let b := {| name := "zsh"; epoch := 0; version := "5.8";
              release := "9.el9"; arch := "x86_64" |} in
  __lt__ a b = Ok NotImplemented
  /\ lt_op a b = Raise TypeError
  /\ forall x : bool, lt_op a b <> Ok x.
Proof.
  intros a b. apply (lt_rejects_different_packages a b).
  left. vm_compute. discriminate.
Defined.

(** *** [evr] and [format_evr] *)

(** C4. The [evr] property of [RPMVersion] writes the epoch and the colon
    also when the epoch is 0, where the claim has [version-release] alone;
    [format_evr], given the same epoch, version and release, writes
    [version-release]. *)
Theorem evr_keeps_zero_epoch :
  let x := {| name := "bash"; epoch := 0; version := "5.1.8";
              release := "6.el9"; arch := "x86_64" |} in
  evr x = Ok "0:5.1.8-6.el9"
  /\ evr x <> Ok (version x +:+ "-" +:+ release x)
  /\ format_evr (PInt (epoch x)) (PStr (version x)) (PStr (release x))
     = Ok "5.1.8-6.el9".
Proof. vm_compute. repeat split; discriminate. Qed.

(** X26. [format_evr] writes the epoch and a colon before [version-release]
    when the normalised epoch is positive and [version-release] alone
    otherwise; on a positive epoch the [evr] property is the same text. *)
Theorem format_evr_formats :
  (forall (e version release : pyval) (n : Z) (v r : string),
      normalize_epoch e = Ok (PInt n) ->
      str version = Ok v -> str release = Ok r ->
      (0 < n -> forall s, str_of_Z n = Ok s ->
       format_evr e version release
       = Ok (s +:+ ":" +:+ v +:+ "-" +:+ r))
      /\ (n <= 0 -> format_evr e version release = Ok (v +:+ "-" +:+ r)))
  /\ (forall x : RPMVersion,
        0 < epoch x ->
        evr x = format_evr (PInt (epoch x)) (PStr (version x))
                  (PStr (release x))).
Proof.
  split.
  - intros e version release n v r Hn Hv Hr. unfold format_evr.
    rewrite Hn. simpl. split.
    + intros H s Hs. destruct (Z.ltb_spec 0 n); [|lia].
      by rewrite Hs, Hv, Hr.
    + intros H. destruct (Z.ltb_spec 0 n); [lia|]. by rewrite Hv, Hr.
  - intros x H. unfold evr, format_evr. simpl.
    by destruct (Z.ltb_spec 0 (epoch x)); [|lia].
Qed.

Lemma format_evr_formats_witness :
  format_evr (PStr "2") (PStr "3.0.7") (PStr "24.el9") = Ok "2:3.0.7-24.el9"
  /\ format_evr (PStr "(none)") (PStr "1.0") (PStr "1") = Ok "1.0-1"
  /\ evr {| name := "openssl"; epoch := 1; version := "3.0.7";
            release := "24.el9"; arch := "x86_64" |}
     = format_evr (PInt 1) (PStr "3.0.7") (PStr "24.el9").
Proof.
  destruct format_evr_formats as [H H']. split; [|split].
  - destruct (H (PStr "2") (PStr "3.0.7") (PStr "24.el9") 2 "3.0.7" "24.el9")
      as [Hpos _]; [reflexivity | reflexivity | reflexivity |].
    apply (Hpos ltac:(lia) "2"). reflexivity.
  - destruct (H (PStr "(none)") (PStr "1.0") (PStr "1") 0 "1.0" "1")
      as [_ Hzero]; [reflexivity | reflexivity | reflexivity |].
    apply Hzero. lia.
  - apply (H' {| name := "openssl"; epoch := 1; version := "3.0.7";
                 release := "24.el9"; arch := "x86_64" |}). simpl. lia.
Defined.

End VersionFacts.

(** ** The matcher of [parse_nevra] *)

Module RegexFacts.
Import Py RpmUtils Notions PyFacts.

Lemma app_nil_l s : "" +:+ s = s.
Proof. done. Qed.

Lemma app_cons c s t : String c s +:+ t = String c (s +:+ t).
Proof. done. Qed.

Lemma app_nil_r s : s +:+ "" = s.
Proof. induction s as [|c s IH]; [done|]. by rewrite app_cons, IH. Qed.

Lemma app_assoc s t u : (s +:+ t) +:+ u = s +:+ (t +:+ u).
Proof. induction s as [|c s IH]; [done|]. by rewrite !app_cons, IH. Qed.

Lemma app_snoc cap c v : (cap +:+ String c "") +:+ v = cap +:+ String c v.
Proof. by rewrite app_assoc. Qed.

Lemma count_app c s t : count c (s +:+ t) = (count c s + count c t)%nat.
Proof.
  induction s as [|c' s IH]; [done|].
  rewrite app_cons. simpl. rewrite IH. lia.
Qed.

Lemma count_none (class : ascii -> bool) c s :
  class c = false -> all_chars class s = true -> count c s = 0%nat.
Proof.
  intros Hc. induction s as [|c' s IH]; simpl; [done|].
  intros H. apply andb_true_iff in H as [Hc' Hs]. rewrite (IH Hs).
  destruct (bool_decide_reflect (c' = c)) as [-> | _]; [congruence | done].
Qed.

(** What a group followed by [k] returns comes from [k], called on some
    split of the input. *)
Lemma greedy_some {R} class (k : string -> string -> option R) cap s r :
  greedy class k cap s = Some r ->
  exists v t, s = v +:+ t /\ k (cap +:+ v) t = Some r.
Proof.
  revert cap. induction s as [|c s IH]; intros cap H; simpl in H.
  - exists "", "". rewrite !app_nil_r. split; [done|].
    by destruct (nonempty cap).
  - assert ((if nonempty cap then k cap (String c s) else None) = Some r ->
            exists v t, String c s = v +:+ t /\ k (cap +:+ v) t = Some r) as Hhere.
    { intros Hk. exists "", (String c s). rewrite !app_nil_r. split; [done|].
      by destruct (nonempty cap). }
    destruct (class c); [|by apply Hhere].
    destruct (greedy class k (cap +:+ String c "") s) as [r'|] eqn:E;
      [|by apply Hhere].
    injection H as ->.
    destruct (IH _ E) as (v & t & -> & Hk).
    exists (String c v), t. rewrite app_cons. split; [done|].
    by rewrite app_snoc in Hk.
Qed.

(** A group fails when [k] fails on every split it can reach. *)
Lemma greedy_none {R} class (k : string -> string -> option R) cap s :
  (forall v t, s = v +:+ t -> all_chars class v = true ->
               k (cap +:+ v) t = None) ->
  greedy class k cap s = None.
Proof.
  revert cap. induction s as [|c s IH]; intros cap H; simpl.
  - destruct (nonempty cap); [|done].
    rewrite <- (app_nil_r cap) at 1. by apply H.
  - assert ((if nonempty cap then k cap (String c s) else None) = None) as Hhere.
    { destruct (nonempty cap); [|done].
      rewrite <- (app_nil_r cap) at 1. by apply H. }
    destruct (class c) eqn:Hc; [|done].
    rewrite IH; [done|].
    intros v t -> Hv. rewrite app_snoc. apply H; [done|].
    simpl. by rewrite Hc, Hv.
Qed.

(** A group takes [u] when [k] accepts what follows [u] and rejects what
    follows every longer repetition. *)
Lemma greedy_longest {R} class (k : string -> string -> option R) cap u t r :
  all_chars class u = true ->
  nonempty (cap +:+ u) = true ->
  k (cap +:+ u) t = Some r ->
  (forall v t', v <> "" -> t = v +:+ t' -> all_chars class v = true ->
                k (cap +:+ u +:+ v) t' = None) ->
  greedy class k cap (u +:+ t) = Some r.
Proof.
  revert cap. induction u as [|c u IH]; intros cap Hu Hne Hk Hlonger.
  - rewrite app_nil_l. rewrite app_nil_r in Hne, Hk.
    destruct t as [|c t]; simpl; [by rewrite Hne|].
    rewrite Hne. destruct (class c) eqn:Hc; [|done].
    rewrite greedy_none; [done|].
    intros v t' -> Hv. rewrite app_snoc.
    apply (Hlonger (String c v) t'); [done | done |]. simpl. by rewrite Hc, Hv.
  - rewrite app_cons. simpl in Hu. apply andb_true_iff in Hu as [Hc Hu].
    simpl. rewrite Hc.
    rewrite (IH (cap +:+ String c "")); [done | done | | |].
    + by rewrite app_snoc.
    + by rewrite app_snoc.
    + intros v t' Hv Ht Hall. rewrite app_snoc.
      rewrite <- app_cons. by apply Hlonger.
Qed.

Lemma match_group class rest u t caps :
  all_chars class u = true -> nonempty u = true -> stops class t ->
  match_items rest t = Some caps ->
  match_items (Group class :: rest) (u +:+ t) = Some (u :: caps).
Proof.
  intros Hu Hne Hstop Hrest. simpl.
  apply greedy_longest; [done | done | by rewrite app_nil_l, Hrest |].
  intros v t' Hv -> Hall. destruct v as [|c v]; [done|].
  rewrite app_cons in Hstop. simpl in Hstop, Hall. by rewrite Hstop in Hall.
Qed.

Lemma match_lit c rest t :
  match_items (Lit c :: rest) (String c t) = match_items rest t.
Proof. simpl. by rewrite bool_decide_eq_true_2. Qed.

(** A string that matches holds every literal of the pattern. *)
Lemma match_count c items s caps :
  match_items items s = Some caps -> (literals c items <= count c s)%nat.
Proof.
  revert s caps. induction items as [|[c'|class] rest IH]; intros s caps H;
    simpl in *.
  - lia.
  - destruct s as [|c0 s]; [done|].
    destruct (bool_decide_reflect (c0 = c')) as [-> | _]; [|done].
    simpl. apply IH in H. lia.
  - apply greedy_some in H as (v & t & -> & H).
    destruct (match_items rest t) as [caps'|] eqn:E; [|done].
    apply IH in E. rewrite count_app. lia.
Qed.

End RegexFacts.

(** ** [parse_nevra] after [nevra] *)

Module NevraFacts.
Import Py RpmUtils Notions PyFacts RegexFacts.

Lemma free_of_count c s : free_of c s -> count c s = 0%nat.
Proof.
  apply count_none. unfold not_char. by rewrite bool_decide_eq_true_2.
Qed.

Lemma count_cons_eq c s : count c (String c s) = S (count c s).
Proof. simpl. by rewrite bool_decide_eq_true_2. Qed.

Lemma count_cons_ne c c' s : c' <> c -> count c (String c' s) = count c s.
Proof. intros H. simpl. by rewrite bool_decide_eq_false_2. Qed.

Section RoundTrip.
Variables (N V R A E : string) (e : Z).
Hypothesis name_nonempty : nonempty N = true.
Hypothesis name_one_line : free_of newline N.
Hypothesis epoch_nonneg : 0 <= e.
Hypothesis epoch_text : str_of_Z e = Ok E.
Hypothesis version_nonempty : nonempty V = true.
Hypothesis version_no_hyphen : free_of "-" V.
Hypothesis release_nonempty : nonempty R = true.
Hypothesis release_no_hyphen : free_of "-" R.
Hypothesis release_no_dot : free_of "." R.
Hypothesis arch_nonempty : nonempty A = true.
Hypothesis arch_no_hyphen : free_of "-" A.
Hypothesis arch_one_line : free_of newline A.

Lemma epoch_digits : all_chars digit E = true /\ nonempty E = true.
Proof.
  rewrite (str_of_Z_nonneg e E epoch_nonneg epoch_text).
  split; [apply str_of_N_digits | apply str_of_N_nonempty].
Qed.

Lemma tail_matches :
  match_items after_name (nevra_tail E V R A) = Some [E; V; R; A].
Proof.
  destruct epoch_digits as [Hd Hne].
  unfold after_name, nevra_tail. rewrite match_lit.
  apply match_group; [done | done | by vm_compute |].
  rewrite match_lit.
  apply match_group; [done | done | by vm_compute |].
  rewrite match_lit.
  apply match_group; [done | done | by vm_compute |].
  rewrite match_lit. rewrite <- (app_nil_r A) at 1.
  apply match_group; done.
Qed.

Lemma tail_hyphens : count "-" (nevra_tail E V R A) = 2%nat.
Proof.
  destruct epoch_digits as [Hd _]. unfold nevra_tail.
  rewrite count_cons_eq, count_app, (count_cons_ne "-" ":") by done.
  rewrite count_app, count_cons_eq, count_app, (count_cons_ne "-" ".") by done.
  rewrite (count_none digit "-" E) by done.
  by rewrite !free_of_count.
Qed.

(** No longer name leaves a string that the rest of the pattern matches. *)
Lemma longer_name_fails v t' :
  v <> "" -> nevra_tail E V R A = v +:+ t' ->
  match_items after_name t' = None.
Proof.
  intros Hv Ht. destruct (match_items after_name t') as [caps|] eqn:Hm; [|done].
  apply (match_count "-") in Hm.
  change (literals "-" after_name) with 2%nat in Hm.
  pose proof tail_hyphens as Hc. rewrite Ht, count_app in Hc.
  destruct v as [|c v]; [done|].
  unfold nevra_tail in Ht. rewrite app_cons in Ht. injection Ht as <- _.
  rewrite count_cons_eq in Hc. lia.
Qed.

Lemma nevra_matches :
  match_items pattern_with_epoch (N +:+ nevra_tail E V R A)
  = Some [N; E; V; R; A].
Proof.
  change (match_items pattern_with_epoch ?s) with
    (greedy dot (fun cap s' => cons cap <$> match_items after_name s') "" s).
  apply greedy_longest.
  - exact name_one_line.
  - by rewrite app_nil_l.
  - by rewrite app_nil_l, tail_matches.
  - intros v t' Hv Ht _. by rewrite (longer_name_fails v t' Hv Ht).
Qed.

Lemma parse_nevra_of_nevra :
  parse_nevra (N +:+ "-" +:+ E +:+ ":" +:+ V +:+ "-" +:+ R +:+ "." +:+ A)
  = Ok (Some {| name := N; epoch := e; version := V; release := R;
                arch := A |}).
Proof.
  change (N +:+ "-" +:+ E +:+ ":" +:+ V +:+ "-" +:+ R +:+ "." +:+ A)
    with (N +:+ nevra_tail E V R A).
  unfold parse_nevra. rewrite nevra_matches.
  by rewrite (int_str_of_Z e E epoch_text).
Qed.

End RoundTrip.

(** C3. The release of an ordinary package has a dot; the pattern stops
    the release at its first dot and gives the remainder to the arch, so the
    [nevra] string of such a version does not come back as the version. *)
Theorem parse_nevra_dot_in_release :
  let x := {| name := "openssl"; epoch := 1; version := "3.0.7";
              release := "24.el9"; arch := "x86_64" |} in
  nevra x = Ok "openssl-1:3.0.7-24.el9.x86_64"
  /\ parse_nevra "openssl-1:3.0.7-24.el9.x86_64"
     = Ok (Some {| name := "openssl"; epoch := 1; version := "3.0.7";
                   release := "24"; arch := "el9.x86_64" |})
  /\ parse_nevra "openssl-1:3.0.7-24.el9.x86_64" <> Ok (Some x).
Proof. vm_compute. repeat split; discriminate. Qed.

(** X27. Where the text is not ambiguous and the release has no dot,
    [parse_nevra] gives back a version from its [nevra] string: the name
    and the arch are not empty and have no line break, the epoch is not
    negative and can be written, the version, the release and the arch are
    not empty and have no hyphen. *)
Theorem parse_nevra_round_trip (x : RPMVersion) (s : string) :
  nevra x = Ok s ->
  nonempty (name x) = true -> free_of newline (name x) ->
  0 <= epoch x ->
  nonempty (version x) = true -> free_of "-" (version x) ->
  nonempty (release x) = true -> free_of "-" (release x) ->
  free_of "." (release x) ->
  nonempty (arch x) = true -> free_of "-" (arch x) ->
  free_of newline (arch x) ->
  parse_nevra s = Ok (Some x).
Proof.
  destruct x as [N e V R A]. unfold nevra. simpl. intros Hs.
  apply bind_Ok in Hs as (E & HE & [= <-]). intros.
  by apply (parse_nevra_of_nevra N V R A E e).
Qed.

Lemma parse_nevra_round_trip_witness :
  let x := {| name := "python3-rpm"; epoch := 1; version := "4.16.1.3";
              release := "27"; arch := "x86_64" |} in
  parse_nevra "python3-rpm-1:4.16.1.3-27.x86_64" = Ok (Some x).
Proof.
  intros x.
  apply (parse_nevra_round_trip x "python3-rpm-1:4.16.1.3-27.x86_64");
    try reflexivity.
  vm_compute. discriminate.
Defined.

(** A hyphen in the version does not come back: the text of such a version
    is also the text of another one. *)
Lemma parse_nevra_hyphen_in_version :
  let x := {| name := "a"; epoch := 0; version := "1-2"; release := "3";
              arch := "x" |} in
  nevra x = Ok "a-0:1-2-3.x"
  /\ parse_nevra "a-0:1-2-3.x"
     = Ok (Some {| name := "a"; epoch := 0; version := "1"; release := "2-3";
                   arch := "x" |}).
Proof. by vm_compute. Qed.

End NevraFacts.

(** ** The update calculator *)

Module CalculatorFacts.
Import Py Notions Calculator PyFacts.

(** *** Profile resolution *)

Lemma split_head sep major rest :
  all_chars (RpmUtils.not_char sep) major = true ->
  rest = "" \/ (exists r, rest = String sep r) ->
  head (split sep (major +:+ rest)) = Some major.
Proof.
  intros Hmajor Hrest. induction major as [|c major IH].
  - destruct Hrest as [-> | [r ->]]; [done|].
    change ("" +:+ String sep r) with (String sep r). simpl.
    by rewrite bool_decide_eq_true_2.
  - simpl in Hmajor. apply andb_true_iff in Hmajor as [Hc Hmajor].
    specialize (IH Hmajor).
    change (String c major +:+ rest) with (String c (major +:+ rest)).
    simpl. unfold RpmUtils.not_char in Hc. apply negb_true_iff in Hc.
    rewrite Hc. destruct (split sep (major +:+ rest)) as [|h t]; [done|].
    simpl in *. congruence.
Qed.

(** C9. The profile is ["rhel"] followed by what stands before the first
    dot of [os_version], and it does not depend on [os_id]. *)
Theorem profile_is_rhel_major :
  (forall (os_id : pyval) (major rest : string),
      all_chars (RpmUtils.not_char ".") major = true ->
      rest = "" \/ (exists r, rest = String "." r) ->
      get_profile_for_os os_id (PStr (major +:+ rest)) = Ok ("rhel" +:+ major))
  /\ (forall (os_id os_id' os_version : pyval),
        get_profile_for_os os_id os_version
        = get_profile_for_os os_id' os_version).
Proof.
  split.
  - intros os_id major rest Hmajor Hrest. unfold get_profile_for_os.
    rewrite (split_head "." major rest Hmajor Hrest). simpl.
    by destruct (bool_decide _).
  - intros os_id os_id' [| | | |v]; simpl; try done.
    by destruct (bool_decide _), (bool_decide _).
Qed.

Lemma profile_is_rhel_major_witness :
  get_profile_for_os (PStr "rocky") (PStr "9.3") = Ok "rhel9"
  /\ get_profile_for_os (PStr "centos") (PStr "9") = Ok "rhel9"
  /\ get_profile_for_os (PStr "debian") (PStr "12.4.1") = Ok "rhel12".
Proof.
  destruct profile_is_rhel_major as [H _]. split; [|split].
  - apply (H (PStr "rocky") "9" ".3"); [reflexivity | right; by exists "3"].
  - apply (H (PStr "centos") "9" ""); [reflexivity | by left].
  - apply (H (PStr "debian") "12" ".4.1"); [reflexivity | right; by exists "4.1"].
Defined.

(** *** A host without a manifest *)

(** C8. When the manifest of a host is absent, [compute_updates_for_host]
    returns a result whose profile, os_id and os_version are ["unknown"],
    with one error that names the host and no update. *)
Theorem missing_manifest_result self w now host :
  load_manifest self w host = None ->
  exists r,
    compute_updates_for_host self w now host = Ok (r, self, w)
    /\ host_id r = host
    /\ profile r = "unknown"
    /\ os_id r = PStr "unknown"
    /\ os_version r = PStr "unknown"
    /\ errors r = ["Manifest not found for host: " +:+ host]
    /\ update_count r = 0%nat.
Proof.
  intros H. unfold compute_updates_for_host. rewrite H.
  eexists. split; [reflexivity|]. by repeat split.
Qed.

Lemma missing_manifest_result_witness :
  exists r,
    compute_updates_for_host (__init__ "/mirror" "/manifests")
      {| manifest_files := ∅; cache_files := ∅; heap := [] |}
      "2024-01-15T10:00:00Z" "web01"
    = Ok (r, __init__ "/mirror" "/manifests",
          {| manifest_files := ∅; cache_files := ∅; heap := [] |})
    /\ host_id r = "web01"
    /\ profile r = "unknown"
    /\ os_id r = PStr "unknown"
    /\ os_version r = PStr "unknown"
    /\ errors r = ["Manifest not found for host: web01"]
    /\ update_count r = 0%nat.
Proof.
  apply (missing_manifest_result (__init__ "/mirror" "/manifests")
           {| manifest_files := ∅; cache_files := ∅; heap := [] |}
           "2024-01-15T10:00:00Z" "web01").
  reflexivity.
Defined.

(** *** The repository cache *)

Lemma lookup_alloc d w :
  heap (snd (alloc d w)) !! fst (alloc d w) = Some d.
Proof.
  simpl. rewrite lookup_app_r by done. by rewrite Nat.sub_diag.
Qed.

(** C6, as the code has it. When the key is already memoized or the cache
    file of the triple exists, the first call leaves the key memoized, and
    the next call returns the same object and changes nothing. When
    neither holds, each call returns a new empty dictionary and the
    memoization cache stays as it was. *)
Theorem load_repo_packages_identity self w profile arch channel
    ref1 self1 w1 ref2 self2 w2 :
  load_repo_packages self w profile arch channel = (ref1, self1, w1) ->
  load_repo_packages self1 w1 profile arch channel = (ref2, self2, w2) ->
  (is_Some (_repo_cache self !! cache_key profile arch channel)
   \/ is_Some (cache_files w !! cache_file self profile arch channel) ->
   _repo_cache self1 !! cache_key profile arch channel = Some ref1
   /\ ref2 = ref1 /\ self2 = self1 /\ w2 = w1)
  /\ (_repo_cache self !! cache_key profile arch channel = None ->
      cache_files w !! cache_file self profile arch channel = None ->
      self1 = self /\ self2 = self
      /\ ref1 = length (heap w) /\ ref2 = S (length (heap w))
      /\ ref2 <> ref1
      /\ deref w2 ref1 = ∅ /\ deref w2 ref2 = ∅).
Proof.
  intros H1 H2. split.
  - intros Hsome. unfold load_repo_packages in H1.
    destruct (_repo_cache self !! cache_key profile arch channel)
      as [l|] eqn:Ecache.
    + injection H1 as <- <- <-.
      unfold load_repo_packages in H2. rewrite Ecache in H2.
      by injection H2 as <- <- <-.
    + destruct Hsome as [[? ?] | [content Efile]]; [done|].
      rewrite Efile in H1. simpl in H1. injection H1 as <- <- <-.
      unfold load_repo_packages in H2. simpl in H2.
      rewrite lookup_insert_eq in H2. injection H2 as <- <- <-.
      simpl. by rewrite lookup_insert_eq.
  - intros Ecache Efile. unfold load_repo_packages in H1.
    rewrite Ecache, Efile in H1. simpl in H1. injection H1 as <- <- <-.
    unfold load_repo_packages in H2. simpl in H2.
    rewrite Ecache in H2.
    unfold cache_file in Efile, H2. simpl in H2. rewrite Efile in H2.
    injection H2 as <- <- <-.
    repeat split; try done.
    + rewrite length_app. simpl. lia.
    + rewrite length_app. simpl. lia.
    + unfold deref. simpl. rewrite <- app_assoc.
      rewrite lookup_app_r by done. by rewrite Nat.sub_diag.
    + unfold deref. simpl. rewrite length_app. simpl.
      rewrite lookup_app_r by (rewrite length_app; simpl; lia).
      rewrite length_app. simpl.
      by replace (length (heap w) + 1 - (length (heap w) + 1))%nat with 0%nat by lia.
Qed.

Lemma load_repo_packages_identity_witness :
  let self1 :=
    {| mirror_dir := "/mirror"; manifests_dir := "/manifests";
       _repo_cache := {[ "rhel9/x86_64/baseos" := 0%nat ]} |} in
  let w1 :=
    {| manifest_files := manifest_files sample_world;
       cache_files := cache_files sample_world;
       heap := [sample_baseos] |} in
  load_repo_packages sample_calculator sample_world "rhel9" "x86_64" "baseos"
  = (0%nat, self1, w1)
  /\ load_repo_packages self1 w1 "rhel9" "x86_64" "baseos" = (0%nat, self1, w1)
  /\ _repo_cache self1 !! cache_key "rhel9" "x86_64" "baseos" = Some 0%nat.
Proof.
  intros self1 w1.
  assert (load_repo_packages sample_calculator sample_world
            "rhel9" "x86_64" "baseos" = (0%nat, self1, w1)) as H1
    by reflexivity.
  assert (load_repo_packages self1 w1 "rhel9" "x86_64" "baseos"
          = (0%nat, self1, w1)) as H2 by reflexivity.
  split; [exact H1|]. split; [exact H2|].
  apply (load_repo_packages_identity sample_calculator sample_world
           "rhel9" "x86_64" "baseos" 0%nat self1 w1 0%nat self1 w1 H1 H2).
  right. eexists. reflexivity.
Defined.

(** C6, as stated, fails when the triple has no cache file: the two calls
    return two different objects and nothing is memoized. *)
Lemma load_repo_packages_without_cache_file :
  let r1 := load_repo_packages sample_calculator empty_world
              "rhel9" "x86_64" "baseos" in
  let r2 := load_repo_packages (r1.1.2) (r1.2) "rhel9" "x86_64" "baseos" in
  r1.1.1 = 0%nat /\ r2.1.1 = 1%nat /\ r2.1.1 <> r1.1.1
  /\ _repo_cache (r1.1.2) !! cache_key "rhel9" "x86_64" "baseos" = None.
Proof. vm_compute. split; [|split; [|split]]; done. Qed.

(** *** The triples that are compared *)

Lemma lookup_evr_dict_epoch e v r : evr_dict e v r !! "epoch" = Some e.
Proof. unfold evr_dict. by simplify_map_eq. Qed.

Lemma lookup_evr_dict_version e v r : evr_dict e v r !! "version" = Some v.
Proof. unfold evr_dict. by simplify_map_eq. Qed.

Lemma lookup_evr_dict_release e v r : evr_dict e v r !! "release" = Some r.
Proof. unfold evr_dict. by simplify_map_eq. Qed.

Lemma getitem_evr_info d :
  getitem (evr_info d) "epoch" = RpmUtils.get d "epoch" (PStr "0")
  /\ getitem (evr_info d) "version" = RpmUtils.get d "version" (PStr "0")
  /\ getitem (evr_info d) "release" = RpmUtils.get d "release" (PStr "0").
Proof.
  unfold getitem, evr_info.
  by rewrite lookup_evr_dict_epoch, lookup_evr_dict_version,
    lookup_evr_dict_release.
Qed.

(** What the loop body has done when it returns: nothing, or it has
    appended the update of a comparison that gave a negative result. *)
Lemma check_package_inv repo ch updates pkg updates' :
  check_package repo ch updates pkg = Ok updates' ->
  updates' = updates
  \/ exists available c u,
       truthy (get_or_none pkg "name") = true
       /\ truthy (get_or_none pkg "arch") = true
       /\ available_for repo pkg available
       /\ available <> ∅
       /\ RpmUtils.compare_versions (evr_info pkg) (evr_info available) = Ok c
       /\ c < 0
       /\ update_of ch pkg available u
       /\ updates' = updates ++ [u].
Proof.
  unfold check_package.
  destruct (negb (truthy (get_or_none pkg "name"))
            || negb (truthy (get_or_none pkg "arch"))) eqn:Et;
    [intros [= <-]; by left|].
  apply orb_false_iff in Et as [Hn Ha].
  apply negb_false_iff in Hn, Ha.
  intros H. apply bind_Ok in H as (name_text & En & H).
  apply bind_Ok in H as (arch_text & Ea & H).
  destruct (repo !! _) as [available|] eqn:Ekey; [|injection H as <-; by left].
  destruct (bool_decide_reflect (available = ∅)) as [|Hne];
    [injection H as <-; by left|].
  unfold RpmUtils.is_update_available in H.
  apply bind_Ok in H as (newer & H' & H).
  apply bind_Ok in H' as (c & Hc & [= <-]).
  destruct (Z.ltb_spec c 0) as [Hneg|]; [|injection H as <-; by left].
  apply bind_Ok in H as (ie & Ei & H).
  apply bind_Ok in H as (ae & Eae & H).
  injection H as <-. right. eexists available, c, _.
  split; [done|]. split; [done|]. split; [by exists name_text, arch_text|].
  split; [done|]. split; [done|]. split; [done|]. split; [|done].
  destruct (getitem_evr_info pkg) as (Hpe & Hpv & Hpr).
  destruct (getitem_evr_info available) as (Hae & Hav & Har).
  rewrite Hpe in Ei. rewrite Hae in Eae.
  unfold update_of. simpl. by rewrite Hpv, Hpr, Hav, Har.
Qed.

End CalculatorFacts.

(** ** The comparator as an order *)

Module OrderFacts.
Import Py RpmUtils Notions PyFacts SplitFacts CompareFacts.

(** *** The three results *)

Lemma compare_pair_range s1 s2 r :
  compare_pair s1 s2 = Ok (Return r) -> r = -1 \/ r = 1.
Proof.
  unfold compare_pair.
  destruct (isdigit s1 && isdigit s2).
  - destruct (int s1) as [n1|]; [|done]. destruct (int s2) as [n2|]; [|done].
    simpl. destruct (n1 <? n2); [intros [= <-]; by left|].
    destruct (n1 >? n2); [intros [= <-]; by right | done].
  - destruct (isalpha s1 && isalpha s2).
    + destruct (String.ltb s1 s2); [intros [= <-]; by left|].
      destruct (String.ltb s2 s1); [intros [= <-]; by right | done].
    + destruct (isdigit s1); intros [= <-]; [by right | by left].
Qed.

Lemma walk_range l1 l2 r : walk l1 l2 = Ok (Return r) -> r = -1 \/ r = 1.
Proof.
  revert l2. induction l1 as [|a l1 IH]; intros [|b l2]; simpl; try done.
  destruct (compare_pair a b) as [[r'|]|e] eqn:E; simpl; [|by apply IH|done].
  intros [= <-]. by apply (compare_pair_range a b).
Qed.

Lemma compare_segments_range l1 l2 c :
  compare_segments l1 l2 = Ok c -> tri_state c.
Proof.
  unfold compare_segments, tri_state.
  destruct (walk l1 l2) as [[r|]|e] eqn:E; simpl; [| |done].
  - intros [= <-]. destruct (walk_range _ _ _ E); auto.
  - destruct (_ <? _)%nat; [intros [= <-]; auto|].
    destruct (_ <? _)%nat; intros [= <-]; auto.
Qed.

Lemma compare_pyval_range (x y : pyval) c :
  (v1 ← as_str x; v2 ← as_str y; _compare_version_strings v1 v2) = Ok c ->
  tri_state c.
Proof.
  destruct x as [| | | |s1]; try done. destruct y as [| | | |s2]; try done.
  apply compare_segments_range.
Qed.

(** X1. [_compare_version_strings] and [compare_versions] return -1, 0 or 1
    and nothing else. *)
Theorem comparison_results (a b : gmap string pyval) (v1 v2 : string) :
  (forall c, _compare_version_strings v1 v2 = Ok c -> tri_state c)
  /\ (forall c, compare_versions a b = Ok c -> tri_state c).
Proof.
  split; [intros c; apply compare_segments_range|].
  intros c. unfold compare_versions. intros H.
  apply bind_Ok in H as (x & _ & H). apply bind_Ok in H as (y & _ & H).
  apply bind_Ok in H as (less & _ & H).
  destruct less; [injection H as <-; unfold tri_state; auto|].
  apply bind_Ok in H as (more & _ & H).
  destruct more; [injection H as <-; unfold tri_state; auto|].
  apply bind_Ok in H as (vc & Hv & H).
  destruct (negb (vc =? 0)).
  - injection H as <-. by apply (compare_pyval_range _ _ _ Hv).
  - by apply (compare_pyval_range _ _ _ H).
Qed.

(** *** Strings whose digits are ASCII digits *)

Lemma digit_value_nonneg c : is_ascii_digit c = true -> 0 <= digit_value c.
Proof.
  unfold is_ascii_digit, between, digit_value. intros H.
  apply andb_true_iff in H as [H _]. apply N.leb_le in H. lia.
Qed.

Lemma parse_digits_total acc prev s :
  all_chars is_ascii_digit s = true ->
  0 <= acc ->
  prev = true \/ nonempty s = true ->
  exists z, parse_digits acc prev s = Some z /\ 0 <= z.
Proof.
  revert acc prev. induction s as [|c s IH]; intros acc prev Hall Hacc Hne;
    simpl.
  - destruct Hne as [-> | ?]; [by exists acc | done].
  - simpl in Hall. apply andb_true_iff in Hall as [Hc Hs]. rewrite Hc.
    apply IH; [done | | by left].
    pose proof (digit_value_nonneg c Hc). lia.
Qed.

(** [int] returns on a run of ASCII digits that is not too long, and its
    value is not negative. *)
Lemma int_digits_total s :
  nonempty s = true -> all_chars is_ascii_digit s = true -> short s ->
  exists z, int s = Ok z /\ 0 <= z.
Proof.
  intros Hne Hall Hlen.
  destruct (parse_digits_total 0 false s Hall) as (z & Hz & Hpos);
    [lia | by right |].
  exists z. split; [by apply int_of_digits | done].
Qed.

(** On a longer run of ASCII digits [int] raises. *)
Lemma int_digits_long s :
  all_chars is_ascii_digit s = true -> ~ short s -> int s = Raise ValueError.
Proof.
  intros Hall Hlen. rewrite (int_digits_unfold s Hall).
  destruct (parse_digits 0 false s); [|done].
  destruct (N.leb_spec (strlen s) int_max_str_digits); [|done].
  by destruct Hlen.
Qed.

Lemma strlen_app s t : strlen (s +:+ t) = (strlen s + strlen t)%N.
Proof.
  induction s as [|c s IH]; [done|].
  change (String c s +:+ t) with (String c (s +:+ t)). simpl. rewrite IH. lia.
Qed.

Lemma within_mono k k' st : (k <= k')%N -> within k st -> within k' st.
Proof.
  intros Hk [Hsegs Hcur]. split; [|lia].
  eapply Forall_impl; [exact Hsegs|]. simpl. intros seg Hseg. lia.
Qed.

Lemma split_step_within k st c :
  within k st -> within (N.succ k) (split_step st c).
Proof.
  intros [Hsegs Hcur]. unfold split_step, flush_if, within.
  assert (Forall (fun seg => (strlen seg <= N.succ k)%N) (segments st))
    as Hsegs'.
  { eapply Forall_impl; [exact Hsegs|]. simpl. intros seg Hseg. lia. }
  assert (Forall (fun seg => (strlen seg <= N.succ k)%N)
            (segments st ++ [current st])) as Hflush.
  { apply Forall_app. split; [done|]. apply Forall_cons. split; [lia|done]. }
  assert (strlen (current st +:+ String c "") <= N.succ k)%N as Hsnoc.
  { rewrite strlen_app. simpl. lia. }
  assert (strlen ("" +:+ String c "") <= N.succ k)%N as Hone.
  { simpl. lia. }
  destruct (char_isdigit c); [|destruct (char_isalpha c)].
  - destruct (_ && nonempty (current st)); simpl; split; auto.
  - destruct (_ && nonempty (current st)); simpl; split; auto.
  - destruct (true && nonempty (current st)); simpl; split; auto; lia.
Qed.

Lemma fold_within s k st :
  within k st ->
  within (k + strlen s) (fold_left split_step (list_ascii_of_string s) st).
Proof.
  revert k st. induction s as [|c s IH]; intros k st Hst; simpl.
  - by rewrite N.add_0_r.
  - replace (k + N.succ (strlen s))%N with (N.succ k + strlen s)%N by lia.
    apply IH. by apply split_step_within.
Qed.

(** No segment is longer than the string. *)
Lemma split_within v :
  Forall (fun seg => (strlen seg <= strlen v)%N) (_split_version_string v).
Proof.
  unfold _split_version_string, split_finish.
  destruct (fold_within v 0 split_init) as [Hsegs Hcur].
  { split; [by constructor | done]. }
  rewrite N.add_0_l in Hsegs, Hcur.
  destruct (nonempty _); [|done].
  apply Forall_app. split; [done|]. by apply Forall_cons.
Qed.

Lemma split_short v : short v -> Forall short (_split_version_string v).
Proof.
  intros Hv. eapply Forall_impl; [apply split_within|].
  simpl. unfold short in *. intros seg Hseg. lia.
Qed.

Lemma split_step_chars p st c :
  p c = true -> chars_ok p st -> chars_ok p (split_step st c).
Proof.
  intros Hc [Hsegs Hcur]. unfold split_step, flush_if, chars_ok.
  assert (Forall (fun seg => all_chars p seg = true)
            (segments st ++ [current st])) as Hflush.
  { apply Forall_app. split; [done|]. by apply Forall_cons. }
  assert (forall s, all_chars p s = true ->
                    all_chars p (s +:+ String c "") = true) as Hsnoc.
  { intros s Hs. rewrite all_chars_app, Hs. simpl. by rewrite Hc. }
  destruct (char_isdigit c); [|destruct (char_isalpha c)].
  - destruct (_ && nonempty (current st)); simpl; rewrite ?Hc; split; auto.
  - destruct (_ && nonempty (current st)); simpl; rewrite ?Hc; split; auto.
  - destruct (true && nonempty (current st)); simpl; split; auto.
Qed.

Lemma fold_chars p s st :
  all_chars p s = true -> chars_ok p st ->
  chars_ok p (fold_left split_step (list_ascii_of_string s) st).
Proof.
  revert st. induction s as [|c s IH]; intros st Hs Hst; simpl; [done|].
  simpl in Hs. apply andb_true_iff in Hs as [Hc Hs].
  apply IH; [done|]. by apply split_step_chars.
Qed.

(** The segments of a string are made of characters of the string. *)
Lemma split_chars p v :
  all_chars p v = true ->
  Forall (fun seg => all_chars p seg = true) (_split_version_string v).
Proof.
  intros Hv. unfold _split_version_string, split_finish.
  destruct (fold_chars p v split_init Hv) as [Hsegs Hcur].
  { split; [by constructor | done]. }
  destruct (nonempty _); [|done].
  apply Forall_app. split; [done|]. by apply Forall_cons.
Qed.

Lemma plain_digit_char c :
  plain_char c = true -> char_isdigit c = true -> is_ascii_digit c = true.
Proof. unfold plain_char. intros H Hd. rewrite Hd in H. done. Qed.

Lemma plain_digits s :
  all_chars plain_char s = true -> all_chars char_isdigit s = true ->
  all_chars is_ascii_digit s = true.
Proof.
  induction s as [|c s IH]; simpl; [done|]. intros H1 H2.
  apply andb_true_iff in H1 as [Hc1 Hs1].
  apply andb_true_iff in H2 as [Hc2 Hs2].
  by rewrite (plain_digit_char c Hc1 Hc2), IH.
Qed.

Lemma split_plain v : plain v -> Forall plain_segment (_split_version_string v).
Proof.
  intros Hv. pose proof (split_pure v) as Hpure.
  pose proof (split_chars plain_char v Hv) as Hchars.
  induction Hpure as [|seg l Hseg Hpure IH]; [by constructor|].
  apply Forall_cons in Hchars as [Hc Hl].
  apply Forall_cons. split; [|by apply IH].
  destruct Hseg as [Hd | Ha]; [left | by right].
  unfold isdigit in Hd. apply andb_true_iff in Hd as [Hne Hd].
  split; [done | by apply plain_digits].
Qed.

Lemma plain_segment_pure seg : plain_segment seg -> pure seg.
Proof.
  intros [[Hne Hd] | Ha]; [left | by right].
  unfold isdigit. rewrite Hne. simpl.
  by apply (all_chars_impl is_ascii_digit char_isdigit seg ascii_digit_isdigit).
Qed.

Lemma compare_pair_total s1 s2 :
  plain_segment s1 -> plain_segment s2 -> short s1 -> short s2 ->
  exists o, compare_pair s1 s2 = Ok o.
Proof.
  intros H1 H2 L1 L2. unfold compare_pair.
  destruct (isdigit s1 && isdigit s2) eqn:E.
  - apply andb_true_iff in E as [D1 D2].
    destruct H1 as [[N1 A1] | A1];
      [|by rewrite (isalpha_not_isdigit s1 A1) in D1].
    destruct H2 as [[N2 A2] | A2];
      [|by rewrite (isalpha_not_isdigit s2 A2) in D2].
    destruct (int_digits_total s1 N1 A1 L1) as (n1 & -> & _).
    destruct (int_digits_total s2 N2 A2 L2) as (n2 & -> & _). simpl.
    destruct (n1 <? n2); [by eauto|]. destruct (n1 >? n2); by eauto.
  - destruct (isalpha s1 && isalpha s2).
    + destruct (String.ltb s1 s2); [by eauto|].
      destruct (String.ltb s2 s1); by eauto.
    + destruct (isdigit s1); by eauto.
Qed.

Lemma walk_total l1 l2 :
  Forall plain_segment l1 -> Forall plain_segment l2 ->
  Forall short l1 -> Forall short l2 ->
  exists o, walk l1 l2 = Ok o.
Proof.
  intros H1. revert l2. induction H1 as [|a l1 Ha H1 IH]; intros l2 H2 L1 L2.
  - by exists Continue.
  - destruct H2 as [|b l2 Hb H2]; [by exists Continue|]. simpl.
    apply Forall_cons in L1 as [La L1]. apply Forall_cons in L2 as [Lb L2].
    destruct (compare_pair_total a b Ha Hb La Lb) as ([r|] & ->); simpl;
      [by eauto | by apply IH].
Qed.

Lemma compare_total v1 v2 :
  plain v1 -> plain v2 -> short v1 -> short v2 ->
  exists o, walk (_split_version_string v1) (_split_version_string v2) = Ok o.
Proof.
  intros H1 H2 L1 L2.
  apply walk_total; auto using split_plain, split_short.
Qed.

(** X2. On strings without superscript digits and of at most
    [int_max_str_digits] characters [_compare_version_strings] returns: it
    does not raise. *)
Theorem compare_plain_returns v1 v2 :
  plain v1 -> plain v2 -> short v1 -> short v2 ->
  exists c, _compare_version_strings v1 v2 = Ok c /\ tri_state c.
Proof.
  intros H1 H2 L1 L2.
  destruct (compare_total v1 v2 H1 H2 L1 L2) as (o & Ho).
  assert (exists c, _compare_version_strings v1 v2 = Ok c) as [c Hc].
  { unfold _compare_version_strings, compare_segments. rewrite Ho. simpl.
    destruct o; [by eauto|].
    destruct (_ <? _)%nat; [by eauto|]. destruct (_ <? _)%nat; by eauto. }
  exists c. split; [done | by apply (compare_segments_range _ _ _ Hc)].
Qed.

Lemma compare_plain_returns_witness :
  exists c, _compare_version_strings "5.14.0-427.13.1.el9_4" "5.14.0-503.el9_5"
            = Ok c /\ tri_state c.
Proof.
  apply (compare_plain_returns "5.14.0-427.13.1.el9_4" "5.14.0-503.el9_5");
    try reflexivity; by vm_compute.
Defined.

Lemma comparison_results_witness :
  _compare_version_strings "1.0" "1.0.1" = Ok (-1) /\ tri_state (-1).
Proof.
  destruct (comparison_results ∅ ∅ "1.0" "1.0.1") as [H _].
  split; [reflexivity|]. apply (H (-1)). reflexivity.
Defined.

(** *** Reflexivity *)

Lemma compare_self_eq s : String.compare s s = Eq.
Proof.
  pose proof (String.compare_antisym s s) as H.
  destruct (String.compare s s); simpl in H; congruence.
Qed.

Lemma ltb_irrefl s : String.ltb s s = false.
Proof. unfold String.ltb. by rewrite compare_self_eq. Qed.

Lemma compare_pair_refl s :
  pure s ->
  compare_pair s s = Ok Continue \/ compare_pair s s = Raise ValueError.
Proof.
  intros [D | A]; unfold compare_pair.
  - rewrite D. simpl. destruct (int_cases s) as [[n ->] | ->]; [|by right].
    simpl. left. destruct (Z.ltb_spec n n); [lia|].
    by destruct (Z.gtb_spec n n); [lia|].
  - rewrite (isalpha_not_isdigit s A), A. simpl. left.
    by rewrite ltb_irrefl.
Qed.

Lemma walk_refl l :
  Forall pure l -> walk l l = Ok Continue \/ walk l l = Raise ValueError.
Proof.
  induction 1 as [|a l Ha Hl IH]; simpl; [by left|].
  destruct (compare_pair_refl a Ha) as [-> | ->]; [done | by right].
Qed.

Lemma compare_segments_refl l :
  Forall pure l ->
  compare_segments l l = Ok 0 \/ compare_segments l l = Raise ValueError.
Proof.
  intros H. unfold compare_segments.
  destruct (walk_refl l H) as [-> | ->]; [|by right].
  simpl. left. by rewrite Nat.ltb_irrefl.
Qed.

(** X3. A version string compares equal to itself: the result is 0 whenever
    there is one, and there is one when the string has no superscript digit
    and at most [int_max_str_digits] characters. *)
Theorem compare_reflexive v :
  (forall c, _compare_version_strings v v = Ok c -> c = 0)
  /\ (plain v -> short v -> _compare_version_strings v v = Ok 0).
Proof.
  unfold _compare_version_strings.
  destruct (compare_segments_refl _ (split_pure v)) as [E | E].
  - rewrite E. split; [by intros c [= <-] | done].
  - split; [by rewrite E|]. intros Hv Lv. exfalso.
    destruct (compare_total v v Hv Hv Lv Lv) as (o & Ho).
    unfold compare_segments in E. rewrite Ho in E. simpl in E.
    destruct o; [done|]. by rewrite Nat.ltb_irrefl in E.
Qed.

Lemma compare_reflexive_witness :
  _compare_version_strings "427.13.1.el9_4" "427.13.1.el9_4" = Ok 0.
Proof.
  destruct (compare_reflexive "427.13.1.el9_4") as [_ H].
  apply H; [reflexivity | by vm_compute].
Defined.

(** *** Transitivity *)

Lemma ltb_lt s1 s2 : String.ltb s1 s2 = true <-> String.compare s1 s2 = Lt.
Proof. unfold String.ltb. destruct (String.compare s1 s2); split; done. Qed.

Lemma ltb_both_false s1 s2 :
  String.ltb s1 s2 = false -> String.ltb s2 s1 = false -> s1 = s2.
Proof.
  unfold String.ltb. rewrite (String.compare_antisym s1 s2).
  destruct (String.compare s2 s1) eqn:E; simpl; try done.
  intros _ _. symmetry. by apply String.compare_eq_iff.
Qed.

Lemma ltb_leb s1 s2 : String.ltb s1 s2 = true -> String.leb s1 s2 = true.
Proof. unfold String.ltb, String.leb. by destruct (String.compare s1 s2). Qed.

Lemma ltb_trans s1 s2 s3 :
  String.ltb s1 s2 = true -> String.ltb s2 s3 = true -> String.ltb s1 s3 = true.
Proof.
  intros H12 H23.
  assert (String.le s1 s3) as H13.
  { transitivity s2; apply Is_true_true; by apply ltb_leb. }
  apply Is_true_true in H13. unfold String.leb in H13.
  apply ltb_lt. destruct (String.compare s1 s3) eqn:E; [|done|done].
  apply String.compare_eq_iff in E. subst s3.
  destruct (ltb_antisym_cases s1 s2) as [[_ H] | [[H _] | [H _]]]; congruence.
Qed.

(** What [compare_pair] has seen when it goes on, and when it returns -1. *)
Lemma compare_pair_continue s1 s2 :
  pure s1 -> pure s2 -> compare_pair s1 s2 = Ok Continue ->
  (isdigit s1 = true /\ isdigit s2 = true
   /\ exists n, int s1 = Ok n /\ int s2 = Ok n)
  \/ (isalpha s1 = true /\ s1 = s2).
Proof.
  intros [D1 | A1] [D2 | A2].
  - unfold compare_pair. rewrite D1, D2. simpl.
    destruct (int s1) as [n1|]; [|done]. destruct (int s2) as [n2|]; [|done].
    simpl. destruct (Z.ltb_spec n1 n2); [done|].
    destruct (Z.gtb_spec n1 n2); [done|]. intros _. left.
    split; [done|]. split; [done|]. exists n1. split; [done|]. f_equal. lia.
  - by rewrite (compare_pair_digit_alpha s1 s2 D1 A2).
  - by rewrite (compare_pair_alpha_digit s1 s2 A1 D2).
  - unfold compare_pair.
    rewrite (isalpha_not_isdigit s1 A1), A1, A2. simpl.
    destruct (String.ltb s1 s2) eqn:E1; [done|].
    destruct (String.ltb s2 s1) eqn:E2; [done|]. intros _. right.
    split; [done | by apply ltb_both_false].
Qed.

Lemma compare_pair_less s1 s2 :
  pure s1 -> pure s2 -> compare_pair s1 s2 = Ok (Return (-1)) ->
  (isdigit s1 = true /\ isdigit s2 = true
   /\ exists n1 n2, int s1 = Ok n1 /\ int s2 = Ok n2 /\ n1 < n2)
  \/ (isalpha s1 = true /\ isalpha s2 = true /\ String.ltb s1 s2 = true)
  \/ (isalpha s1 = true /\ isdigit s2 = true).
Proof.
  intros [D1 | A1] [D2 | A2].
  - unfold compare_pair. rewrite D1, D2. simpl.
    destruct (int s1) as [n1|]; [|done]. destruct (int s2) as [n2|]; [|done].
    simpl. destruct (Z.ltb_spec n1 n2).
    + intros _. left. split; [done|]. split; [done|]. by exists n1, n2.
    + by destruct (n1 >? n2).
  - by rewrite (compare_pair_digit_alpha s1 s2 D1 A2).
  - intros _. right; right. done.
  - unfold compare_pair.
    rewrite (isalpha_not_isdigit s1 A1), A1, A2. simpl.
    destruct (String.ltb s1 s2) eqn:E1; [intros _; right; left; done|].
    by destruct (String.ltb s2 s1).
Qed.

Lemma compare_pair_digits s1 s2 n1 n2 :
  isdigit s1 = true -> isdigit s2 = true -> int s1 = Ok n1 -> int s2 = Ok n2 ->
  compare_pair s1 s2
  = Ok (if n1 <? n2 then Return (-1) else if n1 >? n2 then Return 1
        else Continue).
Proof.
  intros D1 D2 E1 E2. unfold compare_pair. rewrite D1, D2, E1, E2. simpl.
  destruct (n1 <? n2); [done|]. by destruct (n1 >? n2).
Qed.

Lemma compare_pair_letters s1 s2 :
  isalpha s1 = true -> isalpha s2 = true ->
  compare_pair s1 s2
  = Ok (if String.ltb s1 s2 then Return (-1)
        else if String.ltb s2 s1 then Return 1 else Continue).
Proof.
  intros A1 A2. unfold compare_pair.
  rewrite (isalpha_not_isdigit s1 A1), A1, A2. simpl.
  destruct (String.ltb s1 s2); [done|]. by destruct (String.ltb s2 s1).
Qed.

Ltac clash :=
  match goal with
  | D : isdigit ?s = true, A : isalpha ?s = true |- _ =>
      rewrite (isalpha_not_isdigit s A) in D; discriminate D
  end.

Lemma compare_pair_trans s1 s2 s3 o1 o2 :
  pure s1 -> pure s2 -> pure s3 ->
  compare_pair s1 s2 = Ok o1 -> compare_pair s2 s3 = Ok o2 ->
  o1 <> Return 1 -> o2 <> Return 1 ->
  compare_pair s1 s3 = Ok (then_outcome o1 o2)
  /\ then_outcome o1 o2 <> Return 1
  /\ (o1 = Return (-1) \/ o2 = Return (-1) ->
      then_outcome o1 o2 = Return (-1)).
Proof.
  intros P1 P2 P3 H12 H23 N1 N2.
  assert (forall o, compare_pair s1 s2 = Ok o -> o <> Return 1 ->
                    o = Continue \/ o = Return (-1)) as Hcases12.
  { intros [r|] Ho Hn; [|by left]. right.
    destruct (compare_pair_range _ _ _ Ho) as [-> | ->]; done. }
  assert (forall o, compare_pair s2 s3 = Ok o -> o <> Return 1 ->
                    o = Continue \/ o = Return (-1)) as Hcases23.
  { intros [r|] Ho Hn; [|by left]. right.
    destruct (compare_pair_range _ _ _ Ho) as [-> | ->]; done. }
  destruct (Hcases12 o1 H12 N1) as [-> | ->];
    destruct (Hcases23 o2 H23 N2) as [-> | ->]; simpl.
  - (* equal, equal *)
    split; [|split; [done | by intros [? | ?]]].
    destruct (compare_pair_continue _ _ P1 P2 H12)
      as [(D1 & D2 & n & E1 & E2) | (A1 & <-)]; [|done].
    destruct (compare_pair_continue _ _ P2 P3 H23)
      as [(_ & D3 & m & E2' & E3) | (A2 & <-)]; [|clash].
    rewrite E2 in E2'. injection E2' as <-.
    rewrite (compare_pair_digits s1 s3 n n D1 D3 E1 E3).
    destruct (Z.ltb_spec n n); [lia|]. by destruct (Z.gtb_spec n n); [lia|].
  - (* equal, less *)
    split; [|split; [done | done]].
    destruct (compare_pair_continue _ _ P1 P2 H12)
      as [(D1 & D2 & n & E1 & E2) | (A1 & <-)]; [|done].
    destruct (compare_pair_less _ _ P2 P3 H23)
      as [(_ & D3 & n2 & n3 & E2' & E3 & Hlt) | [(A2 & _) | (A2 & _)]];
      [|clash|clash].
    rewrite E2 in E2'. injection E2' as <-.
    rewrite (compare_pair_digits s1 s3 n n3 D1 D3 E1 E3).
    by destruct (Z.ltb_spec n n3); [|lia].
  - (* less, equal *)
    split; [|split; [done | done]].
    destruct (compare_pair_continue _ _ P2 P3 H23)
      as [(D2 & D3 & n & E2 & E3) | (A2 & <-)]; [|done].
    destruct (compare_pair_less _ _ P1 P2 H12)
      as [(D1 & _ & n1 & n2 & E1 & E2' & Hlt) | [(_ & A2 & _) | (A1 & _)]];
      [| clash |].
    + rewrite E2 in E2'. injection E2' as <-.
      rewrite (compare_pair_digits s1 s3 n1 n D1 D3 E1 E3).
      by destruct (Z.ltb_spec n1 n); [|lia].
    + by rewrite (compare_pair_alpha_digit s1 s3 A1 D3).
  - (* less, less *)
    split; [|split; [done | done]].
    destruct (compare_pair_less _ _ P1 P2 H12)
      as [(D1 & D2 & n1 & n2 & E1 & E2 & Hlt) | [(A1 & A2 & L12) | (A1 & D2)]];
      destruct (compare_pair_less _ _ P2 P3 H23)
        as [(D2' & D3 & m2 & n3 & E2' & E3 & Hlt') | [(A2' & A3 & L23)
                                                     | (A2' & D3)]];
      try clash.
    + rewrite E2 in E2'. injection E2' as <-.
      rewrite (compare_pair_digits s1 s3 n1 n3 D1 D3 E1 E3).
      by destruct (Z.ltb_spec n1 n3); [|lia].
    + rewrite (compare_pair_letters s1 s3 A1 A3).
      by rewrite (ltb_trans s1 s2 s3 L12 L23).
    + by rewrite (compare_pair_alpha_digit s1 s3 A1 D3).
    + by rewrite (compare_pair_alpha_digit s1 s3 A1 D3).
Qed.

Lemma compare_segments_nil_l l :
  compare_segments [] l = Ok (match l with [] => 0 | _ => -1 end).
Proof. by destruct l. Qed.

Lemma compare_segments_nil_r a l : compare_segments (a :: l) [] = Ok 1.
Proof. done. Qed.

Lemma compare_segments_cons a l1 b l2 :
  compare_segments (a :: l1) (b :: l2)
  = o ← compare_pair a b;
    match o with
    | Return r => Ok r
    | Continue => compare_segments l1 l2
    end.
Proof.
  unfold compare_segments. simpl.
  destruct (compare_pair a b) as [[r|]|e]; done.
Qed.

Lemma compare_segments_trans l1 l2 l3 x y :
  Forall pure l1 -> Forall pure l2 -> Forall pure l3 ->
  compare_segments l1 l2 = Ok x -> compare_segments l2 l3 = Ok y ->
  x <= 0 -> y <= 0 ->
  exists z, compare_segments l1 l3 = Ok z /\ z <= 0
            /\ (x < 0 \/ y < 0 -> z < 0).
Proof.
  intros P1. revert l2 l3 x y.
  induction P1 as [|a l1 Pa P1 IH]; intros l2 l3 x y P2 P3 H12 H23 Hx Hy.
  - rewrite compare_segments_nil_l in *.
    destruct l3 as [|c l3].
    + exists 0. split; [done|]. split; [lia|].
      destruct l2 as [|b l2].
      * injection H12 as <-. injection H23 as <-. lia.
      * rewrite compare_segments_nil_r in H23. injection H23 as <-. lia.
    + exists (-1). split; [done|]. split; lia.
  - destruct P2 as [|b l2 Pb P2]; [injection H12 as <-; lia|].
    destruct P3 as [|c l3 Pc P3]; [injection H23 as <-; lia|].
    rewrite compare_segments_cons in *.
    apply bind_Ok in H12 as (o1 & E1 & H12).
    apply bind_Ok in H23 as (o2 & E2 & H23).
    assert (o1 <> Return 1) as N1
      by (intros ->; injection H12 as <-; lia).
    assert (o2 <> Return 1) as N2
      by (intros ->; injection H23 as <-; lia).
    destruct (compare_pair_trans a b c o1 o2 Pa Pb Pc E1 E2 N1 N2)
      as (E3 & N3 & Hless).
    rewrite E3. simpl.
    destruct o1 as [r1|]; simpl in *.
    + assert (r1 = -1) as -> by (injection H12 as <-;
        destruct (compare_pair_range _ _ _ E1); [done | lia]).
      exists (-1). split; [done|]. split; lia.
    + destruct o2 as [r2|]; simpl in *.
      * assert (r2 = -1) as -> by (injection H23 as <-;
          destruct (compare_pair_range _ _ _ E2); [done | lia]).
        exists (-1). split; [done|]. split; lia.
      * by apply (IH l2 l3 x y).
Qed.

(** X4. [_compare_version_strings] is transitive: when [v1] is not above
    [v2] and [v2] is not above [v3], comparing [v1] with [v3] returns, and
    [v1] is not above [v3]; it is below as soon as one of the two steps is. *)
Theorem compare_transitive v1 v2 v3 x y :
  _compare_version_strings v1 v2 = Ok x ->
  _compare_version_strings v2 v3 = Ok y ->
  x <= 0 -> y <= 0 ->
  exists z, _compare_version_strings v1 v3 = Ok z /\ z <= 0
            /\ (x < 0 \/ y < 0 -> z < 0).
Proof.
  apply compare_segments_trans; apply split_pure.
Qed.

Lemma compare_transitive_witness :
  exists z, _compare_version_strings "1.0" "1.0.1" = Ok z /\ z <= 0
            /\ (-1 < 0 \/ -1 < 0 -> z < 0).
Proof.
  apply (compare_transitive "1.0" "1.0.rc1" "1.0.1" (-1) (-1));
    [reflexivity | reflexivity | lia | lia].
Defined.

(** *** Separators *)

Lemma list_ascii_app s t :
  list_ascii_of_string (s +:+ t)
  = list_ascii_of_string s ++ list_ascii_of_string t.
Proof.
  induction s as [|c s IH]; [done|].
  change (String c s +:+ t) with (String c (s +:+ t)). simpl. by rewrite IH.
Qed.

Lemma split_step_prepend done st c :
  split_step (prepend done st) c = prepend done (split_step st c).
Proof.
  unfold split_step, flush_if, prepend. simpl.
  destruct (char_isdigit c); [|destruct (char_isalpha c)].
  - destruct (_ && nonempty (current st)); simpl; by rewrite ?app_assoc.
  - destruct (_ && nonempty (current st)); simpl; by rewrite ?app_assoc.
  - destruct (nonempty (current st)); simpl; by rewrite ?app_assoc.
Qed.

Lemma fold_prepend done l st :
  fold_left split_step l (prepend done st)
  = prepend done (fold_left split_step l st).
Proof.
  revert st. induction l as [|c l IH]; intros st; simpl; [done|].
  by rewrite split_step_prepend, IH.
Qed.

Lemma split_finish_prepend done st :
  split_finish (prepend done st) = done ++ split_finish st.
Proof.
  unfold split_finish, prepend. simpl.
  destruct (nonempty (current st)); [by rewrite app_assoc | done].
Qed.

Lemma split_step_flush st sep :
  is_separator sep = true ->
  split_step st sep = prepend (split_finish st) split_init.
Proof.
  intros H. rewrite (split_step_separator st sep H).
  unfold flush_if, split_finish, prepend, split_init. simpl.
  destruct (nonempty (current st)) eqn:E; simpl; rewrite app_nil_r; [done|].
  by rewrite (nonempty_false _ E).
Qed.

Lemma split_cut c v w :
  is_separator c = true ->
  _split_version_string (v +:+ String c w)
  = _split_version_string v ++ _split_version_string w.
Proof.
  intros Hc. unfold _split_version_string.
  rewrite list_ascii_app, fold_left_app. simpl.
  rewrite (split_step_flush _ c Hc), fold_prepend.
  apply split_finish_prepend.
Qed.

(** X5. A separator cuts a version in two: the segments of [v], then the
    segments of [w]; which separator it is does not matter. *)
Theorem split_at_separator sep v w :
  is_separator sep = true ->
  _split_version_string (v +:+ String sep w)
  = _split_version_string v ++ _split_version_string w
  /\ (forall sep' x, is_separator sep' = true ->
        _compare_version_strings (v +:+ String sep' w) x
        = _compare_version_strings (v +:+ String sep w) x).
Proof.
  intros Hsep. split; [by apply split_cut|].
  intros sep' x Hsep'. unfold _compare_version_strings.
  by rewrite (split_cut sep v w Hsep), (split_cut sep' v w Hsep').
Qed.

Lemma split_at_separator_witness :
  _split_version_string "5.14.0-427.13"
  = _split_version_string "5.14.0" ++ _split_version_string "427.13"
  /\ (forall sep' x, is_separator sep' = true ->
        _compare_version_strings ("5.14.0" +:+ String sep' "427.13") x
        = _compare_version_strings "5.14.0-427.13" x).
Proof. apply (split_at_separator "-" "5.14.0" "427.13"). reflexivity. Defined.

Lemma walk_self_prefix l extra :
  walk l l = Ok Continue ->
  walk l (l ++ extra) = Ok Continue /\ walk (l ++ extra) l = Ok Continue.
Proof.
  intros H. split.
  - rewrite <- (app_nil_r l) at 1. rewrite (walk_app l l [] extra); done.
  - rewrite <- (app_nil_r l) at 2. rewrite (walk_app l l extra []); [|done..].
    by destruct extra.
Qed.

(** X6. A version with one more component is newer: when [v] compares equal
    to itself, [v] followed by a separator and by a [w] that has a digit or
    a letter is above [v]. *)
Theorem longer_version_is_newer v sep w :
  _compare_version_strings v v = Ok 0 ->
  is_separator sep = true ->
  all_chars is_separator w = false ->
  _compare_version_strings v (v +:+ String sep w) = Ok (-1)
  /\ _compare_version_strings (v +:+ String sep w) v = Ok 1.
Proof.
  intros Hrefl Hsep Hw. unfold _compare_version_strings in *.
  rewrite (split_cut sep v w Hsep).
  pose proof (split_alnum w Hw) as Hne.
  set (l := _split_version_string v) in *.
  set (extra := _split_version_string w) in *.
  assert (walk l l = Ok Continue) as Hwalk.
  { unfold compare_segments in Hrefl.
    destruct (walk l l) as [[r|]|e] eqn:E; [|done|done].
    simpl in Hrefl. injection Hrefl as ->.
    destruct (walk_range _ _ _ E); lia. }
  destruct (walk_self_prefix l extra Hwalk) as [H1 H2].
  assert (length l < length (l ++ extra))%nat as Hlen.
  { rewrite length_app. destruct extra; [done|]. simpl. lia. }
  unfold compare_segments. rewrite H1, H2. simpl. split.
  - by destruct (Nat.ltb_spec (length l) (length (l ++ extra))); [|lia].
  - destruct (Nat.ltb_spec (length (l ++ extra)) (length l)); [lia|].
    by destruct (Nat.ltb_spec (length l) (length (l ++ extra))); [|lia].
Qed.

Lemma longer_version_is_newer_witness :
  _compare_version_strings "1.0" "1.0.1" = Ok (-1)
  /\ _compare_version_strings "1.0.1" "1.0" = Ok 1.
Proof.
  apply (longer_version_is_newer "1.0" "." "1"); reflexivity.
Defined.

(** *** Numbers *)

Lemma fold_digits s cur :
  all_chars is_ascii_digit s = true ->
  fold_left split_step (list_ascii_of_string s)
    {| segments := []; current := cur; current_is_digit := Some true |}
  = {| segments := []; current := cur +:+ s; current_is_digit := Some true |}.
Proof.
  revert cur. induction s as [|c s IH]; intros cur Hs; simpl.
  - by rewrite RegexFacts.app_nil_r.
  - simpl in Hs. apply andb_true_iff in Hs as [Hc Hs].
    unfold split_step at 2. rewrite (ascii_digit_isdigit c Hc).
    unfold flush_if. simpl. rewrite (IH _ Hs).
    by rewrite RegexFacts.app_snoc.
Qed.

Lemma split_digits s :
  nonempty s = true -> all_chars is_ascii_digit s = true ->
  _split_version_string s = [s].
Proof.
  destruct s as [|c s]; [done|]. intros _ Hs. simpl in Hs.
  apply andb_true_iff in Hs as [Hc Hs].
  unfold _split_version_string. simpl.
  unfold split_step at 2. rewrite (ascii_digit_isdigit c Hc).
  unfold flush_if. simpl. rewrite (fold_digits s _ Hs). done.
Qed.

(** X7. Two runs of ASCII digits of at most [int_max_str_digits] digits
    compare by value, not as text: the result is the sign of the difference
    of the two numbers. When one of the runs is longer, the comparison
    raises [ValueError]. *)
Theorem numbers_compare_by_value d1 d2 :
  nonempty d1 = true -> all_chars is_ascii_digit d1 = true ->
  nonempty d2 = true -> all_chars is_ascii_digit d2 = true ->
  (short d1 -> short d2 ->
   exists n1 n2,
     int d1 = Ok n1 /\ int d2 = Ok n2
     /\ _compare_version_strings d1 d2 = Ok (Z.sgn (n1 - n2)))
  /\ (~ short d1 \/ ~ short d2 ->
      _compare_version_strings d1 d2 = Raise ValueError).
Proof.
  intros N1 A1 N2 A2.
  assert (isdigit d1 = true) as D1.
  { unfold isdigit. rewrite N1. simpl.
    by apply (all_chars_impl is_ascii_digit char_isdigit d1 ascii_digit_isdigit). }
  assert (isdigit d2 = true) as D2.
  { unfold isdigit. rewrite N2. simpl.
    by apply (all_chars_impl is_ascii_digit char_isdigit d2 ascii_digit_isdigit). }
  unfold _compare_version_strings, compare_segments.
  rewrite (split_digits d1 N1 A1), (split_digits d2 N2 A2). simpl.
  split.
  - intros L1 L2.
    destruct (int_digits_total d1 N1 A1 L1) as (n1 & E1 & _).
    destruct (int_digits_total d2 N2 A2 L2) as (n2 & E2 & _).
    exists n1, n2. split; [done|]. split; [done|].
    rewrite (compare_pair_digits d1 d2 n1 n2 D1 D2 E1 E2).
    destruct (Z.ltb_spec n1 n2); simpl.
    + f_equal. symmetry. apply Z.sgn_neg. lia.
    + destruct (Z.gtb_spec n1 n2); simpl.
      * f_equal. symmetry. apply Z.sgn_pos. lia.
      * f_equal. replace (n1 - n2) with 0 by lia. done.
  - intros Hlong. unfold compare_pair. rewrite D1, D2. simpl.
    destruct (int_cases d1) as [[n1 E1] | E1]; rewrite E1; simpl; [|done].
    destruct Hlong as [L1 | L2].
    + by rewrite (int_digits_long d1 A1 L1) in E1.
    + by rewrite (int_digits_long d2 A2 L2).
Qed.

Lemma numbers_compare_by_value_witness :
  exists n1 n2,
    int "9" = Ok n1 /\ int "010" = Ok n2
    /\ _compare_version_strings "9" "010" = Ok (Z.sgn (n1 - n2)).
Proof.
  destruct (numbers_compare_by_value "9" "010") as [H _]; try reflexivity.
  apply H; by vm_compute.
Defined.

End OrderFacts.

(** ** Records of epoch, version and release *)

Module RecordFacts.
Import Py RpmUtils Notions PyFacts SplitFacts CompareFacts OrderFacts.

(** X8. A strictly greater epoch decides the comparison, whatever the
    versions and releases are, even when they are missing or are not
    strings. *)
Theorem epoch_dominates (a b : gmap string pyval) x y :
  normalize_epoch (get a "epoch" (PInt 0)) = Ok (PInt x) ->
  normalize_epoch (get b "epoch" (PInt 0)) = Ok (PInt y) ->
  (x < y -> compare_versions a b = Ok (-1) /\ is_update_available a b = Ok true)
  /\ (y < x -> compare_versions a b = Ok 1 /\ is_update_available a b = Ok false).
Proof.
  intros Ha Hb. unfold is_update_available, compare_versions.
  rewrite Ha, Hb. simpl. unfold gt, lt. split; intros Hlt.
  - by destruct (Z.ltb_spec x y); [|lia].
  - destruct (Z.ltb_spec x y); [lia|]. simpl.
    by destruct (Z.ltb_spec y x); [|lia].
Qed.

Lemma epoch_dominates_witness :
  let a : gmap string pyval :=
    {[ "epoch" := PStr "(none)"; "version" := PStr "9.9" ]} in
  let b : gmap string pyval := {[ "epoch" := PInt 2; "version" := PNone ]} in
  compare_versions a b = Ok (-1) /\ is_update_available a b = Ok true.
Proof.
  intros a b.
  destruct (epoch_dominates a b 0 2) as [H _]; [reflexivity | reflexivity |].
  apply H. lia.
Defined.

Lemma normalize_zero_epoch s :
  zero_epoch s -> normalize_epoch (PStr s) = Ok (PInt 0).
Proof. by intros [-> | [-> | ->]]. Qed.

Lemma get_insert_epoch (a : gmap string pyval) e key default :
  key <> "epoch" -> get (<["epoch" := e]> a) key default = get a key default.
Proof. intros H. unfold get. by rewrite lookup_insert_ne. Qed.

Lemma get_delete_epoch (a : gmap string pyval) key default :
  key <> "epoch" -> get (delete "epoch" a) key default = get a key default.
Proof. intros H. unfold get. by rewrite lookup_delete_ne. Qed.

Lemma get_insert_same (a : gmap string pyval) key e default :
  get (<[key := e]> a) key default = e.
Proof. unfold get. by rewrite lookup_insert_eq. Qed.

Lemma get_delete_same (a : gmap string pyval) key default :
  get (delete key a) key default = default.
Proof. unfold get. by rewrite lookup_delete_eq. Qed.

(** X9. An epoch written ["(none)"], [""] or ["0"] counts as no epoch at
    all: on either side of [compare_versions] the record compares as the
    record without the key, and [format_evr] formats it as the integer 0. *)
Theorem zero_epoch_is_no_epoch s (a b : gmap string pyval) (v r : pyval) :
  zero_epoch s ->
  compare_versions (<["epoch" := PStr s]> a) b
  = compare_versions (delete "epoch" a) b
  /\ compare_versions b (<["epoch" := PStr s]> a)
     = compare_versions b (delete "epoch" a)
  /\ format_evr (PStr s) v r = format_evr (PInt 0) v r.
Proof.
  intros Hs. unfold compare_versions, format_evr.
  rewrite !get_insert_epoch, !get_delete_epoch by done.
  rewrite !get_insert_same, !get_delete_same.
  by rewrite !(normalize_zero_epoch s Hs).
Qed.

Lemma zero_epoch_is_no_epoch_witness :
  let a : gmap string pyval := {[ "version" := PStr "1.0" ]} in
  let b : gmap string pyval := {[ "epoch" := PStr "1" ]} in
  compare_versions (<["epoch" := PStr "(none)"]> a) b
  = compare_versions (delete "epoch" a) b
  /\ compare_versions b (<["epoch" := PStr "(none)"]> a)
     = compare_versions b (delete "epoch" a)
  /\ format_evr (PStr "(none)") (PStr "1.0") (PStr "1")
     = format_evr (PInt 0) (PStr "1.0") (PStr "1").
Proof.
  intros a b.
  apply (zero_epoch_is_no_epoch "(none)" a b (PStr "1.0") (PStr "1")).
  by left.
Defined.

Lemma compare_pyval_self (x : pyval) c :
  (v1 ← as_str x; v2 ← as_str x; _compare_version_strings v1 v2) = Ok c ->
  c = 0.
Proof.
  destruct x as [| | | |s]; try done. simpl.
  unfold _compare_version_strings.
  destruct (compare_segments_refl _ (split_pure s)) as [-> | ->];
    [by intros [= <-] | done].
Qed.

Lemma compare_versions_self (d : gmap string pyval) c :
  compare_versions d d = Ok c -> c = 0.
Proof.
  unfold compare_versions. intros H.
  apply bind_Ok in H as (x & Hx & H). rewrite Hx in H. simpl in H.
  apply bind_Ok in H as (less & Hless & H).
  assert (less = false) as ->.
  { destruct (lt_swap x x) as [[E _] | (p & q & Ep & Eq & Hpq)];
      [congruence|].
    assert (p = less) as -> by congruence.
    assert (q = less) as -> by congruence.
    by destruct less. }
  unfold gt in H. rewrite Hless in H. simpl in H.
  apply bind_Ok in H as (vc & Hv & H).
  apply compare_pyval_self in Hv as ->. simpl in H.
  by apply compare_pyval_self in H.
Qed.

(** X10. A record is never an update of itself: compared with itself it
    gives 0 whenever the comparison returns. *)
Theorem no_update_to_itself (d : gmap string pyval) :
  (forall c, compare_versions d d = Ok c -> c = 0)
  /\ is_update_available d d <> Ok true.
Proof.
  split; [apply compare_versions_self|].
  unfold is_update_available. intros H.
  apply bind_Ok in H as (c & Hc & H).
  apply compare_versions_self in Hc as ->. done.
Qed.

Lemma no_update_to_itself_witness :
  compare_versions {[ "version" := PStr "5.1.8" ]} {[ "version" := PStr "5.1.8" ]}
  = Ok 0.
Proof.
  destruct (no_update_to_itself {[ "version" := PStr "5.1.8" ]}) as [H _].
  assert (exists c, compare_versions {[ "version" := PStr "5.1.8" ]}
                      {[ "version" := PStr "5.1.8" ]} = Ok c) as [c Hc]
    by (by exists 0).
  rewrite Hc. f_equal. by apply H.
Defined.

End RecordFacts.

(** ** The ordering of [RPMVersion] *)

Module ModelFacts.
Import Py RpmUtils Notions PyFacts SplitFacts CompareFacts OrderFacts.

Lemma compare_versions_evr_record x y :
  compare_versions (evr_record x) (evr_record y)
  = (if epoch x <? epoch y then Ok (-1)
     else if epoch y <? epoch x then Ok 1
     else
       version_cmp ← _compare_version_strings (version x) (version y);
       if negb (version_cmp =? 0) then Ok version_cmp
       else _compare_version_strings (release x) (release y)).
Proof.
  unfold compare_versions, evr_record, get.
  rewrite !CalculatorFacts.lookup_evr_dict_epoch,
    !CalculatorFacts.lookup_evr_dict_version,
    !CalculatorFacts.lookup_evr_dict_release.
  simpl. destruct (epoch x <? epoch y); [done|]. simpl.
  by destruct (epoch y <? epoch x).
Qed.

(** X11. For two versions of one package, the expression [x < y] on
    [RPMVersion] objects and [compare_versions] on their epoch, version and
    release agree: [x < y] is true exactly when [compare_versions] is
    negative, and one raises when the other does. *)
Theorem lt_agrees_with_compare_versions x y :
  name x = name y -> arch x = arch y ->
  lt_op x y = (fun c => c <? 0) <$> compare_versions (evr_record x) (evr_record y).
Proof.
  intros Hn Ha. rewrite compare_versions_evr_record.
  unfold lt_op, __lt__.
  rewrite (bool_decide_eq_true_2 _ Hn), (bool_decide_eq_true_2 _ Ha). simpl.
  destruct (decide (epoch x = epoch y)) as [He | He].
  - rewrite (bool_decide_eq_true_2 _ He). simpl.
    rewrite He, Z.ltb_irrefl.
    destruct (_compare_version_strings (version x) (version y)) as [vc|e];
      [|done].
    simpl. destruct (negb (vc =? 0)); [done|].
    by destruct (_compare_version_strings (release x) (release y)).
  - rewrite (bool_decide_eq_false_2 _ He). simpl.
    destruct (Z.ltb_spec (epoch x) (epoch y)); [done|].
    by destruct (Z.ltb_spec (epoch y) (epoch x)); [|lia].
Qed.

Lemma lt_agrees_with_compare_versions_witness :
  let x := {| name := "bash"; epoch := 0; version := "5.1.8";
              release := "6.el9"; arch := "x86_64" |} in
  let y := {| name := "bash"; epoch := 0; version := "5.1.8";
              release := "9.el9"; arch := "x86_64" |} in
  lt_op x y = (fun c => c <? 0) <$> compare_versions (evr_record x) (evr_record y).
Proof.
  intros x y. apply (lt_agrees_with_compare_versions x y); reflexivity.
Defined.

Lemma eq_true_iff x y : __eq__ x y = true <-> x = y.
Proof.
  unfold __eq__. rewrite !andb_true_iff, !bool_decide_eq_true.
  destruct x, y; simpl. split.
  - intros [[[[-> ->] ->] ->] ->]. done.
  - intros [= -> -> -> -> ->]. done.
Qed.

Lemma lt_op_true x y :
  lt_op x y = Ok true ->
  name x = name y /\ arch x = arch y
  /\ (epoch x < epoch y
      \/ (epoch x = epoch y
          /\ exists vc, _compare_version_strings (version x) (version y) = Ok vc
             /\ (vc < 0
                 \/ (vc = 0 /\ exists rc,
                       _compare_version_strings (release x) (release y) = Ok rc
                       /\ rc < 0)))).
Proof.
  unfold lt_op, __lt__.
  destruct (decide (name x = name y)) as [Hn | Hn];
    [rewrite (bool_decide_eq_true_2 _ Hn)
    |rewrite (bool_decide_eq_false_2 _ Hn)]; simpl.
  2:{ unfold __gt__, __lt__.
      assert (name y <> name x) as Hn' by congruence.
      rewrite (bool_decide_eq_false_2 _ Hn'). done. }
  destruct (decide (arch x = arch y)) as [Ha | Ha];
    [rewrite (bool_decide_eq_true_2 _ Ha)
    |rewrite (bool_decide_eq_false_2 _ Ha)]; simpl.
  2:{ unfold __gt__, __lt__.
      assert (arch y <> arch x) as Ha' by congruence.
      rewrite (bool_decide_eq_false_2 _ Ha'), orb_true_r. done. }
  destruct (decide (epoch x = epoch y)) as [He | He];
    [rewrite (bool_decide_eq_true_2 _ He)
    |rewrite (bool_decide_eq_false_2 _ He)]; simpl.
  - destruct (_compare_version_strings (version x) (version y)) as [vc|e];
      [|done].
    simpl. destruct (Z.eqb_spec vc 0) as [-> | Hvc]; simpl.
    + destruct (_compare_version_strings (release x) (release y)) as [rc|e];
        [|done].
      simpl. intros [= Hrc]. apply Z.ltb_lt in Hrc.
      do 2 (split; [done|]). right. split; [done|]. exists 0.
      split; [done|]. right. split; [done|]. by exists rc.
    + intros [= Hlt]. apply Z.ltb_lt in Hlt.
      do 2 (split; [done|]). right. split; [done|]. exists vc. by auto.
  - intros [= Hlt]. apply Z.ltb_lt in Hlt. by auto.
Qed.

(** X12. The order of [RPMVersion] is strict: when [x < y] is true the two
    are different, [__eq__] is false, and [y < x] is false. *)
Theorem lt_is_strict x y :
  lt_op x y = Ok true ->
  x <> y /\ __eq__ x y = false /\ lt_op y x = Ok false.
Proof.
  intros H.
  assert (lt_op y x = Ok false) as Hrev.
  { destruct (lt_op_true x y H) as (Hn & Ha & Hcases).
    unfold lt_op, __lt__.
    rewrite (bool_decide_eq_true_2 (name y = name x)) by done.
    rewrite (bool_decide_eq_true_2 (arch y = arch x)) by done. simpl.
    destruct Hcases as [Hlt | (He & vc & Hv & Hcases)].
    - rewrite (bool_decide_eq_false_2 (epoch y = epoch x)) by lia. simpl.
      by destruct (Z.ltb_spec (epoch y) (epoch x)); [lia|].
    - rewrite (bool_decide_eq_true_2 (epoch y = epoch x)) by done. simpl.
      rewrite (compare_version_strings_antisym (version x) (version y)), Hv.
      simpl. destruct Hcases as [Hlt | (-> & rc & Hr & Hlt)].
      + destruct (Z.eqb_spec (- vc) 0); [lia|]. simpl.
        by destruct (Z.ltb_spec (- vc) 0); [lia|].
      + simpl.
        rewrite (compare_version_strings_antisym (release x) (release y)), Hr.
        simpl. by destruct (Z.ltb_spec (- rc) 0); [lia|]. }
  assert (x <> y) as Hne by (intros ->; congruence).
  split; [done|]. split; [|done].
  destruct (__eq__ x y) eqn:E; [|done]. by apply eq_true_iff in E.
Qed.

Lemma lt_is_strict_witness :
  let x := {| name := "openssl"; epoch := 1; version := "3.0.7";
              release := "24.el9"; arch := "x86_64" |} in
  let y := {| name := "openssl"; epoch := 2; version := "3.0.7";
              release := "24.el9"; arch := "x86_64" |} in
  x <> y /\ __eq__ x y = false /\ lt_op y x = Ok false.
Proof. intros x y. apply (lt_is_strict x y). reflexivity. Defined.

End ModelFacts.

(** ** What [parse_nevra] accepts and returns *)

Module ParseFacts.
Import Py RpmUtils Notions PyFacts RegexFacts NevraFacts.

(** What a group has taken is made of characters of its class. *)
Lemma greedy_some_class {R} class (k : string -> string -> option R) cap s r :
  greedy class k cap s = Some r ->
  exists v t, s = v +:+ t /\ all_chars class v = true
              /\ nonempty (cap +:+ v) = true /\ k (cap +:+ v) t = Some r.
Proof.
  revert cap. induction s as [|c s IH]; intros cap H; simpl in H.
  - exists "", "". rewrite !app_nil_r. destruct (nonempty cap); done.
  - assert ((if nonempty cap then k cap (String c s) else None) = Some r ->
            exists v t, String c s = v +:+ t /\ all_chars class v = true
                        /\ nonempty (cap +:+ v) = true
                        /\ k (cap +:+ v) t = Some r) as Hhere.
    { intros Hk. exists "", (String c s). rewrite !app_nil_r.
      destruct (nonempty cap); done. }
    destruct (class c) eqn:Hc; [|by apply Hhere].
    destruct (greedy class k (cap +:+ String c "") s) as [r'|] eqn:E;
      [|by apply Hhere].
    injection H as ->.
    destruct (IH _ E) as (v & t & -> & Hv & Hne & Hk).
    exists (String c v), t. rewrite app_cons. split; [done|].
    rewrite app_snoc in Hne, Hk. simpl. by rewrite Hc, Hv.
Qed.

Lemma match_group_inv class rest s caps :
  match_items (Group class :: rest) s = Some caps ->
  exists u t caps',
    s = u +:+ t /\ caps = u :: caps' /\ nonempty u = true
    /\ all_chars class u = true /\ match_items rest t = Some caps'.
Proof.
  simpl. intros H.
  apply greedy_some_class in H as (u & t & -> & Hu & Hne & H).
  rewrite app_nil_l in Hne, H.
  destruct (match_items rest t) as [caps'|] eqn:E; [|done].
  simpl in H. injection H as <-. by exists u, t, caps'.
Qed.

Lemma match_lit_inv c rest s caps :
  match_items (Lit c :: rest) s = Some caps ->
  exists t, s = String c t /\ match_items rest t = Some caps.
Proof.
  simpl. destruct s as [|c' s]; [done|].
  destruct (bool_decide_reflect (c' = c)) as [-> | _]; [|done].
  intros H. by exists s.
Qed.

Lemma match_end_inv s caps : match_items [] s = Some caps -> caps = [].
Proof. simpl. destruct (at_end s); [by intros [= <-] | done]. Qed.

Lemma with_epoch_inv s caps :
  match_items pattern_with_epoch s = Some caps ->
  exists N E V R A,
    caps = [N; E; V; R; A]
    /\ (nonempty N = true /\ free_of newline N)
    /\ (nonempty E = true /\ all_chars digit E = true)
    /\ (nonempty V = true /\ free_of "-" V)
    /\ (nonempty R = true /\ free_of "." R)
    /\ (nonempty A = true /\ free_of newline A)
    /\ (strlen E <= strlen s)%N.
Proof.
  unfold pattern_with_epoch. intros H.
  apply match_group_inv in H as (N & t & caps1 & -> & -> & HN1 & HN2 & H).
  apply match_lit_inv in H as (t1 & -> & H).
  apply match_group_inv in H as (E & t2 & caps2 & -> & -> & HE1 & HE2 & H).
  apply match_lit_inv in H as (t3 & -> & H).
  apply match_group_inv in H as (V & t4 & caps3 & -> & -> & HV1 & HV2 & H).
  apply match_lit_inv in H as (t5 & -> & H).
  apply match_group_inv in H as (R & t6 & caps4 & -> & -> & HR1 & HR2 & H).
  apply match_lit_inv in H as (t7 & -> & H).
  apply match_group_inv in H as (A & t8 & caps5 & -> & -> & HA1 & HA2 & H).
  apply match_end_inv in H as ->.
  exists N, E, V, R, A. do 6 (split; [done|]).
  rewrite OrderFacts.strlen_app. simpl. rewrite OrderFacts.strlen_app. lia.
Qed.

Lemma without_epoch_inv s caps :
  match_items pattern_without_epoch s = Some caps ->
  exists N V R A,
    caps = [N; V; R; A]
    /\ (nonempty N = true /\ free_of newline N)
    /\ (nonempty V = true /\ free_of "-" V)
    /\ (nonempty R = true /\ free_of "." R)
    /\ (nonempty A = true /\ free_of newline A).
Proof.
  unfold pattern_without_epoch. intros H.
  apply match_group_inv in H as (N & t & caps1 & -> & -> & HN1 & HN2 & H).
  apply match_lit_inv in H as (t1 & -> & H).
  apply match_group_inv in H as (V & t4 & caps3 & -> & -> & HV1 & HV2 & H).
  apply match_lit_inv in H as (t5 & -> & H).
  apply match_group_inv in H as (R & t6 & caps4 & -> & -> & HR1 & HR2 & H).
  apply match_lit_inv in H as (t7 & -> & H).
  apply match_group_inv in H as (A & t8 & caps5 & -> & -> & HA1 & HA2 & H).
  apply match_end_inv in H as ->.
  by exists N, V, R, A.
Qed.

(** What [parse_nevra] does on every string: it returns a version whose
    fields are as the patterns cut them, or [None], or [int] raises on an
    epoch of too many digits. *)
Lemma parse_nevra_cases s :
  parse_nevra s = Ok None
  \/ (exists x,
        parse_nevra s = Ok (Some x)
        /\ (nonempty (name x) = true /\ free_of newline (name x))
        /\ 0 <= epoch x
        /\ (nonempty (version x) = true /\ free_of "-" (version x))
        /\ (nonempty (release x) = true /\ free_of "." (release x))
        /\ (nonempty (arch x) = true /\ free_of newline (arch x)))
  \/ (parse_nevra s = Raise ValueError /\ ~ short s).
Proof.
  unfold parse_nevra.
  destruct (match_items pattern_with_epoch s) as [caps|] eqn:E1.
  - destruct (with_epoch_inv s caps E1)
      as (N & E & V & R & A & -> & HN & [HE1 HE2] & HV & HR & HA & Hlen).
    rewrite (int_digits_unfold E HE2).
    destruct (OrderFacts.parse_digits_total 0 false E HE2) as (z & -> & Hz);
      [lia | by right |].
    destruct (N.leb_spec (strlen E) int_max_str_digits) as [Hle | Hgt].
    + right; left. eexists. split; [reflexivity|]. done.
    + right; right. split; [done|]. unfold short. lia.
  - destruct (match_items pattern_without_epoch s) as [caps|] eqn:E2;
      [|by left].
    destruct (without_epoch_inv s caps E2)
      as (N & V & R & A & -> & HN & HV & HR & HA).
    right; left. eexists. split; [reflexivity|]. done.
Qed.

(** X13. [parse_nevra] returns or raises [ValueError], and it returns on
    every string of at most [int_max_str_digits] characters; in a version
    that it returns no field is empty, the epoch is not negative, the
    version has no hyphen, the release has no dot, and the name and the arch
    have no line break. *)
Theorem parse_nevra_returns s :
  ((exists r, parse_nevra s = Ok r) \/ parse_nevra s = Raise ValueError)
  /\ (short s -> exists r, parse_nevra s = Ok r)
  /\ (forall x, parse_nevra s = Ok (Some x) ->
        (nonempty (name x) = true /\ free_of newline (name x))
        /\ 0 <= epoch x
        /\ (nonempty (version x) = true /\ free_of "-" (version x))
        /\ (nonempty (release x) = true /\ free_of "." (release x))
        /\ (nonempty (arch x) = true /\ free_of newline (arch x))).
Proof.
  destruct (parse_nevra_cases s) as [E | [(x & E & H) | [E Hlong]]];
    rewrite E.
  - split; [by eauto|]. split; [by eauto | done].
  - split; [by eauto|]. split; [by eauto|]. by intros x' [= <-].
  - split; [by right|]. split; [done | done].
Qed.

Lemma parse_nevra_returns_witness :
  let x := {| name := "python3-rpm"; epoch := 0; version := "4.16.1.3";
              release := "27"; arch := "el9.x86_64" |} in
  (exists r, parse_nevra "python3-rpm-4.16.1.3-27.el9.x86_64" = Ok r)
  /\ (nonempty (name x) = true /\ free_of newline (name x))
  /\ 0 <= epoch x
  /\ (nonempty (version x) = true /\ free_of "-" (version x))
  /\ (nonempty (release x) = true /\ free_of "." (release x))
  /\ (nonempty (arch x) = true /\ free_of newline (arch x)).
Proof.
  intros x.
  destruct (parse_nevra_returns "python3-rpm-4.16.1.3-27.el9.x86_64")
    as (_ & Hshort & H).
  split; [apply Hshort; by vm_compute | apply (H x); reflexivity].
Defined.

(** X14. A string with fewer than two hyphens, or without a dot, is not a
    NEVRA: [parse_nevra] returns [None]. *)
Theorem parse_nevra_rejects s :
  (count "-" s < 2)%nat \/ count "." s = 0%nat -> parse_nevra s = Ok None.
Proof.
  intros H. unfold parse_nevra.
  destruct (match_items pattern_with_epoch s) as [caps|] eqn:E1.
  { pose proof (match_count "-" _ _ _ E1) as H1.
    pose proof (match_count "." _ _ _ E1) as H2.
    change (literals "-" pattern_with_epoch) with 2%nat in H1.
    change (literals "." pattern_with_epoch) with 1%nat in H2. lia. }
  destruct (match_items pattern_without_epoch s) as [caps|] eqn:E2; [|done].
  pose proof (match_count "-" _ _ _ E2) as H1.
  pose proof (match_count "." _ _ _ E2) as H2.
  change (literals "-" pattern_without_epoch) with 2%nat in H1.
  change (literals "." pattern_without_epoch) with 1%nat in H2. lia.
Qed.

Lemma parse_nevra_rejects_witness : parse_nevra "invalid-string" = Ok None.
Proof.
  apply (parse_nevra_rejects "invalid-string"). left. vm_compute. lia.
Defined.

(** *** [parse_nevra] after [nvra] *)

Section PlainRoundTrip.
Variables (N V R A : string).
Hypothesis name_nonempty : nonempty N = true.
Hypothesis name_one_line : free_of newline N.
Hypothesis name_no_colon : free_of ":" N.
Hypothesis version_nonempty : nonempty V = true.
Hypothesis version_no_hyphen : free_of "-" V.
Hypothesis version_no_colon : free_of ":" V.
Hypothesis release_nonempty : nonempty R = true.
Hypothesis release_no_hyphen : free_of "-" R.
Hypothesis release_no_dot : free_of "." R.
Hypothesis release_no_colon : free_of ":" R.
Hypothesis arch_nonempty : nonempty A = true.
Hypothesis arch_no_hyphen : free_of "-" A.
Hypothesis arch_one_line : free_of newline A.
Hypothesis arch_no_colon : free_of ":" A.

Lemma plain_tail_matches :
  match_items after_name_plain (nvra_tail V R A) = Some [V; R; A].
Proof.
  unfold after_name_plain, nvra_tail. rewrite match_lit.
  apply match_group; [done | done | by vm_compute |].
  rewrite match_lit.
  apply match_group; [done | done | by vm_compute |].
  rewrite match_lit. rewrite <- (app_nil_r A) at 1.
  apply match_group; done.
Qed.

Lemma plain_tail_hyphens : count "-" (nvra_tail V R A) = 2%nat.
Proof.
  unfold nvra_tail.
  rewrite count_cons_eq, count_app, count_cons_eq, count_app,
    (count_cons_ne "-" ".") by done.
  by rewrite !free_of_count.
Qed.

Lemma plain_longer_name_fails v t' :
  v <> "" -> nvra_tail V R A = v +:+ t' ->
  match_items after_name_plain t' = None.
Proof.
  intros Hv Ht.
  destruct (match_items after_name_plain t') as [caps|] eqn:Hm; [|done].
  apply (match_count "-") in Hm.
  change (literals "-" after_name_plain) with 2%nat in Hm.
  pose proof plain_tail_hyphens as Hc. rewrite Ht, count_app in Hc.
  destruct v as [|c v]; [done|].
  unfold nvra_tail in Ht. rewrite app_cons in Ht. injection Ht as <- _.
  rewrite count_cons_eq in Hc. lia.
Qed.

Lemma nvra_matches_plain :
  match_items pattern_without_epoch (N +:+ nvra_tail V R A)
  = Some [N; V; R; A].
Proof.
  change (match_items pattern_without_epoch ?s) with
    (greedy dot (fun cap s' => cons cap <$> match_items after_name_plain s')
       "" s).
  apply greedy_longest.
  - exact name_one_line.
  - by rewrite app_nil_l.
  - by rewrite app_nil_l, plain_tail_matches.
  - intros v t' Hv Ht _. by rewrite (plain_longer_name_fails v t' Hv Ht).
Qed.

Lemma nvra_has_no_colon : count ":" (N +:+ nvra_tail V R A) = 0%nat.
Proof.
  unfold nvra_tail.
  rewrite count_app, (count_cons_ne ":" "-"), count_app,
    (count_cons_ne ":" "-"), count_app, (count_cons_ne ":" ".") by done.
  by rewrite !free_of_count.
Qed.

Lemma nvra_not_with_epoch :
  match_items pattern_with_epoch (N +:+ nvra_tail V R A) = None.
Proof.
  destruct (match_items pattern_with_epoch _) as [caps|] eqn:Hm; [|done].
  apply (match_count ":") in Hm.
  change (literals ":" pattern_with_epoch) with 1%nat in Hm.
  rewrite nvra_has_no_colon in Hm. lia.
Qed.

Lemma parse_nevra_of_nvra :
  parse_nevra (N +:+ "-" +:+ V +:+ "-" +:+ R +:+ "." +:+ A)
  = Ok (Some {| name := N; epoch := 0; version := V; release := R;
                arch := A |}).
Proof.
  change (N +:+ "-" +:+ V +:+ "-" +:+ R +:+ "." +:+ A)
    with (N +:+ nvra_tail V R A).
  unfold parse_nevra. by rewrite nvra_not_with_epoch, nvra_matches_plain.
Qed.

End PlainRoundTrip.

(** X15. [parse_nevra] gives back a version of epoch 0 from its [nvra]
    string when no field is empty or has a colon, the name and the arch have
    no line break, the version, the release and the arch have no hyphen, and
    the release has no dot. *)
Theorem parse_nvra_round_trip (x : RPMVersion) :
  epoch x = 0 ->
  nonempty (name x) = true -> free_of newline (name x) -> free_of ":" (name x) ->
  nonempty (version x) = true -> free_of "-" (version x) ->
  free_of ":" (version x) ->
  nonempty (release x) = true -> free_of "-" (release x) ->
  free_of "." (release x) -> free_of ":" (release x) ->
  nonempty (arch x) = true -> free_of "-" (arch x) ->
  free_of newline (arch x) -> free_of ":" (arch x) ->
  parse_nevra (nvra x) = Ok (Some x).
Proof.
  destruct x as [N e V R A]. simpl. intros -> **.
  by apply parse_nevra_of_nvra.
Qed.

Lemma parse_nvra_round_trip_witness :
  let x := {| name := "python3-setuptools"; epoch := 0; version := "53.0.0";
              release := "12"; arch := "noarch" |} in
  parse_nevra (nvra x) = Ok (Some x).
Proof.
  intros x. apply (parse_nvra_round_trip x); reflexivity.
Defined.

End ParseFacts.

(** ** Lines of package listings *)

Module QaFacts.
Import Py Notions PyFacts RegexFacts NevraFacts RpmQa.
Import Calculator.

Lemma split_not_nil sep s : split sep s <> [].
Proof.
  destruct s as [|c s]; simpl; [done|].
  destruct (bool_decide (c = sep)); [done|]. by destruct (split sep s).
Qed.

(** [split] gives one field more than there are separators. *)
Lemma split_length sep s : length (split sep s) = S (count sep s).
Proof.
  induction s as [|c s IH]; simpl; [done|].
  destruct (bool_decide (c = sep)); simpl; [by rewrite IH|].
  pose proof (split_not_nil sep s) as Hne.
  destruct (split sep s); [done|]. simpl in *. lia.
Qed.

Lemma split_free sep f : free_of sep f -> split sep f = [f].
Proof.
  unfold free_of. induction f as [|c f IH]; simpl; [done|].
  intros H. apply andb_true_iff in H as [Hc Hf].
  unfold RpmUtils.not_char in Hc. apply negb_true_iff in Hc. rewrite Hc.
  by rewrite (IH Hf).
Qed.

Lemma split_field sep f t :
  free_of sep f -> split sep (f +:+ String sep t) = f :: split sep t.
Proof.
  unfold free_of. induction f as [|c f IH]; intros H.
  - rewrite app_nil_l. simpl. by rewrite bool_decide_eq_true_2.
  - rewrite app_cons. simpl in *. apply andb_true_iff in H as [Hc Hf].
    unfold RpmUtils.not_char in Hc. apply negb_true_iff in Hc. rewrite Hc.
    by rewrite (IH Hf).
Qed.

(** Splitting what [join] wrote gives the fields back. *)
Lemma split_join sep fields :
  fields <> [] -> Forall (free_of sep) fields ->
  split sep (join sep fields) = fields.
Proof.
  intros Hne Hall. induction Hall as [|f rest Hf Hrest IH]; [done|].
  destruct rest as [|g rest]; [by apply split_free|].
  change (join sep (f :: g :: rest))
    with (f +:+ String sep (join sep (g :: rest))).
  rewrite (split_field sep f _ Hf). by rewrite IH.
Qed.

Lemma join_not_space sep fields :
  not_space sep = true -> Forall (fun f => all_chars not_space f = true) fields ->
  all_chars not_space (join sep fields) = true.
Proof.
  intros Hsep Hall. induction Hall as [|f rest Hf Hrest IH]; [done|].
  destruct rest as [|g rest]; [done|].
  change (join sep (f :: g :: rest))
    with (f +:+ String sep (join sep (g :: rest))).
  rewrite all_chars_app, Hf.
  change (all_chars not_space (String sep (join sep (g :: rest))))
    with (not_space sep && all_chars not_space (join sep (g :: rest))).
  by rewrite Hsep, IH.
Qed.

Lemma parse_stripped line :
  parse_rpm_qa_line line
  = match split "|" (strip line) with
    | name :: epoch :: version :: release :: arch :: rest =>
        Some (<["name" := PStr name]>
              (<["epoch" :=
                   PStr (if bool_decide (epoch = "(none)")
                            || bool_decide (epoch = "")
                            || bool_decide (epoch = "None")
                         then "0" else epoch)]>
               (<["version" := PStr version]>
                (<["release" := PStr release]>
                 (<["arch" := PStr arch]>
                  (<["installtime" := installtime_of rest]> ∅))))))
    | _ => None
    end.
Proof.
  unfold parse_rpm_qa_line.
  destruct (split "|" (strip line)) as [|f1 [|f2 [|f3 [|f4 [|f5 rest]]]]];
    done.
Qed.

(** X16. [parse_rpm_qa_line] returns [None] exactly when the line, without
    its surrounding whitespace, has fewer than four delimiters. *)
Theorem parse_rpm_qa_line_none line :
  parse_rpm_qa_line line = None <-> (count "|" (strip line) < 4)%nat.
Proof.
  rewrite parse_stripped.
  pose proof (split_length "|" (strip line)) as Hlen.
  destruct (split "|" (strip line)) as [|f1 [|f2 [|f3 [|f4 [|f5 rest]]]]];
    simpl in Hlen; split; intros H; try done; lia.
Qed.

Lemma parse_rpm_qa_line_none_witness :
  parse_rpm_qa_line "  bash|0|5.1.8|6.el9 " = None.
Proof.
  apply (parse_rpm_qa_line_none "  bash|0|5.1.8|6.el9 "). vm_compute. lia.
Defined.

(** X17. A line written by joining at least five fields with the delimiter,
    the fields having no delimiter and no whitespace, is read back field by
    field: the epoch is replaced by ["0"] when it is ["(none)"], [""] or
    ["None"], the sixth field is the install time, and further fields are
    ignored. *)
Theorem parse_rpm_qa_line_fields name epoch version release arch rest :
  Forall (fun f => free_of "|" f /\ all_chars not_space f = true)
    (name :: epoch :: version :: release :: arch :: rest) ->
  parse_rpm_qa_line
    (join "|" (name :: epoch :: version :: release :: arch :: rest))
  = Some (<["name" := PStr name]>
          (<["epoch" :=
               PStr (if bool_decide (epoch = "(none)")
                        || bool_decide (epoch = "")
                        || bool_decide (epoch = "None")
                     then "0" else epoch)]>
           (<["version" := PStr version]>
            (<["release" := PStr release]>
             (<["arch" := PStr arch]>
              (<["installtime" := installtime_of rest]> ∅)))))).
Proof.
  intros Hall. rewrite parse_stripped.
  rewrite strip_id.
  - rewrite split_join; [done | done |].
    eapply Forall_impl; [exact Hall|]. by intros f [? _].
  - apply join_not_space; [done|].
    eapply Forall_impl; [exact Hall|]. by intros f [_ ?].
Qed.

Lemma parse_rpm_qa_line_fields_witness :
  parse_rpm_qa_line "bash|(none)|5.1.8|6.el9|x86_64|1705313000"
  = Some (<["name" := PStr "bash"]>
          (<["epoch" := PStr "0"]>
           (<["version" := PStr "5.1.8"]>
            (<["release" := PStr "6.el9"]>
             (<["arch" := PStr "x86_64"]>
              (<["installtime" := PStr "1705313000"]> ∅)))))).
Proof.
  apply (parse_rpm_qa_line_fields "bash" "(none)" "5.1.8" "6.el9" "x86_64"
           ["1705313000"]).
  repeat (apply Forall_cons; split; [by vm_compute|]). apply Forall_nil_2.
Defined.

End QaFacts.

(** ** The summary *)

Module SummaryFacts.
Import Py Notions Calculator.

Lemma fold_sum (f : UpdateResult -> nat) results acc :
  fold_left (fun acc r => (acc + f r)%nat) results acc
  = (acc + sum_over f results)%nat.
Proof.
  unfold sum_over. revert acc.
  induction results as [|r results IH]; intros acc; simpl; [lia|].
  rewrite (IH (acc + f r)%nat), (IH (f r)). lia.
Qed.

Lemma sum_over_cons f r results :
  sum_over f (r :: results) = (f r + sum_over f results)%nat.
Proof. unfold sum_over at 1. simpl. by rewrite fold_sum. Qed.

Lemma sum_over_app f l1 l2 :
  sum_over f (l1 ++ l2) = (sum_over f l1 + sum_over f l2)%nat.
Proof.
  induction l1 as [|r l1 IH]; [done|].
  rewrite <- app_comm_cons, !sum_over_cons, IH. lia.
Qed.

(** X18. The counts of a summary fit together: there are as many entries as
    results, in the order of the results; the hosts with updates are no more
    than the hosts and no more than the updates; and there is no update in
    total exactly when no host has one. *)
Theorem summary_counts now results :
  let s := generate_summary now results in
  total_hosts s = length results
  /\ map entry_host_id (hosts s) = map host_id results
  /\ map entry_update_count (hosts s) = map update_count results
  /\ (hosts_with_updates s <= total_hosts s)%nat
  /\ (hosts_with_updates s <= total_updates s)%nat
  /\ (total_updates s = 0%nat <-> hosts_with_updates s = 0%nat).
Proof.
  simpl. split; [done|].
  split; [by rewrite map_map|]. split; [by rewrite map_map|].
  induction results as [|r results (IH1 & IH2 & IH3)]; [done|].
  rewrite !sum_over_cons. simpl.
  destruct (Nat.ltb_spec 0 (update_count r)); lia.
Qed.

(** X19. The summary of two runs put together adds their counts and appends
    their entries. *)
Theorem summary_of_app now l1 l2 :
  let s := generate_summary now (l1 ++ l2) in
  let s1 := generate_summary now l1 in
  let s2 := generate_summary now l2 in
  total_hosts s = (total_hosts s1 + total_hosts s2)%nat
  /\ hosts_with_updates s = (hosts_with_updates s1 + hosts_with_updates s2)%nat
  /\ total_updates s = (total_updates s1 + total_updates s2)%nat
  /\ hosts s = hosts s1 ++ hosts s2.
Proof.
  simpl. rewrite length_app, !sum_over_app, map_app. done.
Qed.

End SummaryFacts.

(** ** Memoization and the results of a host *)

Module HostFacts.
Import Py Notions Calculator PyFacts CalculatorFacts.

Lemma cache_file_of_key self profile arch channel :
  cache_file self profile arch channel
  = repo_file self (cache_key profile arch channel).
Proof.
  unfold cache_file, repo_file, cache_key, joinpath.
  by rewrite !RegexFacts.app_assoc.
Qed.

(** [load_repo_packages] changes no directory and no file, keeps every
    memoized reference, and keeps every dictionary of the heap. *)
Lemma load_stable self w profile arch channel ref self' w' :
  load_repo_packages self w profile arch channel = (ref, self', w') ->
  same_storage self w self' w'
  /\ (forall key l, _repo_cache self !! key = Some l ->
                    _repo_cache self' !! key = Some l)
  /\ (forall l d, heap w !! l = Some d -> heap w' !! l = Some d).
Proof.
  unfold load_repo_packages, same_storage.
  destruct (_repo_cache self !! cache_key profile arch channel)
    as [l0|] eqn:Ecache; [by intros [= <- <- <-]|].
  destruct (cache_files w !! cache_file self profile arch channel)
    as [content|]; simpl; intros [= <- <- <-]; simpl.
  - split; [done|]. split.
    + intros key l Hkey. rewrite lookup_insert_ne; [done|]. congruence.
    + intros l d Hl. by apply lookup_app_l_Some.
  - split; [done|]. split; [done|].
    intros l d Hl. by apply lookup_app_l_Some.
Qed.

Lemma load_faithful self w profile arch channel ref self' w' :
  faithful self w ->
  load_repo_packages self w profile arch channel = (ref, self', w') ->
  faithful self' w'
  /\ deref w' ref
     = default ∅ (cache_files w !! cache_file self profile arch channel).
Proof.
  intros Hf. unfold load_repo_packages. rewrite cache_file_of_key.
  destruct (_repo_cache self !! cache_key profile arch channel)
    as [l0|] eqn:Ecache.
  - intros [= <- <- <-]. split; [done|].
    destruct (Hf _ _ Ecache) as (content & Hheap & Hfile).
    unfold deref. by rewrite Hheap, Hfile.
  - destruct (cache_files w !! repo_file self (cache_key profile arch channel))
      as [content|] eqn:Efile; simpl; intros [= <- <- <-].
    + split.
      * intros key l. simpl. unfold repo_file. simpl.
        destruct (decide (key = cache_key profile arch channel)) as [-> | Hne].
        -- rewrite lookup_insert_eq. intros [= <-]. exists content.
           split; [|done]. rewrite lookup_app_r by done.
           by rewrite Nat.sub_diag.
        -- rewrite lookup_insert_ne by done. intros Hkey.
           destruct (Hf _ _ Hkey) as (c' & Hheap & Hfile).
           exists c'. split; [by apply lookup_app_l_Some | done].
      * unfold deref. simpl. rewrite lookup_app_r by done.
        by rewrite Nat.sub_diag.
    + split.
      * intros key l Hkey. simpl.
        destruct (Hf _ _ Hkey) as (c' & Hheap & Hfile).
        exists c'. split; [by apply lookup_app_l_Some | done].
      * unfold deref. simpl. rewrite lookup_app_r by done.
        by rewrite Nat.sub_diag.
Qed.

Lemma same_storage_trans s1 w1 s2 w2 s3 w3 :
  same_storage s1 w1 s2 w2 -> same_storage s2 w2 s3 w3 ->
  same_storage s1 w1 s3 w3.
Proof.
  unfold same_storage. intros (-> & -> & -> & ->) (-> & -> & -> & ->). done.
Qed.

Lemma same_storage_sym s1 w1 s2 w2 :
  same_storage s1 w1 s2 w2 -> same_storage s2 w2 s1 w1.
Proof. unfold same_storage. intros (-> & -> & -> & ->). done. Qed.

(** The updates that the channels give do not depend on what is
    memoized. *)
Lemma check_channels_same channels profile installed updates
    self1 w1 self2 w2 :
  same_storage self1 w1 self2 w2 -> faithful self1 w1 -> faithful self2 w2 ->
  (fun x => x.1.1) <$> check_channels channels profile installed self1 w1 updates
  = (fun x => x.1.1) <$> check_channels channels profile installed self2 w2 updates.
Proof.
  revert updates self1 w1 self2 w2.
  induction channels as [|channel channels IH];
    intros updates self1 w1 self2 w2 Hsame Hf1 Hf2; simpl; [done|].
  destruct (load_repo_packages self1 w1 profile "x86_64" channel)
    as [[ref1 s1] x1] eqn:E1.
  destruct (load_repo_packages self2 w2 profile "x86_64" channel)
    as [[ref2 s2] x2] eqn:E2.
  destruct (load_faithful _ _ _ _ _ _ _ _ Hf1 E1) as [Hf1' D1].
  destruct (load_faithful _ _ _ _ _ _ _ _ Hf2 E2) as [Hf2' D2].
  destruct (load_stable _ _ _ _ _ _ _ _ E1) as [S1 _].
  destruct (load_stable _ _ _ _ _ _ _ _ E2) as [S2 _].
  assert (same_storage s1 x1 s2 x2) as Hsame'.
  { apply (same_storage_trans _ _ self1 w1); [by apply same_storage_sym|].
    by apply (same_storage_trans _ _ self2 w2). }
  assert (deref x1 ref1 = deref x2 ref2) as Hd.
  { rewrite D1, D2. destruct Hsame as (Hm & _ & _ & Hc).
    unfold cache_file. by rewrite Hm, Hc. }
  rewrite Hd.
  destruct (bool_decide (deref x2 ref2 = ∅)); [by apply IH|].
  destruct (iter_packages installed) as [pkgs|e]; [|done]. simpl.
  destruct (check_packages (deref x2 ref2) channel updates pkgs) as [u|e];
    [|done].
  simpl. by apply IH.
Qed.

Lemma result_of_bind profile os_id os_version now host
    (o : res (list PackageUpdate * UpdateCalculator * world)) :
  result_of
    ('(updates, self', w') ← o;
     Ok ({| host_id := host; profile := profile; os_id := os_id;
            os_version := os_version; computed_at := now;
            updates := updates; errors := [] |}, self', w'))
  = (fun updates =>
       {| host_id := host; profile := profile; os_id := os_id;
          os_version := os_version; computed_at := now;
          updates := updates; errors := [] |})
    <$> ((fun x => x.1.1) <$> o).
Proof. by destruct o as [[[u s] x]|e]. Qed.

Lemma compute_same self1 w1 self2 w2 now host :
  same_storage self1 w1 self2 w2 -> faithful self1 w1 -> faithful self2 w2 ->
  result_of (compute_updates_for_host self1 w1 now host)
  = result_of (compute_updates_for_host self2 w2 now host).
Proof.
  intros Hsame Hf1 Hf2. unfold compute_updates_for_host, load_manifest.
  pose proof Hsame as (Hm & Hd & Hfiles & Hc). rewrite Hd, Hfiles.
  destruct (manifest_files w2 !! _) as [manifest|]; [|done].
  destruct (bool_decide (manifest = ∅)); [done|].
  destruct (jget _ "id" _) as [os_id|e]; [|done]. cbn [mbind res_bind].
  destruct (jget _ "version" _) as [os_version|e]; [|done].
  cbn [mbind res_bind].
  destruct (get_profile_for_os os_id os_version) as [profile|e]; [|done].
  cbn [mbind res_bind].
  destruct (negb (jtruthy _)); [done|].
  rewrite !result_of_bind. f_equal.
  by apply check_channels_same.
Qed.

(** X20. Memoization is transparent: over the same directories and files,
    two calculators whose memoized dictionaries are the contents of their
    cache files compute the same [UpdateResult] for a host, whatever each
    has memoized. *)
Theorem memoization_is_transparent self1 w1 self2 w2 now host :
  same_storage self1 w1 self2 w2 -> faithful self1 w1 -> faithful self2 w2 ->
  result_of (compute_updates_for_host self1 w1 now host)
  = result_of (compute_updates_for_host self2 w2 now host).
Proof. apply compute_same. Qed.

Lemma faithful_sample : faithful sample_calculator sample_world.
Proof. intros key l H. simpl in H. by rewrite lookup_empty in H. Qed.

Lemma faithful_sample_after :
  faithful sample_calculator_after sample_world_after.
Proof.
  intros key l H. simpl in H. apply lookup_singleton_Some in H as [<- <-].
  by exists sample_baseos.
Qed.

Lemma memoization_is_transparent_witness :
  result_of (compute_updates_for_host sample_calculator sample_world
               "2024-01-15T10:00:00Z" "web01")
  = result_of (compute_updates_for_host sample_calculator_after
                 sample_world_after "2024-01-15T10:00:00Z" "web01").
Proof.
  apply (memoization_is_transparent sample_calculator sample_world
           sample_calculator_after sample_world_after).
  - repeat split.
  - exact faithful_sample.
  - exact faithful_sample_after.
Defined.

(** *** What a call leaves behind *)

Lemma check_channels_stable channels profile installed self w updates
    updates' self' w' :
  check_channels channels profile installed self w updates
  = Ok (updates', self', w') ->
  same_storage self w self' w'
  /\ (forall key l, _repo_cache self !! key = Some l ->
                    _repo_cache self' !! key = Some l)
  /\ (forall l d, heap w !! l = Some d -> heap w' !! l = Some d)
  /\ (faithful self w -> faithful self' w').
Proof.
  revert self w updates.
  induction channels as [|channel channels IH]; intros self w updates; simpl.
  - intros [= <- <- <-]. unfold same_storage. done.
  - destruct (load_repo_packages self w profile "x86_64" channel)
      as [[ref s1] x1] eqn:E.
    destruct (load_stable _ _ _ _ _ _ _ _ E) as (S1 & K1 & H1).
    intros H.
    assert (exists u1, check_channels channels profile installed s1 x1 u1
                       = Ok (updates', self', w')) as [u1 Hrec].
    { destruct (bool_decide (deref x1 ref = ∅)); [by eauto|].
      apply bind_Ok in H as (pkgs & _ & H).
      apply bind_Ok in H as (u1 & _ & H). by eauto. }
    destruct (IH _ _ _ Hrec) as (S2 & K2 & H2 & F2).
    split; [by apply (same_storage_trans _ _ s1 x1)|].
    split; [by auto|]. split; [by auto|].
    intros Hf. apply F2. by apply (load_faithful _ _ _ _ _ _ _ _ Hf E).
Qed.

Lemma compute_state self w now host r self' w' :
  compute_updates_for_host self w now host = Ok (r, self', w') ->
  (self' = self /\ w' = w)
  \/ exists profile installed,
       check_channels ["baseos"; "appstream"] profile installed self w []
       = Ok (updates r, self', w').
Proof.
  unfold compute_updates_for_host.
  destruct (load_manifest self w host) as [manifest|];
    [|intros [= <- <- <-]; by left].
  destruct (bool_decide (manifest = ∅)); [intros [= <- <- <-]; by left|].
  intros H.
  apply bind_Ok in H as (os_id & _ & H).
  apply bind_Ok in H as (os_version & _ & H).
  apply bind_Ok in H as (profile & _ & H).
  destruct (negb (jtruthy _)); [injection H as <- <- <-; by left|].
  apply bind_Ok in H as ([[updates s1] x1] & E & H).
  injection H as <- <- <-. right. by eauto.
Qed.

Lemma compute_stable self w now host r self' w' :
  compute_updates_for_host self w now host = Ok (r, self', w') ->
  same_storage self w self' w' /\ (faithful self w -> faithful self' w').
Proof.
  intros H. destruct (compute_state _ _ _ _ _ _ _ H)
    as [[-> ->] | (profile & installed & E)].
  - unfold same_storage. done.
  - destruct (check_channels_stable _ _ _ _ _ _ _ _ _ E) as (S & _ & _ & F).
    done.
Qed.

(** X21. A call for a host changes no directory and no file, keeps every
    memoized reference and every dictionary already loaded, and keeps the
    memoized dictionaries equal to the contents of their cache files. *)
Theorem loaded_dictionaries_are_kept self w now host r self' w' :
  compute_updates_for_host self w now host = Ok (r, self', w') ->
  same_storage self w self' w'
  /\ (forall key l, _repo_cache self !! key = Some l ->
                    _repo_cache self' !! key = Some l)
  /\ (forall l d, heap w !! l = Some d -> heap w' !! l = Some d)
  /\ (faithful self w -> faithful self' w').
Proof.
  intros H. destruct (compute_state _ _ _ _ _ _ _ H)
    as [[-> ->] | (profile & installed & E)].
  - unfold same_storage. done.
  - by apply (check_channels_stable _ _ _ _ _ _ _ _ _ E).
Qed.

Lemma loaded_dictionaries_are_kept_witness :
  same_storage sample_calculator sample_world
    sample_calculator_after sample_world_after
  /\ (forall key l, _repo_cache sample_calculator !! key = Some l ->
                    _repo_cache sample_calculator_after !! key = Some l)
  /\ (forall l d, heap sample_world !! l = Some d ->
                  heap sample_world_after !! l = Some d)
  /\ (faithful sample_calculator sample_world ->
      faithful sample_calculator_after sample_world_after).
Proof.
  apply (loaded_dictionaries_are_kept sample_calculator sample_world
           "2024-01-15T10:00:00Z" "web01" sample_result).
  reflexivity.
Defined.

(** *** The shape of a result *)

Lemma check_package_adds repo ch updates pkg updates' :
  check_package repo ch updates pkg = Ok updates' ->
  exists new, updates' = updates ++ new /\ (length new <= 1)%nat
              /\ Forall (from_channel ch) new.
Proof.
  intros H. destruct (check_package_inv _ _ _ _ _ H)
    as [-> | (available & c & u & Hn & Ha & _ & _ & _ & _ & Hu & ->)].
  - exists []. rewrite app_nil_r. split; [done|]. split; [simpl; lia|].
    by constructor.
  - exists [u]. split; [done|]. split; [simpl; lia|].
    apply Forall_cons. split; [|by constructor].
    destruct Hu as (En & Ea & Ec & _). unfold from_channel.
    by rewrite En, Ea.
Qed.

Lemma check_packages_adds repo ch pkgs updates updates' :
  check_packages repo ch updates pkgs = Ok updates' ->
  exists new, updates' = updates ++ new /\ (length new <= length pkgs)%nat
              /\ Forall (from_channel ch) new.
Proof.
  revert updates. induction pkgs as [|pkg pkgs IH]; intros updates; simpl.
  - intros [= <-]. exists []. rewrite app_nil_r. split; [done|].
    split; [done | by constructor].
  - intros H. apply bind_Ok in H as (u1 & E & H).
    destruct (check_package_adds _ _ _ _ _ E) as (new1 & -> & L1 & F1).
    destruct (IH _ H) as (new2 & -> & L2 & F2).
    exists (new1 ++ new2). rewrite app_assoc. split; [done|].
    split; [rewrite length_app; lia | by apply Forall_app].
Qed.

Lemma check_channels_adds channels profile installed self w updates
    updates' self' w' :
  check_channels channels profile installed self w updates
  = Ok (updates', self', w') ->
  exists news,
    updates' = updates ++ concat news
    /\ Forall2 (fun ch new => Forall (from_channel ch) new
                              /\ (length new <= listed installed)%nat)
         channels news.
Proof.
  revert self w updates.
  induction channels as [|channel channels IH]; intros self w updates; simpl.
  - intros [= <- _ _]. exists []. simpl. rewrite app_nil_r.
    split; [done | by constructor].
  - destruct (load_repo_packages self w profile "x86_64" channel)
      as [[ref s1] x1].
    destruct (bool_decide (deref x1 ref = ∅)).
    + intros H. destruct (IH _ _ _ H) as (news & -> & Hall).
      exists ([] :: news). split; [done|].
      apply Forall2_cons. split; [|done]. split; [by constructor | simpl; lia].
    + intros H. apply bind_Ok in H as (pkgs & Ei & H).
      apply bind_Ok in H as (u1 & E & H).
      destruct (check_packages_adds _ _ _ _ _ E) as (new & -> & L & F).
      destruct (IH _ _ _ H) as (news & -> & Hall).
      exists (new :: news). simpl. rewrite app_assoc. split; [done|].
      apply Forall2_cons. split; [|done]. split; [done|].
      destruct installed as [v|d|l]; simpl in Ei;
        [by destruct v | done | by injection Ei as <-].
Qed.

(** X22. A result carries the host and the clock reading of its call, has at
    most one error, has no update when it has an error, and lists the
    updates of [baseos] before those of [appstream], each for a package with
    a name and an arch; there are at most two updates for each package of
    the manifest. *)
Theorem result_shape self w now host r self' w' :
  compute_updates_for_host self w now host = Ok (r, self', w') ->
  host_id r = host
  /\ computed_at r = now
  /\ (length (errors r) <= 1)%nat
  /\ (errors r <> [] -> updates r = [])
  /\ exists base app,
       updates r = base ++ app
       /\ Forall (from_channel "baseos") base
       /\ Forall (from_channel "appstream") app
       /\ forall manifest,
            load_manifest self w host = Some manifest ->
            (length base <= package_count manifest)%nat
            /\ (length app <= package_count manifest)%nat.
Proof.
  unfold compute_updates_for_host.
  assert (forall (u : list PackageUpdate), u = [] ->
            exists base app : list PackageUpdate,
              u = base ++ app
              /\ Forall (from_channel "baseos") base
              /\ Forall (from_channel "appstream") app
              /\ forall manifest : gmap string jval,
                   load_manifest self w host = Some manifest ->
                   (length base <= package_count manifest)%nat
                   /\ (length app <= package_count manifest)%nat) as Hnil.
  { intros u ->. exists [], []. split; [done|].
    split; [by constructor|]. split; [by constructor|].
    intros. simpl. lia. }
  destruct (load_manifest self w host) as [manifest|] eqn:Em.
  2:{ intros [= <- _ _]. simpl. do 2 (split; [done|]). split; [lia|].
      split; [done|]. by apply Hnil. }
  destruct (bool_decide (manifest = ∅)).
  { intros [= <- _ _]. simpl. do 2 (split; [done|]). split; [lia|].
    split; [done|]. by apply Hnil. }
  intros H.
  apply bind_Ok in H as (os_id & _ & H).
  apply bind_Ok in H as (os_version & _ & H).
  apply bind_Ok in H as (profile & _ & H).
  destruct (negb (jtruthy _)).
  { injection H as <- _ _. simpl. do 2 (split; [done|]). split; [lia|].
    split; [done|]. by apply Hnil. }
  apply bind_Ok in H as ([[updates s1] x1] & E & H).
  injection H as <- _ _. simpl. do 2 (split; [done|]). split; [lia|].
  split; [done|].
  destruct (check_channels_adds _ _ _ _ _ _ _ _ _ E) as (news & -> & Hall).
  apply Forall2_cons_inv_l in Hall as (base & rest & [Fb Lb] & Hall & ->).
  apply Forall2_cons_inv_l in Hall as (app & rest' & [Fa La] & Hall & ->).
  apply Forall2_nil_inv_l in Hall as ->.
  exists base, app. simpl. rewrite app_nil_r. split; [done|].
  split; [done|]. split; [done|].
  intros m [= <-].
  assert (listed (default (JList []) (manifest !! "packages"))
          = package_count manifest) as <-; [|done].
  unfold package_count. destruct (manifest !! "packages") as [[v|d|l]|]; done.
Qed.

Lemma result_shape_witness :
  host_id sample_result = "web01"
  /\ computed_at sample_result = "2024-01-15T10:00:00Z"
  /\ (length (errors sample_result) <= 1)%nat
  /\ (errors sample_result <> [] -> updates sample_result = [])
  /\ exists base app,
       updates sample_result = base ++ app
       /\ Forall (from_channel "baseos") base
       /\ Forall (from_channel "appstream") app
       /\ forall manifest,
            load_manifest sample_calculator sample_world "web01"
            = Some manifest ->
            (length base <= package_count manifest)%nat
            /\ (length app <= package_count manifest)%nat.
Proof.
  apply (result_shape sample_calculator sample_world "2024-01-15T10:00:00Z"
           "web01" sample_result sample_calculator_after sample_world_after).
  reflexivity.
Defined.

(** *** Updates are strictly newer *)

Lemma check_package_justified w pkgs l repo ch updates pkg updates' :
  pkg ∈ pkgs -> heap w !! l = Some repo ->
  Forall (justified w pkgs) updates ->
  check_package repo ch updates pkg = Ok updates' ->
  Forall (justified w pkgs) updates'.
Proof.
  intros Hin Hl Hall H.
  destruct (check_package_inv _ _ _ _ _ H)
    as [-> | (available & c & u & _ & _ & Hav & _ & Hc & Hneg & Hu & ->)];
    [done|].
  apply Forall_app. split; [done|]. apply Forall_cons. split; [|done].
  by exists ch, pkg, l, repo, available, c.
Qed.

Lemma check_packages_justified w pkgs l repo ch rest updates updates' :
  (forall pkg, pkg ∈ rest -> pkg ∈ pkgs) -> heap w !! l = Some repo ->
  Forall (justified w pkgs) updates ->
  check_packages repo ch updates rest = Ok updates' ->
  Forall (justified w pkgs) updates'.
Proof.
  intros Hrest Hl. revert updates.
  induction rest as [|pkg rest IH]; intros updates Hall; simpl.
  - by intros [= <-].
  - intros H. apply bind_Ok in H as (u1 & E & H).
    apply (IH (fun p Hp => Hrest p (list_elem_of_further _ _ _ Hp)) u1);
      [|done].
    apply (check_package_justified w pkgs l repo ch updates pkg); try done.
    apply Hrest. apply list_elem_of_here.
Qed.

(** A dictionary that is not empty is a dictionary of the heap. *)
Lemma deref_lookup w l : deref w l <> ∅ -> heap w !! l = Some (deref w l).
Proof. unfold deref. by destruct (heap w !! l). Qed.

Lemma check_channels_justified channels profile pkgs self w updates
    updates' self' w' :
  check_channels channels profile (JList pkgs) self w updates
  = Ok (updates', self', w') ->
  Forall (justified w' pkgs) updates ->
  Forall (justified w' pkgs) updates'.
Proof.
  revert self w updates.
  induction channels as [|channel channels IH]; intros self w updates; simpl.
  - by intros [= <- _ _].
  - destruct (load_repo_packages self w profile "x86_64" channel)
      as [[ref s1] x1].
    destruct (bool_decide_reflect (deref x1 ref = ∅)) as [|Hne]; [by apply IH|].
    intros H Hall. apply bind_Ok in H as (u1 & E & H).
    apply (IH _ _ _ H).
    destruct (check_channels_stable _ _ _ _ _ _ _ _ _ H) as (_ & _ & Hheap & _).
    apply (check_packages_justified w' pkgs ref (deref x1 ref) channel pkgs
             updates u1); try done.
    apply Hheap. by apply deref_lookup.
Qed.

(** Only a list of packages gives updates. *)
Lemma check_channels_not_list channels profile installed self w updates
    updates' self' w' :
  (forall pkgs, installed <> JList pkgs) ->
  check_channels channels profile installed self w updates
  = Ok (updates', self', w') ->
  updates' = updates.
Proof.
  intros Hinst. revert self w.
  induction channels as [|channel channels IH]; intros self w; simpl.
  - by intros [= <- _ _].
  - destruct (load_repo_packages self w profile "x86_64" channel)
      as [[ref s1] x1].
    destruct (bool_decide (deref x1 ref = ∅)); [by apply IH|].
    destruct installed as [v|d|pkgs]; [by destruct v | done |].
    by destruct (Hinst pkgs).
Qed.

Lemma compute_justified self w now host r self' w' u :
  compute_updates_for_host self w now host = Ok (r, self', w') ->
  u ∈ updates r ->
  exists manifest pkgs,
    load_manifest self w host = Some manifest
    /\ manifest !! "packages" = Some (JList pkgs)
    /\ justified w' pkgs u.
Proof.
  unfold compute_updates_for_host.
  destruct (load_manifest self w host) as [manifest|];
    [|intros [= <- _ _] Hin; by apply elem_of_nil in Hin].
  destruct (bool_decide (manifest = ∅));
    [intros [= <- _ _] Hin; by apply elem_of_nil in Hin|].
  intros H Hin.
  apply bind_Ok in H as (os_id & _ & H).
  apply bind_Ok in H as (os_version & _ & H).
  apply bind_Ok in H as (profile & _ & H).
  remember (default (JList []) (manifest !! "packages")) as installed
    eqn:Ei.
  destruct (negb (jtruthy installed));
    [injection H as <- _ _; by apply elem_of_nil in Hin|].
  apply bind_Ok in H as ([[updates s1] x1] & E & H).
  injection H as <- _ <-. simpl in Hin.
  destruct (manifest !! "packages") as [[v|d|pkgs]|] eqn:Ep; simpl in Ei;
    subst installed.
  - apply check_channels_not_list in E as ->; [|done].
    by apply elem_of_nil in Hin.
  - apply check_channels_not_list in E as ->; [|done].
    by apply elem_of_nil in Hin.
  - exists manifest, pkgs. split; [done|]. split; [done|].
    pose proof (check_channels_justified _ _ _ _ _ _ _ _ _ E
                  (Forall_nil_2 _)) as Hall.
    rewrite Forall_forall in Hall. by apply Hall.
  - pose proof (check_channels_justified _ _ _ _ _ _ _ _ _ E
                  (Forall_nil_2 _)) as Hall.
    rewrite Forall_forall in Hall.
    destruct (Hall u Hin) as (? & pkg & ? & ? & ? & ? & Hpkg & _).
    by apply elem_of_nil in Hpkg.
Qed.



(** *** Formatting the updates of a result *)

Lemma epoch_then_str s z :
  RpmUtils.epoch_of_str s = Ok z -> exists t, str_of_Z z = Ok t.
Proof.
  unfold RpmUtils.epoch_of_str.
  destruct (_ || _); [intros [= <-]; by exists "0" | apply int_then_str].
Qed.

Lemma format_evr_text s z v r :
  RpmUtils.epoch_of_str s = Ok z ->
  exists t, RpmUtils.format_evr (PStr s) (PStr v) (PStr r) = Ok t.
Proof.
  intros H. unfold RpmUtils.format_evr. simpl. rewrite H. simpl.
  destruct (0 <? z); simpl; [|by eauto].
  destruct (epoch_then_str s z H) as [t ->]. simpl. by eauto.
Qed.

(** An epoch written by [str] is read back as the same epoch. *)
Lemma epoch_of_written z t :
  str_of_Z z = Ok t -> RpmUtils.epoch_of_str t = Ok z.
Proof.
  intros H. pose proof (int_str_of_Z z t H) as Hint.
  unfold RpmUtils.epoch_of_str.
  destruct (bool_decide_reflect (t = "(none)")) as [-> | _];
    [by vm_compute in Hint|].
  destruct (bool_decide_reflect (t = "")) as [-> | _];
    [by vm_compute in Hint|].
  destruct (bool_decide_reflect (t = "0")) as [-> | _]; [|done].
  vm_compute in Hint. simpl. congruence.
Qed.

Lemma typed_fields d :
  typed_package d ->
  ((exists s, RpmUtils.get d "epoch" (PStr "0") = PStr s)
   \/ (exists z, RpmUtils.get d "epoch" (PStr "0") = PInt z))
  /\ (exists s, RpmUtils.get d "version" (PStr "0") = PStr s)
  /\ (exists s, RpmUtils.get d "release" (PStr "0") = PStr s).
Proof.
  intros (He & Hv & Hr). unfold RpmUtils.get.
  destruct (d !! "epoch") as [[]|]; try done;
    destruct (d !! "version") as [[]|]; try done;
    destruct (d !! "release") as [[]|]; try done;
    (split; [by eauto | split; by eauto]).
Qed.

Lemma stored_epoch_formats e ie v r :
  (exists s, e = PStr s) \/ (exists z, e = PInt z) ->
  (exists x, RpmUtils.normalize_epoch e = Ok x) ->
  str e = Ok ie ->
  exists t, RpmUtils.format_evr (PStr ie) (PStr v) (PStr r) = Ok t.
Proof.
  intros [[s ->] | [z ->]] [x Hx]; simpl.
  - intros [= <-]. simpl in Hx.
    destruct (RpmUtils.epoch_of_str s) as [z|] eqn:E; [|done].
    by apply (format_evr_text s z).
  - intros H. apply (format_evr_text ie z). by apply epoch_of_written.
Qed.

Lemma get_evr_info_epoch d default :
  RpmUtils.get (evr_info d) "epoch" default = RpmUtils.get d "epoch" (PStr "0").
Proof.
  unfold RpmUtils.get at 1. unfold evr_info.
  by rewrite lookup_evr_dict_epoch.
Qed.

Lemma update_formats ch pkg available u c :
  update_of ch pkg available u ->
  RpmUtils.compare_versions (evr_info pkg) (evr_info available) = Ok c ->
  typed_package pkg -> typed_package available -> evr_defined u.
Proof.
  intros (_ & _ & _ & Hie & Hiv & Hir & Hae & Hav & Har) Hc Tp Ta.
  unfold RpmUtils.compare_versions in Hc.
  rewrite !get_evr_info_epoch in Hc.
  apply bind_Ok in Hc as (x & Hx & Hc). apply bind_Ok in Hc as (y & Hy & _).
  destruct (typed_fields pkg Tp) as (Epe & [pv Epv] & [pr Epr]).
  destruct (typed_fields available Ta) as (Eae & [av Eav] & [ar Ear]).
  unfold evr_defined, installed_evr, available_evr.
  rewrite Hiv, Hir, Hav, Har, Epv, Epr, Eav, Ear.
  destruct (stored_epoch_formats _ (installed_epoch u) pv pr Epe
              (ex_intro _ x Hx) Hie) as [s ->].
  destruct (stored_epoch_formats _ (available_epoch u) av ar Eae
              (ex_intro _ y Hy) Hae) as [t ->].
  by eauto.
Qed.

Lemma load_typed self w profile arch channel ref self' w' :
  typed_world w ->
  load_repo_packages self w profile arch channel = (ref, self', w') ->
  typed_world w'.
Proof.
  intros [Hfiles Hheap]. unfold load_repo_packages.
  destruct (_repo_cache self !! cache_key profile arch channel);
    [by intros [= _ _ <-]|].
  destruct (cache_files w !! cache_file self profile arch channel)
    as [content|] eqn:E; simpl; intros [= _ _ <-]; split; simpl; try done.
  - apply Forall_app. split; [done|]. apply Forall_cons. split; [|done].
    by apply (Hfiles _ _ E).
  - apply Forall_app. split; [done|]. apply Forall_cons. split; [|done].
    apply map_Forall_empty.
Qed.

Lemma check_channels_typed channels profile installed self w updates
    updates' self' w' :
  typed_world w ->
  check_channels channels profile installed self w updates
  = Ok (updates', self', w') ->
  typed_world w'.
Proof.
  revert self w updates.
  induction channels as [|channel channels IH]; intros self w updates Hw;
    simpl.
  - by intros [= _ _ <-].
  - destruct (load_repo_packages self w profile "x86_64" channel)
      as [[ref s1] x1] eqn:E.
    pose proof (load_typed _ _ _ _ _ _ _ _ Hw E) as Hx.
    destruct (bool_decide (deref x1 ref = ∅)); [by apply IH|].
    intros H. apply bind_Ok in H as (pkgs & _ & H).
    apply bind_Ok in H as (u1 & _ & H). by apply (IH _ _ _ Hx H).
Qed.

(** X23. When the versions and the releases of the manifest and of the
    package caches are strings and their epochs strings or integers, the
    installed and the available EVR string of every update of a result can
    be formatted: [format_evr] does not raise on them. *)
Theorem updates_can_be_formatted self w now host r self' w' :
  compute_updates_for_host self w now host = Ok (r, self', w') ->
  typed_world w ->
  (forall manifest,
      load_manifest self w host = Some manifest -> typed_manifest manifest) ->
  Forall evr_defined (updates r).
Proof.
  intros H Hw Hm. apply Forall_forall. intros u Hin.
  destruct (compute_justified _ _ _ _ _ _ _ u H Hin)
    as (manifest & pkgs & Em & Ep & ch & pkg & l & repo & available & c
        & Hpkg & Hl & (n & a & _ & _ & Hkey) & Hu & Hc & _).
  apply (update_formats ch pkg available u c Hu Hc).
  - specialize (Hm manifest Em). unfold typed_manifest in Hm.
    rewrite Ep in Hm. rewrite Forall_forall in Hm. by apply Hm.
  - assert (typed_world w') as [_ Hheap].
    { destruct (compute_state _ _ _ _ _ _ _ H)
        as [[_ ->] | (profile & installed & E)]; [done|].
      by apply (check_channels_typed _ _ _ _ _ _ _ _ _ Hw E). }
    pose proof (Forall_lookup_1 _ _ _ _ Hheap Hl) as Hrepo.
    by apply (Hrepo _ _ Hkey).
Qed.

Lemma typed_sample_world : typed_world sample_world.
Proof.
  split; [|by constructor]. apply map_Forall_singleton.
  apply map_Forall_insert_2; [by vm_compute|].
  apply map_Forall_singleton. by vm_compute.
Qed.

Lemma typed_sample_manifest : typed_manifest sample_manifest.
Proof.
  unfold typed_manifest.
  assert (sample_manifest !! "packages"
          = Some (JList [sample_bash; sample_kernel])) as -> by reflexivity.
  repeat (apply Forall_cons; split; [by vm_compute|]). by constructor.
Qed.

Lemma updates_can_be_formatted_witness :
  Forall evr_defined (updates sample_result).
Proof.
  apply (updates_can_be_formatted sample_calculator sample_world
           "2024-01-15T10:00:00Z" "web01" sample_result
           sample_calculator_after sample_world_after).
  - reflexivity.
  - exact typed_sample_world.
  - intros manifest Hm.
    assert (load_manifest sample_calculator sample_world "web01"
            = Some sample_manifest) as E by reflexivity.
    rewrite E in Hm. injection Hm as <-. exact typed_sample_manifest.
Defined.

(** *** A manifest without packages *)

(** X24. When the manifest of a host lists no package, a call that returns
    gives the error ["No packages found in manifest"] and no update, and
    loads nothing; when the manifest has no [os_release] either, the call
    returns, with the profile ["rhelunknown"]. *)
Theorem manifest_without_packages self w now host manifest :
  load_manifest self w host = Some manifest ->
  manifest <> ∅ ->
  manifest !! "packages" = None \/ manifest !! "packages" = Some (JList []) ->
  (forall r self' w',
      compute_updates_for_host self w now host = Ok (r, self', w') ->
      errors r = ["No packages found in manifest"] /\ updates r = []
      /\ self' = self /\ w' = w)
  /\ (manifest !! "os_release" = None ->
      compute_updates_for_host self w now host
      = Ok ({| host_id := host; profile := "rhelunknown";
               os_id := PStr "unknown"; os_version := PStr "unknown";
               computed_at := now; updates := [];
               errors := ["No packages found in manifest"] |}, self, w)).
Proof.
  intros Hm Hne Hp. unfold compute_updates_for_host. rewrite Hm.
  rewrite (bool_decide_eq_false_2 _ Hne).
  assert (jtruthy (default (JList []) (manifest !! "packages")) = false) as Ht
    by (by destruct Hp as [-> | ->]).
  split.
  - intros r self' w' H.
    apply bind_Ok in H as (os_id & _ & H).
    apply bind_Ok in H as (os_version & _ & H).
    apply bind_Ok in H as (profile & _ & H).
    rewrite Ht in H. simpl in H. by injection H as <- <- <-.
  - intros ->. simpl. by rewrite Ht.
Qed.

Lemma manifest_without_packages_witness :
  let w := {| manifest_files :=
                {[ "/manifests/processed/web02/latest/manifest.json" :=
                     {[ "host_id" := JScalar (PStr "web02") ]} ]};
              cache_files := ∅; heap := [] |} in
  compute_updates_for_host sample_calculator w "2024-01-15T10:00:00Z" "web02"
  = Ok ({| host_id := "web02"; profile := "rhelunknown";
           os_id := PStr "unknown"; os_version := PStr "unknown";
           computed_at := "2024-01-15T10:00:00Z"; updates := [];
           errors := ["No packages found in manifest"] |},
        sample_calculator, w).
Proof.
  intros w.
  destruct (manifest_without_packages sample_calculator w
              "2024-01-15T10:00:00Z" "web02"
              {[ "host_id" := JScalar (PStr "web02") ]}) as [_ H].
  - reflexivity.
  - by vm_compute.
  - left. reflexivity.
  - apply H. reflexivity.
Defined.

(** *** All hosts *)

Lemma directories_cons_dir name entries :
  directories ((name, true) :: entries) = name :: directories entries.
Proof. unfold directories. by rewrite filter_cons_True. Qed.

Lemma directories_cons_file name entries :
  directories ((name, false) :: entries) = directories entries.
Proof. unfold directories. by rewrite filter_cons_False. Qed.

(** The loop from the [n]-th call on, started in a state that a calculator
    in the state [self0], [w0] has reached. *)
Lemma compute_all_loop_yields now self0 w0 entries n self w yielded ending :
  same_storage self0 w0 self w -> faithful self0 w0 -> faithful self w ->
  compute_all_loop now n entries self w = (yielded, ending) ->
  (forall i r, yielded !! i = Some r ->
     exists h,
       directories entries !! i = Some h
       /\ result_of (compute_updates_for_host self0 w0 (now (n + i)%nat) h)
          = Ok r)
  /\ (forall self' w', ending = Ok (self', w') ->
        length yielded = length (directories entries)
        /\ same_storage self0 w0 self' w' /\ faithful self' w')
  /\ (forall e, ending = Raise e ->
        exists h,
          directories entries !! length yielded = Some h
          /\ result_of (compute_updates_for_host self0 w0
                          (now (n + length yielded)%nat) h)
             = Raise e).
Proof.
  intros Hsame Hf0. revert n self w yielded ending Hsame.
  induction entries as [|[name is_dir] entries IH];
    intros n self w yielded ending Hsame Hf; simpl.
  - intros [= <- <-]. split; [done|]. split; [|done].
    by intros self' w' [= <- <-].
  - destruct is_dir; [|rewrite directories_cons_file; by apply IH].
    rewrite directories_cons_dir.
    pose proof (compute_same self0 w0 self w (now n) name Hsame Hf0 Hf)
      as Hcall.
    destruct (compute_updates_for_host self w (now n) name)
      as [[[r s1] x1]|e] eqn:E; simpl in Hcall.
    + destruct (compute_stable _ _ _ _ _ _ _ E) as [Hstep Hf1].
      destruct (compute_all_loop now (S n) entries s1 x1) as [ys en] eqn:El.
      intros [= <- <-].
      destruct (IH (S n) s1 x1 ys en) as (Hys & Hok & Hraise);
        [by apply (same_storage_trans _ _ self w) | by apply Hf1 | done |].
      split; [|split].
      * intros [|i] r'; simpl.
        -- intros [= <-]. exists name. by rewrite Nat.add_0_r.
        -- intros Hi. destruct (Hys i r' Hi) as (h & Hh & Hr).
           exists h. split; [done|]. by rewrite Nat.add_succ_r.
      * intros self' w' Hen. destruct (Hok self' w' Hen) as (Hlen & ? & ?).
        simpl. by rewrite Hlen.
      * intros e Hen. destruct (Hraise e Hen) as (h & Hh & Hr).
        exists h. simpl. split; [done|]. by rewrite Nat.add_succ_r.
    + intros [= <- <-]. split; [done|]. split; [done|].
      intros e' [= <-]. exists name. simpl. by rewrite Nat.add_0_r.
Qed.

(** X25. Without the [processed] directory the generator yields nothing.
    Otherwise, for a calculator whose memoized dictionaries are the contents
    of their cache files, it yields the results of the directories of the
    listing, in the order of the listing, each the result of
    [compute_updates_for_host] for the name of the directory: all of them
    when it ends, and those before the first call that raises when it
    raises, with the exception of that call. Entries that are not
    directories are passed over. *)
Theorem compute_all_updates_yields self w now listing yielded ending :
  compute_all_updates self w now listing = (yielded, ending) ->
  (listing = None -> yielded = [] /\ ending = Ok (self, w))
  /\ (forall entries, listing = Some entries -> faithful self w ->
        (forall i r, yielded !! i = Some r ->
           exists h,
             directories entries !! i = Some h
             /\ result_of (compute_updates_for_host self w (now i) h) = Ok r)
        /\ (forall self' w', ending = Ok (self', w') ->
              length yielded = length (directories entries)
              /\ same_storage self w self' w' /\ faithful self' w')
        /\ (forall e, ending = Raise e ->
              exists h,
                directories entries !! length yielded = Some h
                /\ result_of (compute_updates_for_host self w
                                (now (length yielded)) h)
                   = Raise e)).
Proof.
  unfold compute_all_updates. destruct listing as [entries|].
  - intros H. split; [done|]. intros ? [= <-] Hf.
    by apply (compute_all_loop_yields now self w entries 0 self w yielded
                ending).
  - intros [= <- <-]. split; [done|]. by intros ? [=].
Qed.

Lemma compute_all_updates_yields_witness :
  let entries := [("README", false); ("web01", true); ("db07", true)] in
  let run := compute_all_updates sample_calculator sample_world
               (fun _ => "2024-01-15T10:00:00Z") (Some entries) in
  (exists h,
      directories entries !! 0%nat = Some h
      /\ result_of (compute_updates_for_host sample_calculator sample_world
                      "2024-01-15T10:00:00Z" h) = Ok sample_result)
  /\ length run.1 = 2%nat.
Proof.
  intros entries run.
  destruct (compute_all_updates_yields sample_calculator sample_world
              (fun _ => "2024-01-15T10:00:00Z") (Some entries) run.1 run.2)
    as (_ & H); [apply surjective_pairing|].
  destruct (H entries eq_refl faithful_sample) as (Hys & Hok & _).
  split.
  - apply (Hys 0%nat sample_result). reflexivity.
  - destruct (Hok sample_calculator_after sample_world_after) as (Hlen & _).
    + reflexivity.
    + exact Hlen.
Defined.

End HostFacts.
